(** * Metadata capture: draft record store, serialization guard,
      validation engine and capture orchestrator

    A shallow embedding of
      - [agent/tools/metadata_store.py]  (the draft record store, the
                                          conversations, whole sessions),
      - [agent/tools/capture_mcp.py]     (the capture orchestrator),
      - [agent/service.py]               (the prompt and the list of
                                          sessions),
    together with the JSON codec of the Python standard library on which
    they rely, and a model of the validation engine.

    Conventions of the embedding.
      - A Python value that travels through [json.dumps]/[json.loads] is a
        term of [json]; a [dict] keeps its insertion order and is an
        association list whose keys are pairwise distinct ([wf]).
      - Text is a [string] over the 256 code points of [ascii].  Numbers are
        Python [int]s; float literals, and the constants [NaN] and
        [Infinity] that Python reads as floats, are outside the modelled
        fragment of JSON and [loads] rejects them.
      - The table [draft_metadata] is the list of its rows in rowid order;
        the ten TEXT columns holding JSON form a finite map from the column
        name to the stored text (a NULL cell is an absent key).
      - [datetime.now] is an oracle [clock]: the k-th reading of the wall
        clock during a run is [clock k].  Timestamps are the ISO texts that
        the code stores, ordered as SQLite orders TEXT (bytewise).
      - [uuid.uuid4] is modelled as a supply of identifiers that are fresh
        for the table.
      - The table [conversations] is the list of its rows in rowid order;
        its [created_at] is stamped by the clock of the database, a second
        oracle. *)

From Stdlib Require Import ZArith String Ascii List Bool Lia Permutation Sorted.
From Stdlib Require Import DecimalN DecimalPos DecimalFacts QArith.
From stdpp Require Import gmap strings list fin_maps.

Import ListNotations.
Local Open Scope string_scope.
Local Open Scope list_scope.

(** ** Characters that cannot be written inside a literal *)

Definition dquote : ascii := "034"%char.
Definition backslash : ascii := "092"%char.
Definition ch_backspace : ascii := "008"%char.
Definition ch_tab : ascii := "009"%char.
Definition ch_newline : ascii := "010"%char.
Definition ch_formfeed : ascii := "012"%char.
Definition ch_return : ascii := "013"%char.

(** ** Python values that are JSON documents *)

#[warnings="-register-all"]
Inductive json : Type :=
| JNull
| JBool (b : bool)
| JInt (z : Z)
| JStr (s : string)
| JList (l : list json)
| JDict (d : list (string * json)).

(** Python's [isinstance(v, dict)]. *)
Definition is_dict (v : json) : bool :=
  match v with JDict _ => true | _ => false end.

(** Python truthiness ([if v:], [not v]). *)
Definition truthy (v : json) : bool :=
  match v with
  | JNull => false
  | JBool b => b
  | JInt z => negb (z =? 0)%Z
  | JStr s => negb (String.eqb s EmptyString)
  | JList l => match l with [] => false | _ => true end
  | JDict d => match d with [] => false | _ => true end
  end.

(** An induction principle that reaches below lists and dicts. *)
Section JsonInd.
Variable P : json -> Prop.
Hypothesis HNull : P JNull.
Hypothesis HBool : forall b, P (JBool b).
Hypothesis HInt : forall z, P (JInt z).
Hypothesis HStr : forall s, P (JStr s).
Hypothesis HList : forall l, Forall P l -> P (JList l).
Hypothesis HDict : forall d, Forall (fun kv => P (snd kv)) d -> P (JDict d).

Fixpoint json_nested_ind (v : json) : P v :=
  match v with
  | JNull => HNull
  | JBool b => HBool b
  | JInt z => HInt z
  | JStr s => HStr s
  | JList l =>
      HList l
        ((fix go (l : list json) : Forall P l :=
            match l with
            | [] => @List.Forall_nil _ P
            | x :: xs => @List.Forall_cons _ P x xs (json_nested_ind x) (go xs)
            end) l)
  | JDict d =>
      HDict d
        ((fix go (d : list (string * json)) : Forall (fun kv => P (snd kv)) d :=
            match d with
            | [] => @List.Forall_nil _ _
            | (k, x) :: xs =>
                @List.Forall_cons _ (fun kv => P (snd kv)) (k, x) xs
                  (json_nested_ind x) (go xs)
            end) d)
  end.
End JsonInd.

(** ** Python dicts as insertion-ordered association lists *)

Module Dict.

Definition t (A : Type) : Type := list (string * A).

(** [d.get(k)] *)
Fixpoint get {A} (k : string) (d : t A) : option A :=
  match d with
  | [] => None
  | (k', v) :: d' => if String.eqb k k' then Some v else get k d'
  end.


(** [d[k] = v]: an existing key keeps its position, a new key goes last. *)
Fixpoint set {A} (k : string) (v : A) (d : t A) : t A :=
  match d with
  | [] => [(k, v)]
  | (k', v') :: d' =>
      if String.eqb k k' then (k', v) :: d' else (k', v') :: set k v d'
  end.

(** [d.update(e)], also [dict(pairs)] from the empty dict. *)
Definition update {A} (d e : t A) : t A :=
  fold_left (fun acc kv => set (fst kv) (snd kv) acc) e d.

(** [{**d, **e}] *)
Definition merge {A} (d e : t A) : t A := update d e.

(** [dict(pairs)] *)
Definition of_pairs {A} (pairs : list (string * A)) : t A := update [] pairs.

Definition keys {A} (d : t A) : list string := map fst d.

End Dict.

(** Keys pairwise distinct. *)
Fixpoint distinct (ks : list string) : bool :=
  match ks with
  | [] => true
  | k :: ks' => negb (existsb (String.eqb k) ks') && distinct ks'
  end.

(** Keys pairwise distinct at every depth: the values that are Python
    dicts rather than arbitrary association lists. *)
Fixpoint wf (v : json) : bool :=
  match v with
  | JList l => forallb wf l
  | JDict d => distinct (map fst d) && forallb (fun kv => wf (snd kv)) d
  | _ => true
  end.

(** ** The JSON codec of the Python standard library

    [dumps] is [json.dumps] with its default arguments ([ensure_ascii],
    separators [", "] and [": "]); [loads] is [json.loads]: [None] stands
    for [json.JSONDecodeError]. *)

Module Codec.

(** *** Encoder *)

Definition hex_char (n : N) : ascii :=
  if (n <? 10)%N then ascii_of_N (48 + n) else ascii_of_N (87 + n).

(** [ESCAPE_DCT] and the [\uXXXX] fallback of [py_encode_basestring_ascii]. *)
Definition escape_char (c : ascii) : string :=
  if Ascii.eqb c dquote then String backslash (String dquote EmptyString)
  else if Ascii.eqb c backslash then String backslash (String backslash EmptyString)
  else if Ascii.eqb c ch_newline then String backslash "n"
  else if Ascii.eqb c ch_return then String backslash "r"
  else if Ascii.eqb c ch_tab then String backslash "t"
  else if Ascii.eqb c ch_formfeed then String backslash "f"
  else if Ascii.eqb c ch_backspace then String backslash "b"
  else if (32 <=? N_of_ascii c)%N && (N_of_ascii c <=? 126)%N
       then String c EmptyString
  else String backslash
         (String "u" (String "0" (String "0"
            (String (hex_char (N_of_ascii c / 16))
               (String (hex_char (N_of_ascii c mod 16)) EmptyString))))).

Fixpoint escape (s : string) : string :=
  match s with
  | EmptyString => EmptyString
  | String c r => escape_char c +:+ escape r
  end.

Definition encode_str (s : string) : string :=
  String dquote (escape s +:+ String dquote EmptyString).

Fixpoint string_of_uint (d : Decimal.uint) : string :=
  match d with
  | Decimal.Nil => EmptyString
  | Decimal.D0 d => String "0" (string_of_uint d)
  | Decimal.D1 d => String "1" (string_of_uint d)
  | Decimal.D2 d => String "2" (string_of_uint d)
  | Decimal.D3 d => String "3" (string_of_uint d)
  | Decimal.D4 d => String "4" (string_of_uint d)
  | Decimal.D5 d => String "5" (string_of_uint d)
  | Decimal.D6 d => String "6" (string_of_uint d)
  | Decimal.D7 d => String "7" (string_of_uint d)
  | Decimal.D8 d => String "8" (string_of_uint d)
  | Decimal.D9 d => String "9" (string_of_uint d)
  end.

(** [int.__repr__] *)
Definition encode_int (z : Z) : string :=
  match z with
  | Z0 => "0"
  | Zpos p => string_of_uint (Pos.to_uint p)
  | Zneg p => String "-" (string_of_uint (Pos.to_uint p))
  end.

(** [", ".join(parts)] *)
Fixpoint join (parts : list string) : string :=
  match parts with
  | [] => EmptyString
  | p :: ps =>
      match ps with
      | [] => p
      | _ :: _ => p +:+ ", " +:+ join ps
      end
  end.

Fixpoint dumps (v : json) : string :=
  match v with
  | JNull => "null"
  | JBool true => "true"
  | JBool false => "false"
  | JInt z => encode_int z
  | JStr s => encode_str s
  | JList l => "[" +:+ join (map dumps l) +:+ "]"
  | JDict d =>
      "{" +:+ join (map (fun kv => encode_str (fst kv) +:+ ": " +:+ dumps (snd kv)) d)
          +:+ "}"
  end.

(** *** Decoder *)

(** [WHITESPACE = ' \t\n\r'] *)
Definition is_ws (c : ascii) : bool :=
  Ascii.eqb c " " || Ascii.eqb c ch_tab || Ascii.eqb c ch_newline
  || Ascii.eqb c ch_return.

Fixpoint skip_ws (s : string) : string :=
  match s with
  | String c r => if is_ws c then skip_ws r else s
  | EmptyString => s
  end.

Definition hex_val (c : ascii) : option N :=
  let n := N_of_ascii c in
  if (48 <=? n)%N && (n <=? 57)%N then Some (n - 48)%N
  else if (97 <=? n)%N && (n <=? 102)%N then Some (n - 87)%N
  else if (65 <=? n)%N && (n <=? 70)%N then Some (n - 55)%N
  else None.

(** [BACKSLASH]: the one-letter escapes. *)
Definition unescape (e : ascii) : option ascii :=
  if Ascii.eqb e dquote then Some dquote
  else if Ascii.eqb e backslash then Some backslash
  else if Ascii.eqb e "/" then Some "/"%char
  else if Ascii.eqb e "b" then Some ch_backspace
  else if Ascii.eqb e "f" then Some ch_formfeed
  else if Ascii.eqb e "n" then Some ch_newline
  else if Ascii.eqb e "r" then Some ch_return
  else if Ascii.eqb e "t" then Some ch_tab
  else None.

Definition cons_char (c : ascii) (r : option (string * string))
  : option (string * string) :=
  match r with
  | Some (s, rest) => Some (String c s, rest)
  | None => None
  end.

(** [scanstring] (strict), entered after the opening quote.  A [\uXXXX]
    escape above code point 255 names a character outside the modelled
    alphabet. *)
Fixpoint scanstring (s : string) : option (string * string) :=
  match s with
  | EmptyString => None
  | String c r =>
      if Ascii.eqb c dquote then Some (EmptyString, r)
      else if Ascii.eqb c backslash then
        match r with
        | EmptyString => None
        | String e r1 =>
            if Ascii.eqb e "u" then
              match r1 with
              | String h1 (String h2 (String h3 (String h4 r2))) =>
                  match hex_val h1, hex_val h2, hex_val h3, hex_val h4 with
                  | Some a, Some b, Some x, Some y =>
                      if (a =? 0)%N && (b =? 0)%N
                      then cons_char (ascii_of_N (16 * x + y)) (scanstring r2)
                      else None
                  | _, _, _, _ => None
                  end
              | _ => None
              end
            else
              match unescape e with
              | Some ch => cons_char ch (scanstring r1)
              | None => None
              end
        end
      else if (N_of_ascii c <? 32)%N then None
      else cons_char c (scanstring r)
  end.

Definition digit_of_char (c : ascii) : option (Decimal.uint -> Decimal.uint) :=
  if Ascii.eqb c "0" then Some Decimal.D0
  else if Ascii.eqb c "1" then Some Decimal.D1
  else if Ascii.eqb c "2" then Some Decimal.D2
  else if Ascii.eqb c "3" then Some Decimal.D3
  else if Ascii.eqb c "4" then Some Decimal.D4
  else if Ascii.eqb c "5" then Some Decimal.D5
  else if Ascii.eqb c "6" then Some Decimal.D6
  else if Ascii.eqb c "7" then Some Decimal.D7
  else if Ascii.eqb c "8" then Some Decimal.D8
  else if Ascii.eqb c "9" then Some Decimal.D9
  else None.

Definition is_digit (c : ascii) : bool :=
  match digit_of_char c with Some _ => true | None => false end.

(** The longest run of digits at the head of [s]. *)
Fixpoint scan_digits (s : string) : Decimal.uint * string :=
  match s with
  | String c r =>
      match digit_of_char c with
      | Some D => let '(d, r') := scan_digits r in (D d, r')
      | None => (Decimal.Nil, s)
      end
  | EmptyString => (Decimal.Nil, s)
  end.

(** [NUMBER_RE] restricted to its integer part: an optional minus sign,
    then either a single zero or a non-zero digit and the digits that
    follow it. *)
Definition scan_nat (s : string) : option (N * string) :=
  match s with
  | String c r =>
      if Ascii.eqb c "0" then Some (0%N, r)
      else if is_digit c
           then let '(d, r') := scan_digits s in Some (Pos.of_uint d, r')
      else None
  | EmptyString => None
  end.

Definition scan_int (s : string) : option (Z * string) :=
  match s with
  | String c r =>
      if Ascii.eqb c "-" then
        match scan_nat r with
        | Some (n, r') => Some (Z.opp (Z.of_N n), r')
        | None => None
        end
      else
        match scan_nat s with
        | Some (n, r') => Some (Z.of_N n, r')
        | None => None
        end
  | EmptyString => None
  end.

(** [s.startswith(p)], returning what follows. *)
Fixpoint strip_prefix (p s : string) : option string :=
  match p with
  | EmptyString => Some s
  | String a p' =>
      match s with
      | String b s' => if Ascii.eqb a b then strip_prefix p' s' else None
      | EmptyString => None
      end
  end.

(** [scan_once], [JSONArray] and [JSONObject]: [scan_items] runs after
    the opening bracket of a non-empty array, [scan_pairs] after the
    opening brace of a non-empty object; both return past the closing
    one.  The recursion of the three is bounded by [fuel]. *)
Fixpoint scan_once (fuel : nat) (s : string) : option (json * string) :=
  match fuel with
  | O => None
  | S fuel' =>
      match s with
      | EmptyString => None
      | String c r =>
          if Ascii.eqb c dquote then
            match scanstring r with
            | Some (str, r') => Some (JStr str, r')
            | None => None
            end
          else if Ascii.eqb c "{" then
            match skip_ws r with
            | String c1 r1 =>
                if Ascii.eqb c1 "}" then Some (JDict [], r1)
                else
                  match scan_pairs fuel' (String c1 r1) with
                  | Some (pairs, r') => Some (JDict (Dict.of_pairs pairs), r')
                  | None => None
                  end
            | EmptyString => None
            end
          else if Ascii.eqb c "[" then
            match skip_ws r with
            | String c1 r1 =>
                if Ascii.eqb c1 "]" then Some (JList [], r1)
                else
                  match scan_items fuel' (String c1 r1) with
                  | Some (vs, r') => Some (JList vs, r')
                  | None => None
                  end
            | EmptyString => None
            end
          else
            match strip_prefix "null" s with
            | Some r' => Some (JNull, r')
            | None =>
            match strip_prefix "true" s with
            | Some r' => Some (JBool true, r')
            | None =>
            match strip_prefix "false" s with
            | Some r' => Some (JBool false, r')
            | None =>
            match scan_int s with
            | Some (z, r') => Some (JInt z, r')
            | None => None
            end end end end
      end
  end
with scan_items (fuel : nat) (s : string) : option (list json * string) :=
  match fuel with
  | O => None
  | S fuel' =>
      match scan_once fuel' s with
      | Some (v, r) =>
          match skip_ws r with
          | String c r1 =>
              if Ascii.eqb c "]" then Some ([v], r1)
              else if Ascii.eqb c "," then
                match scan_items fuel' (skip_ws r1) with
                | Some (vs, r') => Some (v :: vs, r')
                | None => None
                end
              else None
          | EmptyString => None
          end
      | None => None
      end
  end
with scan_pairs (fuel : nat) (s : string)
  : option (list (string * json) * string) :=
  match fuel with
  | O => None
  | S fuel' =>
      match s with
      | String q r =>
          if Ascii.eqb q dquote then
            match scanstring r with
            | Some (key, r0) =>
                match skip_ws r0 with
                | String c r1 =>
                    if Ascii.eqb c ":" then
                      match scan_once fuel' (skip_ws r1) with
                      | Some (v, r2) =>
                          match skip_ws r2 with
                          | String c2 r3 =>
                              if Ascii.eqb c2 "}" then Some ([(key, v)], r3)
                              else if Ascii.eqb c2 "," then
                                match scan_pairs fuel' (skip_ws r3) with
                                | Some (ps, r') => Some ((key, v) :: ps, r')
                                | None => None
                                end
                              else None
                          | EmptyString => None
                          end
                      | None => None
                      end
                    else None
                | EmptyString => None
                end
            | None => None
            end
          else None
      | EmptyString => None
      end
  end.

(** [JSONDecoder.decode]: leading whitespace, one value, trailing
    whitespace, and nothing else. *)
Definition loads (s : string) : option json :=
  match scan_once (S (String.length s)) (skip_ws s) with
  | Some (v, r) =>
      match skip_ws r with
      | EmptyString => Some v
      | String _ _ => None
      end
  | None => None
  end.

(** *** Auxiliary notions for the round trip *)

Definition headc (s : string) : option ascii :=
  match s with String c _ => Some c | EmptyString => None end.

(** What may follow a number for the scan of its digits to stop. *)
Definition stop (rest : string) : Prop :=
  match rest with
  | String c _ => is_digit c = false
  | EmptyString => True
  end.

(** The first character of an encoded integer. *)
Definition int_head (c : ascii) : bool := Ascii.eqb c "-" || is_digit c.

Definition value_head (c : ascii) : bool :=
  negb (is_ws c) && negb (Ascii.eqb c "]") && negb (Ascii.eqb c "}").

Definition reads_back (v : json) : Prop :=
  forall (fuel : nat) (rest : string),
    String.length (dumps v) <= fuel -> stop rest ->
    scan_once fuel (dumps v +:+ rest) = Some (v, rest).

Definition encode_pair (kv : string * json) : string :=
  encode_str (fst kv) +:+ ": " +:+ dumps (snd kv).

End Codec.

(** [s in l] for a tuple or list of strings. *)
Definition mem_str (s : string) (l : list string) : bool :=
  existsb (String.eqb s) l.

(** ** The validation engine

    [agent/validation.py] is imported by the orchestrator and exercised by
    [evals/tasks/extraction/test_validation.py]; the engine below follows
    the specification of the validation rules. *)

Module Validation.

(** Modelled from the spec: the severity of an issue of
    [agent/validation.py], [error] or [warning]. *)
Inductive Severity : Type := error | warning.

(** Modelled from the spec: equality of two severities. *)
Definition Severity_eqb (a b : Severity) : bool :=
  match a, b with
  | error, error | warning, warning => true
  | _, _ => false
  end.

(** Modelled from the spec: an issue of [agent/validation.py], with its
    [field], [message] and [severity]. *)
Record Issue : Type := {
  field : string;
  message : string;
  severity : Severity
}.

(** Modelled from the spec: the overall status of [agent/validation.py],
    the strings [valid] and [errors]. *)
Inductive Status : Type := valid | errors.

(** Modelled from the spec: the [ValidationResult] of
    [agent/validation.py]; the score is the fraction of required paths
    that are present. *)
Record ValidationResult : Type := {
  status : Status;
  completeness_score : Q;
  missing_required : list string;
  valid_fields : list string;
  issues : list Issue
}.

(** Modelled from the spec: the three required paths of
    [agent/validation.py], as (section, key). *)
Definition REQUIRED_FIELDS : list (string * string) :=
  [("subject", "subject_id");
   ("data_description", "modality");
   ("data_description", "project_name")].

(** Modelled from the spec: the vocabularies of [agent/validation.py]
    ([VALID_SEX] is imported by the tests), as the rules list them. *)
Definition VALID_SEX : list string := ["Male"; "Female"].

(** Modelled from the spec: the modality abbreviations that the rules of
    [agent/validation.py] accept. *)
Definition VALID_MODALITIES : list string :=
  ["behavior"; "behavior-videos"; "confocal"; "EMG"; "ecephys"; "fib";
   "fMOST"; "icephys"; "ISI"; "MRI"; "merfish"; "pophys"; "slap"; "SPIM"].

(** Modelled from the spec: the species names that the rules of
    [agent/validation.py] accept. *)
Definition VALID_SPECIES : list string := ["Mus musculus"; "Homo sapiens"].

(** Modelled from the spec: the dotted name of a path, as the results of
    [agent/validation.py] report it. *)
Definition path_name (p : string * string) : string :=
  fst p +:+ "." +:+ snd p.

(** Modelled from the spec: whether a path of [agent/validation.py] is
    present; [snapshot[section][key]], when the section is a mapping
    holding the key. *)
Definition lookup_path (snapshot : Dict.t json) (p : string * string)
  : option json :=
  match Dict.get (fst p) snapshot with
  | Some (JDict d) => Dict.get (snd p) d
  | _ => None
  end.

(** Modelled from the spec: a path of [agent/validation.py] is present
    when the lookup finds a value. *)
Definition present (snapshot : Dict.t json) (p : string * string) : bool :=
  match lookup_path snapshot p with Some _ => true | None => false end.

(** Modelled from the spec: the entries that the modality rules of
    [agent/validation.py] range over; the values under [abbreviation] of
    the entries of [data_description.modality]. *)
Definition modality_abbreviations (snapshot : Dict.t json) : list json :=
  match lookup_path snapshot ("data_description", "modality") with
  | Some (JList entries) =>
      flat_map
        (fun e =>
           match e with
           | JDict d =>
               match Dict.get "abbreviation" d with
               | Some a => [a]
               | None => []
               end
           | _ => []
           end)
        entries
  | _ => []
  end.

(** Modelled from the spec: membership of a string value in a vocabulary
    of [agent/validation.py]. *)
Definition is_one_of (v : json) (l : list string) : bool :=
  match v with JStr s => mem_str s l | _ => false end.

Section Rules.

(** Modelled from the spec: the minimum length of a subject id, the
    set of physiology-style modalities (of which the specification
    names [ecephys] and [pophys]) and the shape of well-formed
    coordinates are fixed in [agent/validation.py]; the specification
    does not list them. *)
Variable MIN_SUBJECT_ID_LENGTH : nat.
Variable PHYSIOLOGY_MODALITIES : list string.
Variable coordinates_well_formed : json -> bool.

(** Modelled from the spec: the format rule of [agent/validation.py] on
    [subject.subject_id], a warning. *)
Definition subject_id_issues (snapshot : Dict.t json) : list Issue :=
  match lookup_path snapshot ("subject", "subject_id") with
  | Some (JStr s) =>
      if (String.length s <? MIN_SUBJECT_ID_LENGTH)%nat
      then [{| field := "subject.subject_id";
               message := "subject_id is shorter than expected";
               severity := warning |}]
      else []
  | _ => []
  end.

(** Modelled from the spec: the enumeration rule of
    [agent/validation.py] on [subject.sex], an error. *)
Definition sex_issues (snapshot : Dict.t json) : list Issue :=
  match lookup_path snapshot ("subject", "sex") with
  | Some v =>
      if is_one_of v VALID_SEX then []
      else [{| field := "subject.sex";
               message := "sex must be Male or Female";
               severity := error |}]
  | None => []
  end.

(** Modelled from the spec: the enumeration rule of
    [agent/validation.py] on every modality abbreviation, an error each. *)
Definition modality_issues (snapshot : Dict.t json) : list Issue :=
  flat_map
    (fun a =>
       if is_one_of a VALID_MODALITIES then []
       else [{| field := "data_description.modality";
                message := "unknown modality abbreviation";
                severity := error |}])
    (modality_abbreviations snapshot).

(** Modelled from the spec: the species rule of [agent/validation.py], a
    warning. *)
Definition species_issues (snapshot : Dict.t json) : list Issue :=
  match lookup_path snapshot ("subject", "species") with
  | Some (JDict sp) =>
      match Dict.get "name" sp with
      | Some n =>
          if is_one_of n VALID_SPECIES then []
          else [{| field := "subject.species.name";
                   message := "species is not a recognized species";
                   severity := warning |}]
      | None => []
      end
  | _ => []
  end.

(** Modelled from the spec: the numeric rule of [agent/validation.py] on
    [procedures.section_thickness_um], an error. *)
Definition thickness_issues (snapshot : Dict.t json) : list Issue :=
  match lookup_path snapshot ("procedures", "section_thickness_um") with
  | Some (JInt z) =>
      if (z <=? 0)%Z
      then [{| field := "procedures.section_thickness_um";
               message := "section thickness must be positive";
               severity := error |}]
      else []
  | _ => []
  end.

(** Modelled from the spec: whether some modality abbreviation is
    physiology-style, for the cross-field rule of [agent/validation.py]. *)
Definition has_physiology_modality (snapshot : Dict.t json) : bool :=
  existsb (fun a => is_one_of a PHYSIOLOGY_MODALITIES)
    (modality_abbreviations snapshot).

(** Modelled from the spec: the cross-field rule of
    [agent/validation.py]; physiology data without a [session] section is
    a warning on [session]. *)
Definition session_issues (snapshot : Dict.t json) : list Issue :=
  match Dict.get "session" snapshot with
  | None =>
      if has_physiology_modality snapshot
      then [{| field := "session";
               message := "physiology data is expected to carry a session";
               severity := warning |}]
      else []
  | Some _ => []
  end.

(** Modelled from the spec: the issues of [agent/validation.py], rule
    after rule. *)
Definition all_issues (snapshot : Dict.t json) : list Issue :=
  subject_id_issues snapshot ++ sex_issues snapshot
  ++ modality_issues snapshot ++ species_issues snapshot
  ++ thickness_issues snapshot ++ session_issues snapshot.

(** Modelled from the spec: no rule of [agent/validation.py] objects to
    the path [f]. *)
Definition no_issue_on (f : string) (l : list Issue) : bool :=
  negb (existsb (fun i => String.eqb (field i) f) l).

(** Modelled from the spec: the [valid_fields] of [agent/validation.py];
    a required path that is present counts as valid when no rule on that
    path objects. *)
Definition required_valid (snapshot : Dict.t json) : list string :=
  map path_name
    (List.filter
       (fun p => present snapshot p
                 && no_issue_on (path_name p) (all_issues snapshot))
       REQUIRED_FIELDS).

(** Modelled from the spec: the optional paths among the [valid_fields]
    of [agent/validation.py], a positive thickness and well-formed
    coordinates. *)
Definition optional_valid (snapshot : Dict.t json) : list string :=
  (match lookup_path snapshot ("procedures", "section_thickness_um") with
   | Some (JInt z) =>
       if (0 <? z)%Z then ["procedures.section_thickness_um"] else []
   | _ => []
   end)
  ++
  (match lookup_path snapshot ("procedures", "coordinates") with
   | Some c =>
       if coordinates_well_formed c then ["procedures.coordinates"] else []
   | None => []
   end).

(** Modelled from the spec: an issue of severity [error]. *)
Definition is_error (i : Issue) : bool := Severity_eqb (severity i) error.

(** Modelled from the spec: [validate_metadata] of
    [agent/validation.py]. *)
Definition validate_metadata (snapshot : Dict.t json) : ValidationResult :=
  let found := all_issues snapshot in
  {| status := if existsb is_error found then errors else valid;
     completeness_score :=
       Z.of_nat (List.length (List.filter (present snapshot) REQUIRED_FIELDS))
       # Pos.of_nat (List.length REQUIRED_FIELDS);
     missing_required :=
       map path_name
         (List.filter (fun p => negb (present snapshot p)) REQUIRED_FIELDS);
     valid_fields := required_valid snapshot ++ optional_valid snapshot;
     issues := found |}.

(** The warnings keyed on [session]. *)
Definition session_warnings (r : ValidationResult) : list Issue :=
  List.filter
    (fun i => String.eqb (field i) "session"
              && Severity_eqb (severity i) warning)
    (issues r).

End Rules.

End Validation.

(** ** Python [str] methods used by the store *)

(** [s.endswith(suffix)] *)
Definition endswith (s suffix : string) : bool :=
  let n := String.length s in
  let m := String.length suffix in
  (m <=? n)%nat && String.eqb (String.substring (n - m) m s) suffix.

(** [s.replace(old, new)] for a non-empty [old]: [skip] counts the
    characters of a match that are still to be dropped. *)
Fixpoint replace_from (old new : string) (skip : nat) (s : string) : string :=
  match s with
  | EmptyString => EmptyString
  | String c r =>
      match skip with
      | S k => replace_from old new k r
      | O =>
          if String.prefix old s
          then new +:+ replace_from old new (String.length old - 1) r
          else String c (replace_from old new 0 r)
      end
  end.

Definition replace (s old new : string) : string := replace_from old new 0 s.

(** ** The draft record store ([agent/tools/metadata_store.py]) *)

Module Store.

(** A row of [draft_metadata] ([agent/db/models.py]).  [row_json] holds
    the ten TEXT columns [subject_json] ... [validation_results_json];
    a NULL cell is an absent key. *)
Record Row : Type := {
  row_id : nat;
  row_session_id : string;
  row_status : string;
  row_json : gmap string string;
  row_created_at : string;
  row_updated_at : string
}.

(** [dict(row)] after [_row_to_dict]: the JSON columns hold Python values;
    a text that was left as it is, is a Python [str]. *)
Record Draft : Type := {
  d_id : nat;
  d_session_id : string;
  d_status : string;
  d_json : gmap string json;
  d_created_at : string;
  d_updated_at : string
}.

Definition METADATA_FIELDS : list string :=
  ["subject_json"; "procedures_json"; "data_description_json";
   "instrument_json"; "acquisition_json"; "session_json";
   "processing_json"; "quality_control_json"; "rig_json"].

(** One turn of the loop of [_row_to_dict]: [if d.get(field)], then
    [json.loads] under [try]. *)
Definition decode_field (d : gmap string json) (field : string)
  : gmap string json :=
  match d !! field with
  | Some (JStr text) =>
      if truthy (JStr text) then
        match Codec.loads text with
        | Some v => <[field := v]> d
        | None => d
        end
      else d
  | _ => d
  end.

Definition _row_to_dict (r : Row) : Draft :=
  let d := JStr <$> row_json r in
  let d := fold_left decode_field METADATA_FIELDS d in
  let d := decode_field d "validation_results_json" in
  {| d_id := row_id r;
     d_session_id := row_session_id r;
     d_status := row_status r;
     d_json := d;
     d_created_at := row_created_at r;
     d_updated_at := row_updated_at r |}.

(** The double-serialization guard, written out twice in the source (in
    [save_draft_metadata] and in [update_draft_metadata]): the text
    stored for a value. *)
Definition serialized (raw : json) : string :=
  match raw with
  | JStr s =>
      match Codec.loads s with
      | Some _ => s
      | None => Codec.dumps raw
      end
  | _ => Codec.dumps raw
  end.

(** *** The table and the queries *)

(** The database: the rows of [draft_metadata] in rowid order, and the
    number of readings of the wall clock so far. *)
Record World : Type := {
  table : list Row;
  ticks : nat
}.

(** [ORDER BY created_at DESC]: rows that tie keep their rowid order. *)
Fixpoint insert_desc (r : Row) (sorted : list Row) : list Row :=
  match sorted with
  | [] => [r]
  | x :: xs =>
      if String.leb (row_created_at x) (row_created_at r)
      then r :: x :: xs
      else x :: insert_desc r xs
  end.

Definition order_by_created_at_desc (rows : list Row) : list Row :=
  fold_right insert_desc [] rows.

(** [SELECT ... WHERE session_id = ? ORDER BY created_at DESC LIMIT 1] *)
Definition select_latest (session_id : string) (rows : list Row)
  : option Row :=
  head (order_by_created_at_desc
          (List.filter (fun r => String.eqb (row_session_id r) session_id) rows)).

(** [UPDATE draft_metadata SET <col> = ?, updated_at = ? WHERE id = ?] *)
Definition update_column (col text now : string) (id : nat) (rows : list Row)
  : list Row :=
  map (fun r =>
         if Nat.eqb (row_id r) id
         then {| row_id := row_id r;
                 row_session_id := row_session_id r;
                 row_status := row_status r;
                 row_json := <[col := text]> (row_json r);
                 row_created_at := row_created_at r;
                 row_updated_at := now |}
         else r)
      rows.

(** [UPDATE draft_metadata SET status = 'confirmed', updated_at = ?
    WHERE id = ?] *)
Definition update_confirmed (now : string) (id : nat) (rows : list Row)
  : list Row :=
  map (fun r =>
         if Nat.eqb (row_id r) id
         then {| row_id := row_id r;
                 row_session_id := row_session_id r;
                 row_status := "confirmed";
                 row_json := row_json r;
                 row_created_at := row_created_at r;
                 row_updated_at := now |}
         else r)
      rows.

(** [uuid.uuid4]: an identifier that no row carries. *)
Definition fresh_id (rows : list Row) : nat :=
  S (fold_right Nat.max 0 (map row_id rows)).

(** The column that a field name addresses: [field] itself when it
    already carries the suffix, [field + "_json"] otherwise. *)
Definition col (field : string) : string :=
  if endswith field "_json" then field else field +:+ "_json".

(** *** The operations *)

Section Operations.

(** [datetime.now(timezone.utc).isoformat()], reading after reading. *)
Variable clock : nat -> string.

Definition M (A : Type) : Type := World -> A * World.

Definition ret {A} (a : A) : M A := fun w => (a, w).

Definition bind {A B} (m : M A) (k : A -> M B) : M B :=
  fun w => let '(a, w') := m w in k a w'.

Definition now : M string :=
  fun w => (clock (ticks w), {| table := table w; ticks := S (ticks w) |}).

Definition get_table : M (list Row) := fun w => (table w, w).

Definition put_table (rows : list Row) : M unit :=
  fun w => (tt, {| table := rows; ticks := ticks w |}).

Notation "x <- m ;; k" := (bind m (fun x => k))
  (at level 100, m at next level, right associativity).

Definition get_draft_metadata (session_id : string) : M (option Draft) :=
  rows <- get_table ;;
  ret (_row_to_dict <$> select_latest session_id rows).

(** The loop of [save_draft_metadata] over [METADATA_FIELDS]. *)
Definition save_columns (metadata_json : Dict.t json) : gmap string string :=
  fold_left
    (fun cols field =>
       let key := replace field "_json" EmptyString in
       match Dict.get key metadata_json with
       | Some raw => <[field := serialized raw]> cols
       | None => cols
       end)
    METADATA_FIELDS ∅.

Definition save_draft_metadata (session_id : string)
    (metadata_json : Dict.t json) : M (option Draft) :=
  rows <- get_table ;;
  let draft_id := fresh_id rows in
  t <- now ;;
  _ <- put_table
         (rows ++ [{| row_id := draft_id;
                      row_session_id := session_id;
                      row_status := "draft";
                      row_json := save_columns metadata_json;
                      row_created_at := t;
                      row_updated_at := t |}]) ;;
  get_draft_metadata session_id.

(** What [update_draft_metadata] returns: the [error] dict, [None], or
    the row. *)
Inductive Updated : Type :=
| UnknownField (error : string)
| NoDraft
| UpdatedRow (d : Draft).

Definition update_draft_metadata (session_id field : string) (value : json)
  : M Updated :=
  if negb (mem_str (col field) METADATA_FIELDS)
     && negb (String.eqb (col field) "validation_results_json")
  then ret (UnknownField ("Unknown metadata field: " +:+ field))
  else
    t <- now ;;
    rows <- get_table ;;
    match select_latest session_id rows with
    | None => ret NoDraft
    | Some row =>
        _ <- put_table
               (update_column (col field) (serialized value) t (row_id row) rows) ;;
        d <- get_draft_metadata session_id ;;
        ret (match d with Some d => UpdatedRow d | None => NoDraft end)
    end.

Definition list_all_drafts (status_filter : option string) : M (list Draft) :=
  rows <- get_table ;;
  match status_filter with
  | Some st =>
      if negb (String.eqb st EmptyString)
      then ret (map _row_to_dict
                  (order_by_created_at_desc
                     (List.filter (fun r => String.eqb (row_status r) st) rows)))
      else ret (map _row_to_dict (order_by_created_at_desc rows))
  | None => ret (map _row_to_dict (order_by_created_at_desc rows))
  end.

Definition confirm_metadata (session_id : string) : M (option Draft) :=
  t <- now ;;
  rows <- get_table ;;
  match select_latest session_id rows with
  | None => ret None
  | Some row =>
      _ <- put_table (update_confirmed t (row_id row) rows) ;;
      get_draft_metadata session_id
  end.

End Operations.

(** *** Notions used to state the properties of the store *)

(** What a stored text reads back as: the value it decodes to, or the text
    itself when it does not decode. *)
Definition read_back (text : string) : json :=
  match Codec.loads text with
  | Some v => v
  | None => JStr text
  end.

(** The effect of one turn of [decode_field] on the entry it visits. *)
Definition decode_value (o : option json) : option json :=
  match o with
  | Some (JStr text) =>
      if truthy (JStr text) then
        match Codec.loads text with
        | Some v => Some v
        | None => o
        end
      else o
  | _ => o
  end.

(** The nine section names: the keys that [save_draft_metadata] looks up. *)
Definition SECTION_NAMES : list string :=
  map (fun field => replace field "_json" EmptyString) METADATA_FIELDS.

(** A string that the guard takes for an already encoded value. *)
Definition decodable_str (v : json) : bool :=
  match v with
  | JStr s => match Codec.loads s with Some _ => true | None => false end
  | _ => false
  end.

(** [created_at] descending, as a relation between consecutive rows. *)
Definition newer_or_equal (a b : Row) : Prop :=
  String.leb (row_created_at b) (row_created_at a) = true.

(** The text and the value that the current draft of a session holds for
    a field. *)
Definition stored_text (sid field : string) (w : World) : option string :=
  select_latest sid (table w) ≫= fun r => row_json r !! col field.

Definition stored_section (sid field : string) (w : World) : option json :=
  fst (get_draft_metadata sid w) ≫= fun d => d_json d !! col field.

(** The row [r] after [UPDATE ... SET <c> = text, updated_at = t]. *)
Definition with_column (c text t : string) (r : Row) : Row :=
  {| row_id := row_id r;
     row_session_id := row_session_id r;
     row_status := row_status r;
     row_json := <[c := text]> (row_json r);
     row_created_at := row_created_at r;
     row_updated_at := t |}.

(** A change of the rows that keeps [session_id] and [created_at]. *)
Definition keeps_keys (g : Row -> Row) : Prop :=
  forall r, row_session_id (g r) = row_session_id r
            /\ row_created_at (g r) = row_created_at r.

End Store.

(** ** The capture orchestrator ([agent/tools/capture_mcp.py]) *)

Module Capture.

Import Store.

(** The arguments of the tool: [session_id] is a [str] by the declared
    schema of the tool, or is missing; [fields] are the other entries of
    [args]. *)
Record Args : Type := {
  session_id : option string;
  fields : Dict.t json
}.

Definition metadata_fields : list string :=
  ["subject"; "data_description"; "session"; "procedures"; "instrument";
   "acquisition"; "processing"; "quality_control"; "rig"].

(** The ten JSON columns of a row in the order of the table, which is the
    order of the keys of [dict(row)]. *)
Definition JSON_COLUMNS : list string :=
  ["subject_json"; "procedures_json"; "data_description_json";
   "instrument_json"; "acquisition_json"; "session_json";
   "processing_json"; "quality_control_json"; "rig_json";
   "validation_results_json"].

(** [{"content": [{"type": "text", "text": text}]}] *)
Definition text_content (text : string) : json :=
  JDict [("content", JList [JDict [("type", JStr "text"); ("text", JStr text)]])].

Definition NO_FIELDS_MESSAGE : string :=
  "No metadata fields provided. Include at least one of: subject, data_description, session, procedures, instrument, acquisition, processing, quality_control, rig".

(** The loop that collects the non-null fields: a [str] that decodes is
    replaced by what it decodes to. *)
Definition collect (args : Dict.t json) : Dict.t json :=
  fold_left
    (fun metadata field =>
       match Dict.get field args with
       | None | Some JNull => metadata
       | Some (JStr s) =>
           match Codec.loads s with
           | Some v => Dict.set field v metadata
           | None => Dict.set field (JStr s) metadata
           end
       | Some value => Dict.set field value metadata
       end)
    metadata_fields [].

(** [str(n)] for the count in the message. *)
Definition str_of_nat (n : nat) : string := Codec.encode_int (Z.of_nat n).

Section Handler.

Variable clock : nat -> string.

(** The parameters of the validation engine, and
    [ValidationResult.to_dict], which [agent/validation.py] defines. *)
Variable MIN_SUBJECT_ID_LENGTH : nat.
Variable PHYSIOLOGY_MODALITIES : list string.
Variable coordinates_well_formed : json -> bool.
Variable to_dict : Validation.ValidationResult -> json.

Notation "x <- m ;; k" := (bind m (fun x => k))
  (at level 100, m at next level, right associativity).

(** The merge of one field into the draft read before the loop. *)
Definition merge_field (sid : string) (draft : Draft)
    (field : string) (value : json) : M Updated :=
  match d_json draft !! (field +:+ "_json"), value with
  | Some (JDict existing), JDict incoming =>
      update_draft_metadata clock sid field
        (JDict (Dict.merge existing incoming))
  | _, _ => update_draft_metadata clock sid field value
  end.

Fixpoint merge_fields (sid : string) (draft : Draft)
    (metadata : Dict.t json) : M unit :=
  match metadata with
  | [] => ret tt
  | (field, value) :: rest =>
      _ <- merge_field sid draft field value ;;
      merge_fields sid draft rest
  end.

(** The snapshot handed to the validator: the JSON columns but
    [validation_results_json], without the suffix, whose value is not
    [None] (a NULL cell, or a stored [null]). *)
Definition bare_metadata (d : Draft) : Dict.t json :=
  Dict.of_pairs
    (flat_map
       (fun k =>
          if endswith k "_json"
             && negb (String.eqb k "validation_results_json")
          then match d_json d !! k with
               | None | Some JNull => []
               | Some v => [(replace k "_json" EmptyString, v)]
               end
          else [])
       JSON_COLUMNS).

Definition saved_response (sid : string) (metadata : Dict.t json) : json :=
  text_content
    (Codec.dumps
       (JDict
          [("status", JStr "saved");
           ("session_id", JStr sid);
           ("fields_saved", JList (map JStr (Dict.keys metadata)));
           ("message",
            JStr ("Successfully saved "
                    +:+ str_of_nat (List.length metadata)
                    +:+ " metadata field(s)"))])).

(** The statements under [try] cannot raise here: the database does not
    fail and every value of [json] can be encoded, so the [except] branch
    is not reached and has no counterpart. *)
Definition capture_metadata_handler (args : Args) : M json :=
  match session_id args with
  | None => ret (text_content "Error: session_id is required")
  | Some sid =>
      if String.eqb sid EmptyString
      then ret (text_content "Error: session_id is required")
      else
        let metadata := collect (fields args) in
        match metadata with
        | [] => ret (text_content NO_FIELDS_MESSAGE)
        | _ :: _ =>
            draft <- get_draft_metadata sid ;;
            _ <- match draft with
                 | None =>
                     _ <- save_draft_metadata clock sid metadata ;; ret tt
                 | Some draft => merge_fields sid draft metadata
                 end ;;
            updated_draft <- get_draft_metadata sid ;;
            _ <- match updated_draft with
                 | Some updated =>
                     let validation_result :=
                       Validation.validate_metadata MIN_SUBJECT_ID_LENGTH
                         PHYSIOLOGY_MODALITIES coordinates_well_formed
                         (bare_metadata updated) in
                     _ <- update_draft_metadata clock sid "validation_results"
                            (to_dict validation_result) ;;
                     ret tt
                 | None => ret tt
                 end ;;
            ret (saved_response sid metadata)
        end
  end.

(** A run of calls, one after the other. *)
Fixpoint run (calls : list Args) (w : World) : World :=
  match calls with
  | [] => w
  | a :: rest => run rest (snd (capture_metadata_handler a w))
  end.

End Handler.

(** *** Notions used to state the properties of the orchestrator *)

(** What the loop of [collect] keeps of an argument: nothing of a missing
    or null one, what a [str] decodes to when it decodes. *)
Definition effective (o : option json) : option json :=
  match o with
  | None | Some JNull => None
  | Some (JStr s) => Some (Store.read_back s)
  | Some v => Some v
  end.

(** The value written for a field whose current value is [existing]. *)
Definition merge_value (existing : option json) (value : json) : json :=
  match existing, value with
  | Some (JDict e), JDict v => JDict (Dict.merge e v)
  | _, _ => value
  end.

(** What the stored section becomes when a call supplies the mapping [d]. *)
Definition merge_into (cur : option json) (d : Dict.t json) : option json :=
  Some (merge_value cur (JDict d)).

(** The mappings that the calls supply for a field, in the order of the
    calls. *)
Definition mappings (field : string) (calls : list Args) : list (Dict.t json) :=
  flat_map
    (fun a =>
       match Dict.get field (fields a) with
       | Some (JDict d) => [d]
       | _ => []
       end)
    calls.

(** A call on session [sid] that supplies, for [field], a mapping or
    nothing. *)
Definition supplies_mapping (sid field : string) (a : Args) : Prop :=
  session_id a = Some sid
  /\ (Dict.get field (fields a) = None
      \/ exists d, Dict.get field (fields a) = Some (JDict d)
                   /\ wf (JDict d) = true).



(** The columns of the current row after the loop of [merge_fields]. *)
Definition merged_columns (draft : Store.Draft) (metadata : Dict.t json)
    (cols : gmap string string) : gmap string string :=
  fold_left
    (fun cols kv =>
       <[Store.col (fst kv) :=
           Store.serialized
             (merge_value (Store.d_json draft !! (fst kv +:+ "_json")) (snd kv))]>
         cols)
    metadata cols.

End Capture.

(** ** Concrete inputs *)

Module Examples.

Import Store.


(** A wall clock that advances by one second per reading. *)
Definition clock (n : nat) : string :=
  "2024-01-01T00:00:0" +:+ Codec.encode_int (Z.of_nat n) +:+ "+00:00".

Definition empty : World := {| table := []; ticks := 0 |}.

(** The table after [save_draft_metadata("s", {"subject": {"subject_id": "111"}})]. *)
Definition one_draft : World :=
  snd (save_draft_metadata clock "s"
         [("subject", JDict [("subject_id", JStr "111")])] empty).

(** Parameters of the validation engine, and a rendering of its result
    (without the score, which is a float). *)
Definition MIN_SUBJECT_ID_LENGTH : nat := 4.

Definition PHYSIOLOGY_MODALITIES : list string := ["ecephys"; "pophys"].

Definition coordinates_well_formed (c : json) : bool := is_dict c.

Definition to_dict (r : Validation.ValidationResult) : json :=
  JDict
    [("status",
      JStr (match Validation.status r with
            | Validation.valid => "valid"
            | Validation.errors => "errors"
            end));
     ("missing_required", JList (map JStr (Validation.missing_required r)));
     ("valid_fields", JList (map JStr (Validation.valid_fields r)))].

(** The handler and a run of calls under these parameters. *)
Definition capture (args : Capture.Args) : Store.M json :=
  Capture.capture_metadata_handler clock MIN_SUBJECT_ID_LENGTH
    PHYSIOLOGY_MODALITIES coordinates_well_formed to_dict args.

Definition run (calls : list Capture.Args) (w : World) : World :=
  Capture.run clock MIN_SUBJECT_ID_LENGTH PHYSIOLOGY_MODALITIES
    coordinates_well_formed to_dict calls w.

(** [capture(session_id="s", subject={})]: the only section value is an
    empty mapping. *)
Definition empty_subject : Capture.Args :=
  {| Capture.session_id := Some "s";
     Capture.fields := [("subject", JDict [])] |}.


(** The table after a second [save_draft_metadata] for the same session. *)
Definition two_drafts : World :=
  snd (save_draft_metadata clock "s"
         [("subject", JDict [("subject_id", JStr "222")])] one_draft).

End Examples.


(** ** Conversations and whole sessions ([agent/tools/metadata_store.py]) *)

Module Sessions.

Import Store.

(** The [role] of a turn.  The [conversations] table of
    [agent/db/models.py] declares [CHECK (role IN ('user', 'assistant'))],
    so a stored role is one of the two. *)
Inductive Role : Type := user | assistant.

Definition Role_eqb (a b : Role) : bool :=
  match a, b with
  | user, user | assistant, assistant => true
  | _, _ => false
  end.

(** The role that a string names, if any. *)
Definition role_of_string (s : string) : option Role :=
  if String.eqb s "user" then Some user
  else if String.eqb s "assistant" then Some assistant
  else None.

(** A row of [conversations]. *)
Record Turn : Type := {
  turn_id : nat;
  turn_session_id : string;
  turn_role : Role;
  turn_content : string;
  turn_created_at : string
}.

(** The database: the [draft_metadata] table with the wall clock of the
    process, the rows of [conversations] in rowid order, the largest
    rowid that AUTOINCREMENT has handed out, and the number of readings of
    the clock of the database ([datetime('now')]) so far. *)
Record Db : Type := {
  drafts : World;
  conversations : list Turn;
  last_turn_id : nat;
  db_ticks : nat
}.

(** What a statement that can violate a constraint of the table gives:
    its result, or [sqlite3.IntegrityError]. *)
Inductive Outcome (A : Type) : Type :=
| Returned (a : A)
| IntegrityError.

Arguments Returned {A} a.
Arguments IntegrityError {A}.

(** An operation of the draft store, run on the database. *)
Definition on_drafts {A} (m : M A) (db : Db) : A * Db :=
  let '(a, w) := m (drafts db) in
  (a, {| drafts := w;
         conversations := conversations db;
         last_turn_id := last_turn_id db;
         db_ticks := db_ticks db |}).

(** [WHERE session_id = ?] on either table. *)
Definition of_session (session_id : string) (t : Turn) : bool :=
  String.eqb (turn_session_id t) session_id.

Definition row_of_session (session_id : string) (r : Row) : bool :=
  String.eqb (row_session_id r) session_id.

(** [delete_session]: the two [DELETE ... WHERE session_id = ?], and
    [(c1.rowcount or 0) + (c2.rowcount or 0) > 0]. *)
Definition delete_session (session_id : string) (db : Db) : bool * Db :=
  let c1 := List.length (List.filter (of_session session_id) (conversations db)) in
  let c2 :=
    List.length (List.filter (row_of_session session_id) (table (drafts db))) in
  ((0 <? c1 + c2)%nat,
   {| drafts :=
        {| table :=
             List.filter (fun r => negb (row_of_session session_id r))
               (table (drafts db));
           ticks := ticks (drafts db) |};
      conversations :=
        List.filter (fun t => negb (of_session session_id t)) (conversations db);
      last_turn_id := last_turn_id db;
      db_ticks := db_ticks db |}).

Section Operations.

(** [datetime('now')] of the database, reading after reading. *)
Variable db_clock : nat -> string.

(** [save_conversation_turn]: the [INSERT INTO conversations (session_id,
    role, content)]; [id] and [created_at] take their defaults.  A role
    other than the two violates the [CHECK] of the table: the statement
    raises and inserts nothing. *)
Definition save_conversation_turn (session_id role content : string)
    (db : Db) : Outcome unit * Db :=
  match role_of_string role with
  | None => (IntegrityError, db)
  | Some r =>
      (Returned tt,
       {| drafts := drafts db;
          conversations :=
            conversations db
            ++ [{| turn_id := S (last_turn_id db);
                   turn_session_id := session_id;
                   turn_role := r;
                   turn_content := content;
                   turn_created_at := db_clock (db_ticks db) |}];
          last_turn_id := S (last_turn_id db);
          db_ticks := S (db_ticks db) |})
  end.

End Operations.

(** [ORDER BY created_at ASC]: rows that tie keep their rowid order. *)
Fixpoint insert_asc (t : Turn) (sorted : list Turn) : list Turn :=
  match sorted with
  | [] => [t]
  | x :: xs =>
      if String.leb (turn_created_at t) (turn_created_at x)
      then t :: x :: xs
      else x :: insert_asc t xs
  end.

Definition order_by_created_at_asc (turns : list Turn) : list Turn :=
  fold_right insert_asc [] turns.

(** [dict(r)] for a row of [SELECT role, content, created_at]. *)
Record Message : Type := {
  role : Role;
  content : string;
  created_at : string
}.

Definition to_message (t : Turn) : Message :=
  {| role := turn_role t;
     content := turn_content t;
     created_at := turn_created_at t |}.

(** [get_conversation_history]: [SELECT role, content, created_at FROM
    conversations WHERE session_id = ? ORDER BY created_at ASC]. *)
Definition get_conversation_history (session_id : string) (db : Db)
  : list Message * Db :=
  (map to_message
     (order_by_created_at_asc
        (List.filter (of_session session_id) (conversations db))),
   db).

(** *** Notions used to state the properties of the conversations *)

(** [created_at] ascending, as a relation between consecutive messages. *)
Definition older_or_equal (a b : Message) : Prop :=
  String.leb (created_at a) (created_at b) = true.

Definition turn_older_or_equal (a b : Turn) : Prop :=
  String.leb (turn_created_at a) (turn_created_at b) = true.

(** The messages of a session, in rowid order. *)
Definition messages_of (session_id : string) (db : Db) : list Message :=
  map to_message (List.filter (of_session session_id) (conversations db)).

End Sessions.

(** ** The service ([agent/service.py]) *)

Module Service.

Import Sessions.

(** [turn["role"].upper()] *)
Definition upper (r : Role) : string :=
  match r with
  | user => "USER"
  | assistant => "ASSISTANT"
  end.

(** [history[-n:]] for a positive [n]. *)
Definition last_turns {A} (n : nat) (history : list A) : list A :=
  skipn (List.length history - n) history.

(** ["\n".join(parts)] *)
Fixpoint join_lines (parts : list string) : string :=
  match parts with
  | [] => EmptyString
  | p :: ps =>
      match ps with
      | [] => p
      | _ :: _ => p +:+ String ch_newline (join_lines ps)
      end
  end.

(** The [parts] of [_format_conversation_context]. *)
Definition context_parts (history : list Message) (user_message : string)
  : list string :=
  (match history with
   | [] => []
   | _ :: _ =>
       ["Previous conversation:"]
       ++ map (fun turn => upper (role turn) +:+ ": " +:+ content turn)
            (last_turns 10 history)
       ++ [EmptyString]
   end)
  ++ ["USER: " +:+ user_message].

Definition _format_conversation_context (history : list Message)
    (user_message : string) : string :=
  join_lines (context_parts history user_message).

(** *** [get_sessions] *)

(** A row of the result: [session_id], [MIN(created_at)],
    [MAX(created_at)], [COUNT( * )] and the content of the first turn of
    role [user], NULL when the session has none. *)
Record SessionRow : Type := {
  s_session_id : string;
  s_created_at : string;
  s_last_active : string;
  s_message_count : nat;
  s_first_message : option string
}.

(** [MIN] and [MAX] of two texts. *)
Definition min_text (a b : string) : string :=
  if String.leb a b then a else b.

Definition max_text (a b : string) : string :=
  if String.leb a b then b else a.

(** [MIN] and [MAX] over the texts of a group, which has a row. *)
Definition min_of (texts : list string) : string :=
  match texts with
  | [] => EmptyString
  | t :: ts => fold_left min_text ts t
  end.

Definition max_of (texts : list string) : string :=
  match texts with
  | [] => EmptyString
  | t :: ts => fold_left max_text ts t
  end.

(** The groups of [GROUP BY session_id]: every session of the table,
    once. *)
Fixpoint session_ids (turns : list Turn) : list string :=
  match turns with
  | [] => []
  | t :: rest =>
      turn_session_id t
      :: List.filter (fun s => negb (String.eqb s (turn_session_id t)))
           (session_ids rest)
  end.

(** The correlated subquery: [SELECT content ... WHERE c2.session_id =
    conversations.session_id AND c2.role = 'user' ORDER BY c2.created_at
    ASC LIMIT 1]. *)
Definition first_user_message (session_id : string) (turns : list Turn)
  : option string :=
  turn_content
  <$> head (order_by_created_at_asc
              (List.filter
                 (fun t => of_session session_id t
                           && Role_eqb (turn_role t) user)
                 turns)).

Definition summarise (turns : list Turn) (session_id : string) : SessionRow :=
  let group := List.filter (of_session session_id) turns in
  {| s_session_id := session_id;
     s_created_at := min_of (map turn_created_at group);
     s_last_active := max_of (map turn_created_at group);
     s_message_count := List.length group;
     s_first_message := first_user_message session_id turns |}.

(** [ORDER BY MAX(created_at) DESC]; the query does not order the
    sessions that tie, which here keep the order of their first turn. *)
Fixpoint insert_active (r : SessionRow) (sorted : list SessionRow)
  : list SessionRow :=
  match sorted with
  | [] => [r]
  | x :: xs =>
      if String.leb (s_last_active x) (s_last_active r)
      then r :: x :: xs
      else x :: insert_active r xs
  end.

Definition get_sessions (db : Db) : list SessionRow * Db :=
  (fold_right insert_active []
     (map (summarise (conversations db)) (session_ids (conversations db))),
   db).

(** [MAX(created_at)] descending, as a relation between consecutive rows. *)
Definition active_later_or_equal (a b : SessionRow) : Prop :=
  String.leb (s_last_active b) (s_last_active a) = true.

End Service.

(** ** More concrete inputs *)

Module Samples.

Import Store.


(** A database with one draft and two turns of session [s], and one turn
    of session [t]. *)
Definition db_clock (n : nat) : string :=
  "2024-01-01 00:00:0" +:+ Codec.encode_int (Z.of_nat n).

Definition empty_db : Sessions.Db :=
  {| Sessions.drafts := Examples.one_draft;
     Sessions.conversations := [];
     Sessions.last_turn_id := 0;
     Sessions.db_ticks := 0 |}.

Definition talk : Sessions.Db :=
  snd (Sessions.save_conversation_turn db_clock "t" "user" "hi"
         (snd (Sessions.save_conversation_turn db_clock "s" "assistant" "hello"
                 (snd (Sessions.save_conversation_turn db_clock "s" "user"
                         "a mouse" empty_db))))).

(** [capture(session_id="s", subject={"sex": "Male"})], and the same call
    with the section as JSON text. *)
Definition subject_call : Capture.Args :=
  {| Capture.session_id := Some "s";
     Capture.fields := [("subject", JDict [("sex", JStr "Male")])] |}.



End Samples.
(** * Properties *)

(** ** The codec *)

Module CodecFacts.

Import Codec.

(** *** Facts about text *)

Lemma app_cons (x : ascii) (a b : string) :
  String x a +:+ b = String x (a +:+ b).
Proof. reflexivity. Qed.

Lemma app_nil (b : string) : EmptyString +:+ b = b.
Proof. reflexivity. Qed.

Lemma app_assoc_s (a b c : string) : (a +:+ b) +:+ c = a +:+ (b +:+ c).
Proof.
  induction a as [|x a IH]; rewrite ?app_cons, ?app_nil;
    [reflexivity | now rewrite IH].
Qed.

Lemma app_empty_r (a : string) : a +:+ EmptyString = a.
Proof.
  induction a as [|x a IH]; rewrite ?app_cons, ?app_nil;
    [reflexivity | now rewrite IH].
Qed.

Lemma length_app_s (a b : string) :
  String.length (a +:+ b) = String.length a + String.length b.
Proof.
  induction a as [|x a IH]; rewrite ?app_cons, ?app_nil; simpl;
    [reflexivity | now rewrite IH].
Qed.

Lemma headc_app (a b : string) (c : ascii) :
  headc a = Some c -> headc (a +:+ b) = Some c.
Proof. destruct a; simpl; [discriminate | trivial]. Qed.

Lemma skip_ws_headc (s : string) (c : ascii) :
  headc s = Some c -> is_ws c = false -> skip_ws s = s.
Proof.
  destruct s as [|x r]; simpl; [discriminate|].
  intros [= ->] Hc. now rewrite Hc.
Qed.

Lemma strip_prefix_app (p r : string) : strip_prefix p (p +:+ r) = Some r.
Proof.
  induction p as [|a p IH]; rewrite ?app_cons; simpl; [reflexivity|].
  now rewrite Ascii.eqb_refl.
Qed.

(** *** Strings read back *)

Lemma scanstring_escape_char (c : ascii) (tail : string) :
  scanstring (escape_char c +:+ tail) = cons_char c (scanstring tail).
Proof. destruct c as [[] [] [] [] [] [] [] []]; reflexivity. Qed.

Lemma scanstring_escape (s rest : string) :
  scanstring (escape s +:+ String dquote rest) = Some (s, rest).
Proof.
  induction s as [|c s IH]; simpl.
  - reflexivity.
  - now rewrite app_assoc_s, scanstring_escape_char, IH.
Qed.

Lemma encode_str_app (s rest : string) :
  encode_str s +:+ rest = String dquote (escape s +:+ String dquote rest).
Proof. unfold encode_str. now rewrite app_cons, app_assoc_s, app_cons, app_nil. Qed.

(** *** Integers read back *)

Lemma scan_digits_string_of_uint (d : Decimal.uint) (rest : string) :
  stop rest -> scan_digits (string_of_uint d +:+ rest) = (d, rest).
Proof.
  intros Hrest.
  induction d; simpl; rewrite ?app_cons, ?app_nil; simpl;
    try (rewrite IHd; reflexivity).
  destruct rest as [|c r]; simpl; [reflexivity|].
  unfold stop, is_digit in Hrest.
  destruct (digit_of_char c); [discriminate | reflexivity].
Qed.

Lemma to_uint_unorm (p : positive) :
  Decimal.unorm (Pos.to_uint p) = Pos.to_uint p.
Proof.
  rewrite <- (DecimalPos.Unsigned.to_of (Pos.to_uint p)).
  now rewrite DecimalPos.Unsigned.of_to.
Qed.

Lemma to_uint_no_leading_zero (p : positive) (d : Decimal.uint) :
  Pos.to_uint p <> Decimal.D0 d.
Proof.
  intros E.
  pose proof (to_uint_unorm p) as U. rewrite E in U.
  rewrite DecimalFacts.unorm_D0 in U.
  assert (d = Decimal.Nil \/ d <> Decimal.Nil) as [-> | Hd]
    by (destruct d; auto; right; discriminate).
  - exact (DecimalPos.Unsigned.to_uint_nonzero p E).
  - pose proof (DecimalFacts.nb_digits_unorm d Hd) as L.
    rewrite U in L. simpl in L. lia.
Qed.

Lemma scan_nat_to_uint (p : positive) (rest : string) :
  stop rest ->
  scan_nat (string_of_uint (Pos.to_uint p) +:+ rest) = Some (Npos p, rest).
Proof.
  intros Hrest.
  pose proof (scan_digits_string_of_uint (Pos.to_uint p) rest Hrest) as Hs.
  pose proof (DecimalPos.Unsigned.of_to p) as Hof.
  pose proof (DecimalPos.Unsigned.to_uint_nonnil p) as Hnil.
  pose proof (to_uint_no_leading_zero p) as Hz.
  destruct (Pos.to_uint p) as [|d|d|d|d|d|d|d|d|d|d];
    [congruence | exfalso; exact (Hz d eq_refl) | ..];
    cbn [string_of_uint] in *; rewrite app_cons in *;
    unfold scan_nat; cbn [Ascii.eqb Bool.eqb is_digit digit_of_char];
    rewrite Hs, Hof; reflexivity.
Qed.

Lemma scan_int_encode (z : Z) (rest : string) :
  stop rest -> scan_int (encode_int z +:+ rest) = Some (z, rest).
Proof.
  intros Hrest. destruct z as [|p|p]; cbn [encode_int].
  - reflexivity.
  - pose proof (scan_nat_to_uint p rest Hrest) as Hn.
    pose proof (DecimalPos.Unsigned.to_uint_nonnil p) as Hnil.
    destruct (Pos.to_uint p) as [|d|d|d|d|d|d|d|d|d|d]; [congruence | ..];
      cbn [string_of_uint] in *; rewrite app_cons in *;
      unfold scan_int; cbn [Ascii.eqb Bool.eqb]; rewrite Hn; reflexivity.
  - rewrite app_cons. unfold scan_int. cbn [Ascii.eqb Bool.eqb].
    now rewrite (scan_nat_to_uint p rest Hrest).
Qed.

Lemma encode_int_head (z : Z) :
  exists c r, encode_int z = String c r /\ int_head c = true.
Proof.
  destruct z as [|p|p]; cbn [encode_int].
  - now exists "0"%char, EmptyString.
  - pose proof (DecimalPos.Unsigned.to_uint_nonnil p) as Hnil.
    destruct (Pos.to_uint p); [congruence | ..]; cbn [string_of_uint];
      eexists _, _; (split; [reflexivity | reflexivity]).
  - now eexists _, _.
Qed.

(** *** One step of each scanner *)

Lemma scan_once_number (f : nat) (c : ascii) (r : string) :
  int_head c = true ->
  scan_once (S f) (String c r)
  = match scan_int (String c r) with
    | Some (z, r') => Some (JInt z, r')
    | None => None
    end.
Proof.
  destruct c as [[] [] [] [] [] [] [] []]; try discriminate; reflexivity.
Qed.

Lemma scan_once_str (f : nat) (r : string) :
  scan_once (S f) (String dquote r)
  = match scanstring r with
    | Some (str, r') => Some (JStr str, r')
    | None => None
    end.
Proof. reflexivity. Qed.

Lemma scan_once_list (f : nat) (r : string) :
  scan_once (S f) (String "[" r)
  = match skip_ws r with
    | String c1 r1 =>
        if Ascii.eqb c1 "]" then Some (JList [], r1)
        else
          match scan_items f (String c1 r1) with
          | Some (vs, r') => Some (JList vs, r')
          | None => None
          end
    | EmptyString => None
    end.
Proof. reflexivity. Qed.

Lemma scan_once_dict (f : nat) (r : string) :
  scan_once (S f) (String "{" r)
  = match skip_ws r with
    | String c1 r1 =>
        if Ascii.eqb c1 "}" then Some (JDict [], r1)
        else
          match scan_pairs f (String c1 r1) with
          | Some (pairs, r') => Some (JDict (Dict.of_pairs pairs), r')
          | None => None
          end
    | EmptyString => None
    end.
Proof. reflexivity. Qed.

Lemma scan_items_S (f : nat) (s : string) :
  scan_items (S f) s
  = match scan_once f s with
    | Some (v, r) =>
        match skip_ws r with
        | String c r1 =>
            if Ascii.eqb c "]" then Some ([v], r1)
            else if Ascii.eqb c "," then
              match scan_items f (skip_ws r1) with
              | Some (vs, r') => Some (v :: vs, r')
              | None => None
              end
            else None
        | EmptyString => None
        end
    | None => None
    end.
Proof. reflexivity. Qed.

Lemma scan_pairs_S (f : nat) (r : string) :
  scan_pairs (S f) (String dquote r)
  = match scanstring r with
    | Some (key, r0) =>
        match skip_ws r0 with
        | String c r1 =>
            if Ascii.eqb c ":" then
              match scan_once f (skip_ws r1) with
              | Some (v, r2) =>
                  match skip_ws r2 with
                  | String c2 r3 =>
                      if Ascii.eqb c2 "}" then Some ([(key, v)], r3)
                      else if Ascii.eqb c2 "," then
                        match scan_pairs f (skip_ws r3) with
                        | Some (ps, r') => Some ((key, v) :: ps, r')
                        | None => None
                        end
                      else None
                  | EmptyString => None
                  end
              | None => None
              end
            else None
        | EmptyString => None
        end
    | None => None
    end.
Proof. reflexivity. Qed.

(** *** What an encoded value starts with *)

Lemma dumps_head (v : json) :
  exists c r, dumps v = String c r /\ value_head c = true.
Proof.
  destruct v as [|[]|z|s|l|d]; cbn [dumps]; rewrite ?app_cons;
    try (eexists _, _; split; reflexivity).
  destruct (encode_int_head z) as (c & r & -> & Hc).
  exists c, r. split; [reflexivity|].
  destruct c as [[] [] [] [] [] [] [] []]; try discriminate; reflexivity.
Qed.

Lemma value_head_ws (c : ascii) : value_head c = true -> is_ws c = false.
Proof.
  unfold value_head. destruct (is_ws c); [discriminate | reflexivity].
Qed.

Lemma join_cons2 (p q : string) (ps : list string) :
  join (p :: q :: ps) = p +:+ ", " +:+ join (q :: ps).
Proof. reflexivity. Qed.

(** *** Values read back *)

Lemma skip_ws_dumps (v : json) (rest : string) :
  skip_ws (dumps v +:+ rest) = dumps v +:+ rest.
Proof.
  destruct (dumps_head v) as (c & r & E & Hc).
  apply (skip_ws_headc _ c); [|now apply value_head_ws].
  apply headc_app. now rewrite E.
Qed.

Lemma scan_items_join (l : list json) :
  l <> [] -> Forall reads_back l ->
  forall (fuel : nat) (rest : string),
    String.length (join (map dumps l)) < fuel ->
    scan_items fuel (join (map dumps l) +:+ String "]" rest) = Some (l, rest).
Proof.
  induction l as [|v vs IH]; [congruence|].
  intros _ HF fuel rest Hlen.
  inversion HF as [|? ? Hv Hvs]; subst.
  destruct fuel as [|f]; [lia|].
  rewrite scan_items_S.
  destruct vs as [|v' vs'].
  - cbn [map join] in *.
    rewrite (Hv f (String "]" rest)); [reflexivity | lia | reflexivity].
  - cbn [map] in *. rewrite join_cons2 in *.
    rewrite !length_app_s in Hlen. cbn [String.length] in Hlen.
    rewrite !app_assoc_s, !app_cons, app_nil.
    rewrite (Hv f); [| lia | reflexivity].
    cbn [skip_ws is_ws Ascii.eqb Bool.eqb orb ch_tab ch_newline ch_return].
    change (dumps v' :: map dumps vs') with (map dumps (v' :: vs')).
    assert (Hskip : forall t, skip_ws (join (map dumps (v' :: vs')) +:+ t)
                              = join (map dumps (v' :: vs')) +:+ t).
    { intros t. destruct (dumps_head v') as (c & r & E & Hc).
      apply (skip_ws_headc _ c); [|now apply value_head_ws].
      apply headc_app. cbn [map]. destruct vs'; cbn [map join];
        [| rewrite E, app_cons]; now rewrite ?E. }
    rewrite Hskip, IH; [reflexivity | discriminate | assumption | ].
    cbn [map]. lia.
Qed.

Lemma encode_pair_app (kv : string * json) (tail : string) :
  encode_pair kv +:+ tail
  = String dquote
      (escape (fst kv)
         +:+ String dquote (String ":" (String " " (dumps (snd kv) +:+ tail)))).
Proof.
  unfold encode_pair.
  now rewrite app_assoc_s, encode_str_app, app_assoc_s, !app_cons, app_nil.
Qed.

Lemma length_encode_pair (kv : string * json) :
  String.length (dumps (snd kv)) + 4 <= String.length (encode_pair kv).
Proof.
  unfold encode_pair, encode_str.
  rewrite !length_app_s. cbn [String.length].
  rewrite !length_app_s. cbn [String.length]. lia.
Qed.

Lemma scan_pairs_join (d : list (string * json)) :
  d <> [] -> Forall (fun kv => reads_back (snd kv)) d ->
  forall (fuel : nat) (rest : string),
    String.length (join (map encode_pair d)) < fuel ->
    scan_pairs fuel (join (map encode_pair d) +:+ String "}" rest)
    = Some (d, rest).
Proof.
  induction d as [|[k v] kvs IH]; [congruence|].
  intros _ HF fuel rest Hlen.
  inversion HF as [|? ? Hv Hvs]; subst. cbn [snd] in Hv.
  destruct fuel as [|f]; [lia|].
  pose proof (length_encode_pair (k, v)) as Hk. cbn [snd] in Hk.
  destruct kvs as [|kv' kvs'].
  - cbn [map join] in *.
    rewrite encode_pair_app, scan_pairs_S, scanstring_escape. cbn [fst snd].
    cbn [skip_ws is_ws Ascii.eqb Bool.eqb orb ch_tab ch_newline ch_return].
    rewrite skip_ws_dumps, (Hv f); [reflexivity | lia | reflexivity].
  - cbn [map] in *. rewrite join_cons2 in *.
    rewrite !length_app_s in Hlen. cbn [String.length] in Hlen.
    rewrite app_assoc_s, encode_pair_app, scan_pairs_S, scanstring_escape.
    cbn [fst snd].
    cbn [skip_ws is_ws Ascii.eqb Bool.eqb orb ch_tab ch_newline ch_return].
    rewrite skip_ws_dumps, !app_assoc_s, !app_cons, app_nil.
    rewrite (Hv f); [| lia | reflexivity].
    cbn [skip_ws is_ws Ascii.eqb Bool.eqb orb ch_tab ch_newline ch_return].
    change (encode_pair kv' :: map encode_pair kvs')
      with (map encode_pair (kv' :: kvs')).
    assert (Hskip : forall t,
               skip_ws (join (map encode_pair (kv' :: kvs')) +:+ t)
               = join (map encode_pair (kv' :: kvs')) +:+ t).
    { intros t. apply (skip_ws_headc _ dquote); [|reflexivity].
      apply headc_app. cbn [map]. destruct kvs'; cbn [map join];
        unfold encode_pair, encode_str; now rewrite !app_cons. }
    rewrite Hskip, IH; [reflexivity | discriminate | assumption | ].
    cbn [map]. lia.
Qed.

(** *** [dict(pairs)] of distinct keys *)

Lemma set_fresh {A} (k : string) (v : A) (acc : Dict.t A) :
  existsb (String.eqb k) (map fst acc) = false ->
  Dict.set k v acc = acc ++ [(k, v)].
Proof.
  induction acc as [|[k' v'] acc IH]; cbn [map fst existsb Dict.set app];
    [reflexivity|].
  intros H. apply orb_false_iff in H as [Hk Hrest].
  rewrite Hk. now rewrite IH.
Qed.

Lemma existsb_app_false (k : string) (xs ys : list string) :
  existsb (String.eqb k) (xs ++ ys) = false <->
  existsb (String.eqb k) xs = false /\ existsb (String.eqb k) ys = false.
Proof. rewrite existsb_app. apply orb_false_iff. Qed.

Lemma distinct_middle (xs ys : list string) (k : string) :
  distinct (xs ++ k :: ys) = true ->
  existsb (String.eqb k) xs = false /\ distinct ((xs ++ [k]) ++ ys) = true.
Proof.
  induction xs as [|x xs IH]; cbn [app distinct existsb].
  - intros H. split; [reflexivity | exact H].
  - intros H. apply andb_true_iff in H as [Hx Hd].
    destruct (IH Hd) as [Hk Hd'].
    apply negb_true_iff, existsb_app_false in Hx as [Hx1 Hx2].
    cbn [existsb] in Hx2. apply orb_false_iff in Hx2 as [Hxk Hx2].
    split.
    + apply orb_false_iff. split; [|exact Hk].
      rewrite String.eqb_sym. exact Hxk.
    + apply andb_true_iff. split; [|exact Hd'].
      apply negb_true_iff. rewrite <- app_assoc.
      apply existsb_app_false. split; [exact Hx1|].
      cbn [app existsb]. now rewrite Hxk, Hx2.
Qed.

Lemma update_distinct {A} (e acc : Dict.t A) :
  distinct (map fst acc ++ map fst e) = true ->
  Dict.update acc e = acc ++ e.
Proof.
  revert acc. induction e as [|[k v] e IH]; intros acc H.
  - now rewrite app_nil_r.
  - cbn [map fst] in H. apply distinct_middle in H as [Hk Hd].
    unfold Dict.update in *. cbn [fold_left fst snd].
    rewrite (set_fresh k v acc Hk), IH.
    + now rewrite <- app_assoc.
    + rewrite map_app. exact Hd.
Qed.

Lemma of_pairs_distinct {A} (d : Dict.t A) :
  distinct (map fst d) = true -> Dict.of_pairs d = d.
Proof. intros H. unfold Dict.of_pairs. now rewrite update_distinct. Qed.

(** *** The round trip *)

Ltac norm_app :=
  repeat (rewrite app_assoc_s || rewrite app_cons || rewrite app_nil).

Lemma forallb_reads_back {A} (f : A -> json) (l : list A) :
  Forall (fun x => wf (f x) = true -> reads_back (f x)) l ->
  forallb (fun x => wf (f x)) l = true ->
  Forall (fun x => reads_back (f x)) l.
Proof.
  induction 1 as [|x l Hx Hl IH]; cbn [forallb]; intros H; constructor.
  - apply Hx. now apply andb_true_iff in H as [H _].
  - apply IH. now apply andb_true_iff in H as [_ H].
Qed.

Lemma wf_reads_back (v : json) : wf v = true -> reads_back v.
Proof.
  induction v as [| b | z | s | l IH | d IH] using json_nested_ind;
    intros Hwf fuel rest Hlen Hrest.
  - destruct fuel; [cbn in Hlen; lia | reflexivity].
  - destruct b; (destruct fuel; [cbn in Hlen; lia | reflexivity]).
  - destruct (encode_int_head z) as (c & r & E & Hc).
    cbn [dumps] in *. pose proof (scan_int_encode z rest Hrest) as Hs.
    rewrite E in *. rewrite app_cons in *.
    destruct fuel as [|f]; [cbn in Hlen; lia|].
    now rewrite (scan_once_number f c _ Hc), Hs.
  - destruct fuel as [|f]; [cbn in Hlen; lia|].
    cbn [dumps]. now rewrite encode_str_app, scan_once_str, scanstring_escape.
  - cbn [dumps] in *.
    rewrite !length_app_s in Hlen. cbn [String.length] in Hlen.
    destruct fuel as [|f]; [lia|].
    norm_app. rewrite scan_once_list.
    destruct l as [|v vs]; [reflexivity|].
    assert (Hall : Forall reads_back (v :: vs)).
    { apply (forallb_reads_back (fun x => x)); assumption. }
    destruct (dumps_head v) as (c & r & E & Hc).
    assert (Hh : headc (join (map dumps (v :: vs)) +:+ String "]" rest)
                 = Some c).
    { apply headc_app. cbn [map]. destruct vs; cbn [map join];
        [| rewrite E, app_cons]; now rewrite ?E. }
    rewrite (skip_ws_headc _ c Hh (value_head_ws c Hc)).
    pose proof (scan_items_join (v :: vs) ltac:(discriminate) Hall f rest
                  ltac:(lia)) as Hit.
    destruct (join (map dumps (v :: vs)) +:+ String "]" rest) as [|c1 r1];
      [discriminate|].
    cbn [headc] in Hh. injection Hh as ->.
    unfold value_head in Hc.
    destruct (Ascii.eqb c "]"); [now rewrite andb_false_r in Hc|].
    now rewrite Hit.
  - cbn [dumps] in *.
    change (fun kv : string * json => encode_str (fst kv) +:+ ": " +:+ dumps (snd kv))
      with encode_pair in *.
    rewrite !length_app_s in Hlen. cbn [String.length] in Hlen.
    destruct fuel as [|f]; [lia|].
    norm_app. rewrite scan_once_dict.
    cbn [wf] in Hwf. apply andb_true_iff in Hwf as [Hkeys Hwf].
    destruct d as [|kv kvs]; [reflexivity|].
    assert (Hall : Forall (fun kv => reads_back (snd kv)) (kv :: kvs)).
    { apply (forallb_reads_back snd); assumption. }
    assert (Hh : headc (join (map encode_pair (kv :: kvs)) +:+ String "}" rest)
                 = Some dquote).
    { apply headc_app. cbn [map]. destruct kvs; cbn [map join];
        unfold encode_pair, encode_str; now rewrite !app_cons. }
    rewrite (skip_ws_headc _ dquote Hh eq_refl).
    pose proof (scan_pairs_join (kv :: kvs) ltac:(discriminate) Hall f rest
                  ltac:(lia)) as Hit.
    destruct (join (map encode_pair (kv :: kvs)) +:+ String "}" rest)
      as [|c1 r1]; [discriminate|].
    cbn [headc] in Hh. injection Hh as ->.
    rewrite Hit. cbn [Ascii.eqb Bool.eqb dquote].
    now rewrite (of_pairs_distinct _ Hkeys).
Qed.

(** [json.loads(json.dumps(v)) == v] *)
Theorem loads_dumps (v : json) : wf v = true -> loads (dumps v) = Some v.
Proof.
  intros Hwf. unfold loads.
  pose proof (skip_ws_dumps v EmptyString) as Hs.
  pose proof (wf_reads_back v Hwf (S (String.length (dumps v))) EmptyString
                ltac:(lia) I) as Hr.
  rewrite app_empty_r in Hs, Hr. now rewrite Hs, Hr.
Qed.

(** The encoder never produces the empty text. *)
Lemma dumps_nonempty (v : json) : dumps v <> EmptyString.
Proof. destruct (dumps_head v) as (c & r & E & _). now rewrite E. Qed.

(** Nor does the decoder accept it. *)
Lemma loads_empty : loads EmptyString = None.
Proof. reflexivity. Qed.

(** *** What the decoder returns is a Python value *)

Lemma set_keys {A} (k : string) (v : A) (d : Dict.t A) :
  map fst (Dict.set k v d)
  = if existsb (String.eqb k) (map fst d) then map fst d
    else map fst d ++ [k].
Proof.
  induction d as [|[k' v'] d IH]; cbn [Dict.set map fst existsb app];
    [reflexivity|].
  destruct (String.eqb k k') eqn:E; cbn [orb map fst]; [reflexivity|].
  rewrite IH. now destruct (existsb _ _).
Qed.

Lemma distinct_snoc (ks : list string) (k : string) :
  distinct ks = true -> existsb (String.eqb k) ks = false ->
  distinct (ks ++ [k]) = true.
Proof.
  induction ks as [|x ks IH]; cbn [app distinct existsb]; [reflexivity|].
  intros Hd Hk. apply andb_true_iff in Hd as [Hx Hd].
  apply orb_false_iff in Hk as [Hkx Hk].
  apply andb_true_iff. split; [|now apply IH].
  apply negb_true_iff. rewrite existsb_app. apply orb_false_iff.
  split; [now apply negb_true_iff in Hx|].
  cbn [existsb]. rewrite String.eqb_sym, Hkx. reflexivity.
Qed.

Lemma set_distinct {A} (k : string) (v : A) (d : Dict.t A) :
  distinct (map fst d) = true -> distinct (map fst (Dict.set k v d)) = true.
Proof.
  intros Hd. rewrite set_keys.
  destruct (existsb _ _) eqn:E; [exact Hd | now apply distinct_snoc].
Qed.

Lemma set_forallb {A} (P : A -> bool) (k : string) (v : A) (d : Dict.t A) :
  forallb (fun kv => P (snd kv)) d = true -> P v = true ->
  forallb (fun kv => P (snd kv)) (Dict.set k v d) = true.
Proof.
  intros Hd Hv. induction d as [|[k' v'] d IH]; cbn [Dict.set forallb snd] in *.
  - now rewrite Hv.
  - apply andb_true_iff in Hd as [H1 H2].
    destruct (String.eqb k k'); cbn [forallb snd].
    + now rewrite Hv, H2.
    + now rewrite H1, IH.
Qed.

Lemma update_wf (e acc : Dict.t json) :
  wf (JDict acc) = true ->
  forallb (fun kv => wf (snd kv)) e = true ->
  wf (JDict (Dict.update acc e)) = true.
Proof.
  revert acc. induction e as [|[k v] e IH]; intros acc Hacc He; [exact Hacc|].
  cbn [forallb snd] in He. apply andb_true_iff in He as [Hv He].
  unfold Dict.update. cbn [fold_left fst snd]. apply IH; [|exact He].
  cbn [wf] in *. apply andb_true_iff in Hacc as [H1 H2].
  apply andb_true_iff. split; [now apply set_distinct | now apply set_forallb].
Qed.

Lemma merge_wf (d e : Dict.t json) :
  wf (JDict d) = true -> wf (JDict e) = true ->
  wf (JDict (Dict.merge d e)) = true.
Proof.
  intros Hd He. apply update_wf; [exact Hd|].
  cbn [wf] in He. now apply andb_true_iff in He as [_ He].
Qed.

Lemma scan_once_S (f : nat) (c : ascii) (r : string) :
  scan_once (S f) (String c r)
  = if Ascii.eqb c dquote then
      match scanstring r with
      | Some (str, r') => Some (JStr str, r')
      | None => None
      end
    else if Ascii.eqb c "{" then
      match skip_ws r with
      | String c1 r1 =>
          if Ascii.eqb c1 "}" then Some (JDict [], r1)
          else
            match scan_pairs f (String c1 r1) with
            | Some (pairs, r') => Some (JDict (Dict.of_pairs pairs), r')
            | None => None
            end
      | EmptyString => None
      end
    else if Ascii.eqb c "[" then
      match skip_ws r with
      | String c1 r1 =>
          if Ascii.eqb c1 "]" then Some (JList [], r1)
          else
            match scan_items f (String c1 r1) with
            | Some (vs, r') => Some (JList vs, r')
            | None => None
            end
      | EmptyString => None
      end
    else
      match strip_prefix "null" (String c r) with
      | Some r' => Some (JNull, r')
      | None =>
      match strip_prefix "true" (String c r) with
      | Some r' => Some (JBool true, r')
      | None =>
      match strip_prefix "false" (String c r) with
      | Some r' => Some (JBool false, r')
      | None =>
      match scan_int (String c r) with
      | Some (z, r') => Some (JInt z, r')
      | None => None
      end end end end.
Proof. reflexivity. Qed.

Lemma scan_pairs_S' (f : nat) (q : ascii) (r : string) :
  scan_pairs (S f) (String q r)
  = if Ascii.eqb q dquote then scan_pairs (S f) (String dquote r) else None.
Proof.
  destruct (Ascii.eqb q dquote) eqn:E; [|cbn; now rewrite E].
  apply Ascii.eqb_eq in E. now subst.
Qed.

Ltac split_scan H :=
  repeat match type of H with
         | context [if ?b then _ else _] => destruct b eqn:?
         | context [match ?x with _ => _ end] => destruct x eqn:?
         end;
  try discriminate H.

Lemma scan_wf (fuel : nat) :
  (forall s v r, scan_once fuel s = Some (v, r) -> wf v = true)
  /\ (forall s vs r, scan_items fuel s = Some (vs, r) -> forallb wf vs = true)
  /\ (forall s ps r, scan_pairs fuel s = Some (ps, r) ->
        forallb (fun kv => wf (snd kv)) ps = true).
Proof.
  induction fuel as [|f (IHo & IHi & IHp)]; [repeat split; discriminate|].
  split; [|split].
  - intros [|c r0] v r H; [discriminate|].
    rewrite scan_once_S in H. split_scan H;
      injection H as <- <-; try reflexivity.
    + apply (update_wf _ []); [reflexivity | eauto].
    + cbn [wf]. eauto.
  - intros s vs r H. rewrite scan_items_S in H. split_scan H;
      injection H as <- <-; cbn [forallb].
    + erewrite IHo by eauto. reflexivity.
    + erewrite IHo, IHi by eauto. reflexivity.
  - intros [|q r0] ps r H; [discriminate|].
    rewrite scan_pairs_S' in H.
    destruct (Ascii.eqb q dquote); [|discriminate].
    rewrite scan_pairs_S in H. split_scan H;
      injection H as <- <-; cbn [forallb snd].
    + erewrite IHo by eauto. reflexivity.
    + erewrite IHo, IHp by eauto. reflexivity.
Qed.

(** [json.loads] returns dicts, not arbitrary association lists. *)
Theorem loads_wf (s : string) (v : json) : loads s = Some v -> wf v = true.
Proof.
  unfold loads. intros H.
  destruct (scan_once _ _) as [[v' r]|] eqn:E; [|discriminate].
  destruct (skip_ws r); [|discriminate].
  injection H as <-. exact (proj1 (scan_wf _) _ _ _ E).
Qed.

(** *** The fuel of [loads] is enough

    Whatever a scanner returns with some fuel, it returns with the fuel
    that [loads] gives it: the fuel bounds the recursion, it does not
    change what is accepted. *)

Lemma skip_ws_length (s : string) :
  String.length (skip_ws s) <= String.length s.
Proof.
  induction s as [|c s IH]; cbn [skip_ws]; [lia|].
  destruct (is_ws c); cbn [String.length] in *; lia.
Qed.

Lemma cons_char_Some (c : ascii) (o : option (string * string))
    (x r : string) :
  cons_char c o = Some (x, r) -> exists x', o = Some (x', r).
Proof.
  destruct o as [[x' r']|]; cbn [cons_char]; [|discriminate].
  intros [= <- <-]. now exists x'.
Qed.

Lemma scanstring_length (n : nat) (s x r : string) :
  String.length s <= n ->
  scanstring s = Some (x, r) -> String.length r < String.length s.
Proof.
  revert s x r. induction n as [|n IH]; intros [|c s] x r Hn H;
    try discriminate H; cbn [String.length] in *; [lia|].
  cbn [scanstring] in H.
  destruct (Ascii.eqb c dquote).
  { injection H as <- <-. lia. }
  destruct (Ascii.eqb c backslash).
  - destruct s as [|e r1]; [discriminate|].
    destruct (Ascii.eqb e "u").
    + destruct r1 as [|h1 [|h2 [|h3 [|h4 r2]]]]; try discriminate.
      destruct (hex_val h1), (hex_val h2), (hex_val h3), (hex_val h4);
        try discriminate.
      destruct (_ && _); [|discriminate].
      apply cons_char_Some in H as [x' H].
      cbn [String.length] in *.
      apply IH in H; lia.
    + destruct (unescape e); [|discriminate].
      apply cons_char_Some in H as [x' H].
      cbn [String.length] in *.
      apply IH in H; lia.
  - destruct (_ <? _)%N; [discriminate|].
    apply cons_char_Some in H as [x' H].
    apply IH in H; lia.
Qed.

Lemma scan_digits_length (s : string) :
  String.length (snd (scan_digits s)) <= String.length s.
Proof.
  induction s as [|c s IH]; cbn [scan_digits]; [cbn; lia|].
  destruct (digit_of_char c); [|cbn; lia].
  destruct (scan_digits s) as [d r']. cbn [snd String.length] in *. lia.
Qed.

Lemma scan_nat_length (s : string) (n : N) (r : string) :
  scan_nat s = Some (n, r) -> String.length r < String.length s.
Proof.
  destruct s as [|c s]; [discriminate|]. unfold scan_nat.
  destruct (Ascii.eqb c "0").
  { intros [= <- <-]. cbn. lia. }
  destruct (is_digit c) eqn:Hd; [|discriminate].
  pose proof (scan_digits_length (String c s)) as Hl.
  revert Hl. cbn [scan_digits]. unfold is_digit in Hd.
  destruct (digit_of_char c); [|discriminate].
  pose proof (scan_digits_length s) as Hs.
  destruct (scan_digits s) as [d r']. cbn [snd String.length] in *.
  intros _ [= <- <-]. lia.
Qed.

Lemma scan_int_length (s : string) (z : Z) (r : string) :
  scan_int s = Some (z, r) -> String.length r < String.length s.
Proof.
  destruct s as [|c s]; [discriminate|]. unfold scan_int.
  destruct (Ascii.eqb c "-").
  - destruct (scan_nat s) as [[n r']|] eqn:E; [|discriminate].
    intros [= <- <-]. apply scan_nat_length in E. cbn. lia.
  - destruct (scan_nat (String c s)) as [[n r']|] eqn:E; [|discriminate].
    intros [= <- <-]. by apply scan_nat_length in E.
Qed.

Lemma strip_prefix_length (p s r : string) :
  strip_prefix p s = Some r ->
  String.length r + String.length p = String.length s.
Proof.
  revert s. induction p as [|a p IH]; intros s; cbn [strip_prefix].
  - intros [= <-]. cbn. lia.
  - destruct s as [|b s]; [discriminate|].
    destruct (Ascii.eqb a b); [|discriminate].
    intros H. apply IH in H. cbn. lia.
Qed.

(** More fuel changes nothing. *)
Lemma scan_more_fuel (f : nat) :
  (forall s x, scan_once f s = Some x -> scan_once (S f) s = Some x)
  /\ (forall s x, scan_items f s = Some x -> scan_items (S f) s = Some x)
  /\ (forall s x, scan_pairs f s = Some x -> scan_pairs (S f) s = Some x).
Proof.
  induction f as [|f (IHo & IHi & IHp)]; [repeat split; discriminate|].
  split; [|split].
  - intros [|c r0] x H; [discriminate|].
    rewrite scan_once_S in H. rewrite scan_once_S.
    destruct (Ascii.eqb c dquote); [exact H|].
    destruct (Ascii.eqb c "{").
    { destruct (skip_ws r0) as [|c1 r1]; [discriminate|].
      destruct (Ascii.eqb c1 "}"); [exact H|].
      destruct (scan_pairs f (String c1 r1)) as [[ps r']|] eqn:E;
        [|discriminate].
      by rewrite (IHp _ _ E). }
    destruct (Ascii.eqb c "[").
    { destruct (skip_ws r0) as [|c1 r1]; [discriminate|].
      destruct (Ascii.eqb c1 "]"); [exact H|].
      destruct (scan_items f (String c1 r1)) as [[vs r']|] eqn:E;
        [|discriminate].
      by rewrite (IHi _ _ E). }
    exact H.
  - intros s x H. rewrite scan_items_S in H. rewrite scan_items_S.
    destruct (scan_once f s) as [[v r]|] eqn:E; [|discriminate].
    rewrite (IHo _ _ E).
    destruct (skip_ws r) as [|c r1]; [discriminate|].
    destruct (Ascii.eqb c "]"); [exact H|].
    destruct (Ascii.eqb c ","); [|discriminate].
    destruct (scan_items f (skip_ws r1)) as [[vs r']|] eqn:E1; [|discriminate].
    by rewrite (IHi _ _ E1).
  - intros [|q r0] x H; [discriminate|].
    rewrite scan_pairs_S' in H. rewrite scan_pairs_S'.
    destruct (Ascii.eqb q dquote); [|discriminate].
    rewrite scan_pairs_S in H. rewrite scan_pairs_S.
    destruct (scanstring r0) as [[key r1]|]; [|discriminate].
    destruct (skip_ws r1) as [|c r2]; [discriminate|].
    destruct (Ascii.eqb c ":"); [|discriminate].
    destruct (scan_once f (skip_ws r2)) as [[v r3]|] eqn:E; [|discriminate].
    rewrite (IHo _ _ E).
    destruct (skip_ws r3) as [|c2 r4]; [discriminate|].
    destruct (Ascii.eqb c2 "}"); [exact H|].
    destruct (Ascii.eqb c2 ","); [|discriminate].
    destruct (scan_pairs f (skip_ws r4)) as [[ps r']|] eqn:E1; [|discriminate].
    by rewrite (IHp _ _ E1).
Qed.

Lemma scan_fuel_le (f f' : nat) :
  f <= f' ->
  (forall s x, scan_once f s = Some x -> scan_once f' s = Some x)
  /\ (forall s x, scan_items f s = Some x -> scan_items f' s = Some x)
  /\ (forall s x, scan_pairs f s = Some x -> scan_pairs f' s = Some x).
Proof.
  induction 1 as [|f' _ (IHo & IHi & IHp)]; [by repeat split|].
  destruct (scan_more_fuel f') as (Ho & Hi & Hp).
  repeat split; intros s x H; auto.
Qed.

Lemma scan_once_le (f : nat) (s : string) (x : json * string) (f' : nat) :
  scan_once f s = Some x -> f <= f' -> scan_once f' s = Some x.
Proof. intros H Hle. exact (proj1 (scan_fuel_le f f' Hle) s x H). Qed.

Lemma scan_items_le (f : nat) (s : string) (x : list json * string)
    (f' : nat) :
  scan_items f s = Some x -> f <= f' -> scan_items f' s = Some x.
Proof. intros H Hle. exact (proj1 (proj2 (scan_fuel_le f f' Hle)) s x H). Qed.

Lemma scan_pairs_le (f : nat) (s : string)
    (x : list (string * json) * string) (f' : nat) :
  scan_pairs f s = Some x -> f <= f' -> scan_pairs f' s = Some x.
Proof. intros H Hle. exact (proj2 (proj2 (scan_fuel_le f f' Hle)) s x H). Qed.

(** What a scanner returns, it returns with as much fuel as it consumed
    characters. *)
Lemma scan_bound (f : nat) :
  (forall s v r, scan_once f s = Some (v, r) ->
     String.length r < String.length s
     /\ scan_once (String.length s - String.length r) s = Some (v, r))
  /\ (forall s vs r, scan_items f s = Some (vs, r) ->
        String.length r < String.length s
        /\ scan_items (String.length s - String.length r) s = Some (vs, r))
  /\ (forall s ps r, scan_pairs f s = Some (ps, r) ->
        String.length r < String.length s
        /\ scan_pairs (String.length s - String.length r) s = Some (ps, r)).
Proof.
  induction f as [|f (IHo & IHi & IHp)]; [repeat split; discriminate|].
  split; [|split].
  - intros [|c r0] v r H; [discriminate|].
    rewrite scan_once_S in H. cbn [String.length].
    destruct (Ascii.eqb c dquote) eqn:E1.
    { destruct (scanstring r0) as [[str r']|] eqn:E; [|discriminate].
      injection H as <- <-.
      pose proof (scanstring_length _ _ _ _ (le_n _) E) as Hl.
      split; [lia|].
      replace (S (String.length r0) - String.length r')
        with (S (String.length r0 - String.length r')) by lia.
      by rewrite scan_once_S, E1, E. }
    destruct (Ascii.eqb c "{") eqn:E2.
    { pose proof (skip_ws_length r0) as Hw.
      destruct (skip_ws r0) as [|c1 r1] eqn:Ew; [discriminate|].
      cbn [String.length] in Hw.
      destruct (Ascii.eqb c1 "}") eqn:E3.
      { injection H as <- <-. split; [lia|].
        replace (S (String.length r0) - String.length r1)
          with (S (String.length r0 - String.length r1)) by lia.
        by rewrite scan_once_S, E1, E2, Ew, E3. }
      destruct (scan_pairs f (String c1 r1)) as [[ps r']|] eqn:E;
        [|discriminate].
      injection H as <- <-.
      destruct (IHp _ _ _ E) as [Hl Hs]. cbn [String.length] in Hl, Hs.
      split; [lia|].
      replace (S (String.length r0) - String.length r')
        with (S (String.length r0 - String.length r')) by lia.
      rewrite scan_once_S, E1, E2, Ew, E3.
      rewrite (scan_pairs_le _ _ _
        (String.length r0 - String.length r') Hs) by lia.
      reflexivity. }
    destruct (Ascii.eqb c "[") eqn:E3.
    { pose proof (skip_ws_length r0) as Hw.
      destruct (skip_ws r0) as [|c1 r1] eqn:Ew; [discriminate|].
      cbn [String.length] in Hw.
      destruct (Ascii.eqb c1 "]") eqn:E4.
      { injection H as <- <-. split; [lia|].
        replace (S (String.length r0) - String.length r1)
          with (S (String.length r0 - String.length r1)) by lia.
        by rewrite scan_once_S, E1, E2, E3, Ew, E4. }
      destruct (scan_items f (String c1 r1)) as [[vs r']|] eqn:E;
        [|discriminate].
      injection H as <- <-.
      destruct (IHi _ _ _ E) as [Hl Hs]. cbn [String.length] in Hl, Hs.
      split; [lia|].
      replace (S (String.length r0) - String.length r')
        with (S (String.length r0 - String.length r')) by lia.
      rewrite scan_once_S, E1, E2, E3, Ew, E4.
      rewrite (scan_items_le _ _ _
        (String.length r0 - String.length r') Hs) by lia.
      reflexivity. }
    assert (Hl : String.length r < S (String.length r0)).
    { destruct (strip_prefix "null" (String c r0)) as [r'|] eqn:P1.
      { injection H as <- <-. apply strip_prefix_length in P1. cbn in P1. lia. }
      destruct (strip_prefix "true" (String c r0)) as [r'|] eqn:P2.
      { injection H as <- <-. apply strip_prefix_length in P2. cbn in P2. lia. }
      destruct (strip_prefix "false" (String c r0)) as [r'|] eqn:P3.
      { injection H as <- <-. apply strip_prefix_length in P3. cbn in P3. lia. }
      destruct (scan_int (String c r0)) as [[z r']|] eqn:P4; [|discriminate].
      injection H as <- <-. apply scan_int_length in P4. cbn in P4. lia. }
    split; [exact Hl|].
    replace (S (String.length r0) - String.length r)
      with (S (String.length r0 - String.length r)) by lia.
    by rewrite scan_once_S, E1, E2, E3.
  - intros s vs r H. rewrite scan_items_S in H.
    destruct (scan_once f s) as [[v r1]|] eqn:E; [|discriminate].
    destruct (IHo _ _ _ E) as [Hl1 Hs1].
    pose proof (skip_ws_length r1) as Hw.
    destruct (skip_ws r1) as [|c r2] eqn:Ew; [discriminate|].
    cbn [String.length] in Hw.
    destruct (Ascii.eqb c "]") eqn:E1.
    { injection H as <- <-. split; [lia|].
      replace (String.length s - String.length r2)
        with (S (String.length s - String.length r2 - 1)) by lia.
      rewrite scan_items_S.
      rewrite (scan_once_le _ _ _
        (String.length s - String.length r2 - 1) Hs1) by lia.
      by rewrite Ew, E1. }
    destruct (Ascii.eqb c ",") eqn:E2; [|discriminate].
    destruct (scan_items f (skip_ws r2)) as [[vs' r']|] eqn:E3; [|discriminate].
    injection H as <- <-.
    destruct (IHi _ _ _ E3) as [Hl2 Hs2].
    pose proof (skip_ws_length r2) as Hw2.
    split; [lia|].
    replace (String.length s - String.length r')
      with (S (String.length s - String.length r' - 1)) by lia.
    rewrite scan_items_S.
    rewrite (scan_once_le _ _ _
        (String.length s - String.length r' - 1) Hs1) by lia.
    rewrite Ew, E1, E2.
    rewrite (scan_items_le _ _ _
        (String.length s - String.length r' - 1) Hs2) by lia.
      reflexivity.
  - intros [|q r0] ps r H; [discriminate|].
    rewrite scan_pairs_S' in H.
    destruct (Ascii.eqb q dquote) eqn:Eq; [|discriminate].
    apply Ascii.eqb_eq in Eq as ->.
    rewrite scan_pairs_S in H. cbn [String.length].
    destruct (scanstring r0) as [[key r1]|] eqn:Ek; [|discriminate].
    pose proof (scanstring_length _ _ _ _ (le_n _) Ek) as Hk.
    pose proof (skip_ws_length r1) as Hw1.
    destruct (skip_ws r1) as [|c r2] eqn:Ew1; [discriminate|].
    cbn [String.length] in Hw1.
    destruct (Ascii.eqb c ":") eqn:E1; [|discriminate].
    destruct (scan_once f (skip_ws r2)) as [[v r3]|] eqn:E; [|discriminate].
    destruct (IHo _ _ _ E) as [Hl1 Hs1].
    pose proof (skip_ws_length r2) as Hw2.
    pose proof (skip_ws_length r3) as Hw3.
    destruct (skip_ws r3) as [|c2 r4] eqn:Ew3; [discriminate|].
    cbn [String.length] in Hw3.
    destruct (Ascii.eqb c2 "}") eqn:E2.
    { injection H as <- <-. split; [lia|].
      replace (S (String.length r0) - String.length r4)
        with (S (String.length r0 - String.length r4)) by lia.
      rewrite scan_pairs_S, Ek, Ew1, E1.
      rewrite (scan_once_le _ _ _
        (String.length r0 - String.length r4) Hs1) by lia.
      by rewrite Ew3, E2. }
    destruct (Ascii.eqb c2 ",") eqn:E3; [|discriminate].
    destruct (scan_pairs f (skip_ws r4)) as [[ps' r']|] eqn:E4; [|discriminate].
    injection H as <- <-.
    destruct (IHp _ _ _ E4) as [Hl2 Hs2].
    pose proof (skip_ws_length r4) as Hw4.
    split; [lia|].
    replace (S (String.length r0) - String.length r')
      with (S (String.length r0 - String.length r')) by lia.
    rewrite scan_pairs_S, Ek, Ew1, E1.
    rewrite (scan_once_le _ _ _
        (String.length r0 - String.length r') Hs1) by lia.
    rewrite Ew3, E2, E3.
    rewrite (scan_pairs_le _ _ _
        (String.length r0 - String.length r') Hs2) by lia.
      reflexivity.
Qed.

(** [loads] accepts whatever a scan with any fuel accepts. *)
Theorem loads_any_fuel (f : nat) (s r : string) (v : json) :
  scan_once f (skip_ws s) = Some (v, r) ->
  skip_ws r = EmptyString ->
  loads s = Some v.
Proof.
  intros H Hr. unfold loads.
  destruct (proj1 (scan_bound f) _ _ _ H) as [Hl Hs].
  pose proof (skip_ws_length s) as Hw.
  rewrite (scan_once_le _ _ _ (S (String.length s)) Hs) by lia.
  by rewrite Hr.
Qed.

End CodecFacts.

(** ** The draft record store *)

Module StoreFacts.

Import Store.

(** *** Decoding a row *)

Lemma NoDup_METADATA_FIELDS : NoDup METADATA_FIELDS.
Proof. apply (bool_decide_unpack _). by vm_compute. Qed.

Lemma decode_field_lookup (d : gmap string json) (f c : string) :
  decode_field d f !! c
  = if decide (c = f) then decode_value (d !! c) else d !! c.
Proof.
  unfold decode_field, decode_value.
  destruct (decide (c = f)) as [-> | Hne].
  - destruct (d !! f) as [[| | | text | |]|] eqn:E; try done.
    destruct (truthy (JStr text)); [|done].
    destruct (Codec.loads text); [|done].
    by rewrite lookup_insert_eq.
  - destruct (d !! f) as [[| | | text | |]|] eqn:E; try done.
    destruct (truthy (JStr text)); [|done].
    destruct (Codec.loads text); [|done].
    by rewrite lookup_insert_ne.
Qed.

Lemma fold_decode_lookup (fs : list string) (d : gmap string json) (c : string) :
  NoDup fs ->
  fold_left decode_field fs d !! c
  = if decide (c ∈ fs) then decode_value (d !! c) else d !! c.
Proof.
  revert d. induction fs as [|f fs IH]; intros d Hnd; cbn [fold_left].
  - rewrite decide_False; [done | apply not_elem_of_nil].
  - apply NoDup_cons in Hnd as [Hf Hnd].
    rewrite (IH _ Hnd), decode_field_lookup.
    destruct (decide (c = f)) as [-> | Hne].
    + rewrite (decide_False (P := f ∈ fs)) by done.
      by rewrite decide_True by (apply elem_of_cons; auto).
    + destruct (decide (c ∈ fs)) as [Hin | Hnin].
      * by rewrite decide_True by (apply elem_of_cons; auto).
      * rewrite decide_False; [done|].
        intros [?|?]%elem_of_cons; auto.
Qed.

Lemma decode_value_text (text : string) :
  decode_value (Some (JStr text)) = Some (read_back text).
Proof.
  unfold decode_value, read_back, truthy.
  destruct (String.eqb_spec text EmptyString) as [-> | Hne]; cbn [negb].
  - by rewrite CodecFacts.loads_empty.
  - by destruct (Codec.loads text).
Qed.

(** Each of the ten JSON columns of a row reads back on its own. *)
Lemma row_to_dict_lookup (r : Row) (c : string) :
  c ∈ METADATA_FIELDS \/ c = "validation_results_json" ->
  d_json (_row_to_dict r) !! c = read_back <$> (row_json r !! c).
Proof.
  intros Hc. unfold _row_to_dict. cbn [d_json].
  rewrite decode_field_lookup, (fold_decode_lookup _ _ _ NoDup_METADATA_FIELDS).
  rewrite lookup_fmap.
  assert (Hv : "validation_results_json" ∉ METADATA_FIELDS)
    by (apply (bool_decide_unpack _); by vm_compute).
  destruct Hc as [Hc | ->].
  - rewrite (decide_False (P := c = _)) by (intros ->; done).
    rewrite decide_True by done.
    destruct (row_json r !! c); cbn; [apply decode_value_text | done].
  - rewrite decide_True by done. rewrite decide_False by done.
    destruct (row_json r !! _); cbn; [apply decode_value_text | done].
Qed.

(** *** Ordering and selection *)

Lemma leb_trans (a b c : string) :
  String.leb a b = true -> String.leb b c = true -> String.leb a c = true.
Proof.
  intros Hab Hbc. apply Is_true_true.
  apply Is_true_true in Hab, Hbc.
  exact (transitivity (R := String.le) Hab Hbc).
Qed.

Lemma insert_desc_perm (r : Row) (l : list Row) :
  Permutation (insert_desc r l) (r :: l).
Proof.
  induction l as [|x xs IH]; cbn [insert_desc]; [done|].
  destruct (String.leb _ _); [done|].
  rewrite IH. apply perm_swap.
Qed.

Lemma order_perm (l : list Row) : Permutation (order_by_created_at_desc l) l.
Proof.
  induction l as [|x xs IH]; cbn [order_by_created_at_desc fold_right]; [done|].
  fold (order_by_created_at_desc xs). rewrite insert_desc_perm. by constructor.
Qed.

Lemma insert_desc_sorted (r : Row) (l : list Row) :
  StronglySorted newer_or_equal l ->
  StronglySorted newer_or_equal (insert_desc r l).
Proof.
  induction 1 as [|x xs Hs IH Hx]; cbn [insert_desc].
  - repeat constructor.
  - destruct (String.leb (row_created_at x) (row_created_at r)) eqn:E.
    + constructor; [by constructor|].
      constructor; [exact E|].
      eapply Forall_impl; [exact Hx|].
      intros y Hy. unfold newer_or_equal in *. by eapply leb_trans.
    + constructor; [exact IH|].
      apply (Permutation_Forall (Permutation_sym (insert_desc_perm r xs))).
      constructor; [|exact Hx].
      unfold newer_or_equal.
      destruct (String.leb_total (row_created_at r) (row_created_at x)) as [H|H];
        [exact H | congruence].
Qed.

Lemma order_sorted (l : list Row) :
  StronglySorted newer_or_equal (order_by_created_at_desc l).
Proof.
  induction l as [|x xs IH]; cbn [order_by_created_at_desc fold_right].
  - constructor.
  - by apply insert_desc_sorted.
Qed.

Lemma insert_desc_map (g : Row -> Row) (r : Row) (l : list Row) :
  keeps_keys g -> insert_desc (g r) (map g l) = map g (insert_desc r l).
Proof.
  intros Hg. induction l as [|x xs IH]; cbn [insert_desc map]; [done|].
  rewrite (proj2 (Hg x)), (proj2 (Hg r)).
  destruct (String.leb _ _); cbn [map]; [done | by rewrite IH].
Qed.

Lemma order_map (g : Row -> Row) (l : list Row) :
  keeps_keys g ->
  order_by_created_at_desc (map g l) = map g (order_by_created_at_desc l).
Proof.
  intros Hg. induction l as [|x xs IH];
    cbn [order_by_created_at_desc fold_right map]; [done|].
  fold (order_by_created_at_desc (map g xs)).
  fold (order_by_created_at_desc xs).
  by rewrite IH, insert_desc_map.
Qed.

Lemma filter_session_map (g : Row -> Row) (sid : string) (l : list Row) :
  keeps_keys g ->
  List.filter (fun r => String.eqb (row_session_id r) sid) (map g l)
  = map g (List.filter (fun r => String.eqb (row_session_id r) sid) l).
Proof.
  intros Hg. induction l as [|x xs IH]; cbn [List.filter map]; [done|].
  rewrite (proj1 (Hg x)).
  destruct (String.eqb _ _); cbn [map]; by rewrite IH.
Qed.

Lemma select_latest_map (g : Row -> Row) (sid : string) (l : list Row) :
  keeps_keys g -> select_latest sid (map g l) = g <$> select_latest sid l.
Proof.
  intros Hg. unfold select_latest.
  rewrite filter_session_map, order_map by done.
  by destruct (order_by_created_at_desc _).
Qed.

Lemma insert_desc_nonempty (r : Row) (l : list Row) : insert_desc r l <> [].
Proof. destruct l; cbn [insert_desc]; [done|]. by destruct (String.leb _ _). Qed.

Lemma order_nil (l : list Row) : order_by_created_at_desc l = [] -> l = [].
Proof.
  destruct l as [|x xs]; [done|].
  cbn [order_by_created_at_desc fold_right]. intros H.
  by apply insert_desc_nonempty in H.
Qed.

Lemma select_latest_In (sid : string) (l : list Row) (r : Row) :
  select_latest sid l = Some r -> In r l /\ row_session_id r = sid.
Proof.
  unfold select_latest. intros H.
  assert (Hin : In r (order_by_created_at_desc
                        (List.filter (fun r => String.eqb (row_session_id r) sid) l))).
  { destruct (order_by_created_at_desc _); [done|].
    cbn in H. injection H as ->. by left. }
  apply (Permutation_in _ (order_perm _)) in Hin.
  apply filter_In in Hin as [Hin Hs].
  split; [exact Hin | by apply String.eqb_eq].
Qed.

Lemma select_latest_None (sid : string) (l : list Row) :
  select_latest sid l = None <->
  List.filter (fun r => String.eqb (row_session_id r) sid) l = [].
Proof.
  unfold select_latest. split.
  - intros H. apply order_nil. by destruct (order_by_created_at_desc _).
  - by intros ->.
Qed.

Lemma select_latest_is_Some (sid : string) (rows : list Row) (r : Row) :
  In r rows -> row_session_id r = sid -> is_Some (select_latest sid rows).
Proof.
  intros Hin Hs.
  destruct (select_latest sid rows) eqn:E; [by eexists|].
  apply select_latest_None in E.
  assert (Hf : In r (List.filter
                       (fun r => String.eqb (row_session_id r) sid) rows)).
  { apply filter_In. split; [done | by apply String.eqb_eq]. }
  rewrite E in Hf. destruct Hf.
Qed.

Lemma with_column_keeps (c text t : string) (i : nat) :
  keeps_keys (fun r => if Nat.eqb (row_id r) i then with_column c text t r else r).
Proof. intros r. by destruct (Nat.eqb _ _). Qed.

Lemma update_confirmed_keeps (t : string) (i : nat) :
  keeps_keys (fun r =>
                if Nat.eqb (row_id r) i
                then {| row_id := row_id r;
                        row_session_id := row_session_id r;
                        row_status := "confirmed";
                        row_json := row_json r;
                        row_created_at := row_created_at r;
                        row_updated_at := t |}
                else r).
Proof. intros r. by destruct (Nat.eqb _ _). Qed.

(** *** Strings *)

Lemma app_inj_r (a b s : string) : a +:+ s = b +:+ s -> a = b.
Proof.
  revert b. induction a as [|x a IH]; intros [|y b] H.
  - done.
  - apply (f_equal String.length) in H.
    rewrite CodecFacts.app_nil, CodecFacts.app_cons in H. cbn in H.
    rewrite CodecFacts.length_app_s in H. lia.
  - apply (f_equal String.length) in H.
    rewrite CodecFacts.app_nil, CodecFacts.app_cons in H. cbn in H.
    rewrite CodecFacts.length_app_s in H. lia.
  - rewrite !CodecFacts.app_cons in H. injection H as -> H.
    by rewrite (IH _ H).
Qed.

Lemma mem_str_In (x : string) (l : list string) :
  mem_str x l = true <-> In x l.
Proof.
  unfold mem_str. rewrite existsb_exists. split.
  - intros (y & Hy & E). apply String.eqb_eq in E. by subst.
  - intros H. exists x. split; [done | apply String.eqb_refl].
Qed.

Lemma mem_str_false (x : string) (l : list string) :
  ~ In x l -> mem_str x l = false.
Proof.
  intros H. destruct (mem_str x l) eqn:E; [|done].
  by apply mem_str_In in E.
Qed.

Lemma SECTION_NAMES_eq :
  SECTION_NAMES
  = ["subject"; "procedures"; "data_description"; "instrument"; "acquisition";
     "session"; "processing"; "quality_control"; "rig"].
Proof. reflexivity. Qed.

(** A name without the suffix addresses a section column only if it is a
    section name. *)
Lemma suffixed_in_METADATA_FIELDS (field : string) :
  In (field +:+ "_json") METADATA_FIELDS -> In field SECTION_NAMES.
Proof.
  rewrite SECTION_NAMES_eq. unfold METADATA_FIELDS. cbn [In].
  intros H.
  repeat (destruct H as [H | H];
          [ match type of H with
            | ?c = _ =>
                let n := eval vm_compute in (replace c "_json" EmptyString) in
                change c with (n +:+ "_json") in H
            end;
            apply eq_sym, app_inj_r in H; subst; tauto | ]).
  done.
Qed.

Lemma col_section (field : string) :
  In field SECTION_NAMES ->
  col field = field +:+ "_json" /\ In (col field) METADATA_FIELDS
  /\ replace (col field) "_json" EmptyString = field.
Proof.
  rewrite SECTION_NAMES_eq. cbn [In]. intros H.
  repeat (destruct H as [<- | H]; [vm_compute; tauto|]). destruct H.
Qed.

Lemma col_section_valid (field : string) :
  In field SECTION_NAMES ->
  negb (mem_str (col field) METADATA_FIELDS)
  && negb (String.eqb (col field) "validation_results_json") = false.
Proof.
  intros H. destruct (col_section field H) as (_ & Hin & _).
  apply mem_str_In in Hin. by rewrite Hin.
Qed.

(** *** The operations, step by step *)

Lemma get_draft_metadata_eq (sid : string) (w : World) :
  get_draft_metadata sid w = (_row_to_dict <$> select_latest sid (table w), w).
Proof. reflexivity. Qed.

Lemma update_unknown (clock : nat -> string) (sid field : string)
    (value : json) (w : World) :
  mem_str (col field) METADATA_FIELDS = false ->
  col field <> "validation_results_json" ->
  update_draft_metadata clock sid field value w
  = (UnknownField ("Unknown metadata field: " +:+ field), w).
Proof.
  intros Hm Hv. unfold update_draft_metadata.
  rewrite Hm. apply String.eqb_neq in Hv. by rewrite Hv.
Qed.

Lemma update_draft_metadata_snd (clock : nat -> string) (sid field : string)
    (value : json) (w : World) :
  negb (mem_str (col field) METADATA_FIELDS)
  && negb (String.eqb (col field) "validation_results_json") = false ->
  snd (update_draft_metadata clock sid field value w)
  = {| table :=
         match select_latest sid (table w) with
         | Some row =>
             update_column (col field) (serialized value) (clock (ticks w))
               (row_id row) (table w)
         | None => table w
         end;
       ticks := S (ticks w) |}.
Proof.
  intros Hv. unfold update_draft_metadata. rewrite Hv.
  unfold bind, now, get_table, put_table, ret. cbn.
  by destruct (select_latest sid (table w)).
Qed.

Lemma select_latest_update_column (c text t sid : string) (row : Row)
    (rows : list Row) :
  select_latest sid rows = Some row ->
  select_latest sid (update_column c text t (row_id row) rows)
  = Some (with_column c text t row).
Proof.
  intros H. unfold update_column.
  rewrite (select_latest_map _ _ _ (with_column_keeps c text t (row_id row))), H.
  cbn. by rewrite Nat.eqb_refl.
Qed.

(** After a write of a valid field, the current draft of the session is
    the row it was, with that column and [updated_at] rewritten. *)
Lemma update_current (clock : nat -> string) (sid field : string)
    (value : json) (w : World) (row : Row) :
  negb (mem_str (col field) METADATA_FIELDS)
  && negb (String.eqb (col field) "validation_results_json") = false ->
  select_latest sid (table w) = Some row ->
  select_latest sid (table (snd (update_draft_metadata clock sid field value w)))
  = Some (with_column (col field) (serialized value) (clock (ticks w)) row).
Proof.
  intros Hv Hsel. rewrite update_draft_metadata_snd by done. cbn [table].
  rewrite Hsel. by apply select_latest_update_column.
Qed.

Lemma save_draft_metadata_eq (clock : nat -> string) (sid : string)
    (md : Dict.t json) (w : World) :
  save_draft_metadata clock sid md w
  = let new := {| row_id := fresh_id (table w);
                  row_session_id := sid;
                  row_status := "draft";
                  row_json := save_columns md;
                  row_created_at := clock (ticks w);
                  row_updated_at := clock (ticks w) |} in
    (_row_to_dict <$> select_latest sid (table w ++ [new]),
     {| table := table w ++ [new]; ticks := S (ticks w) |}).
Proof. reflexivity. Qed.

Lemma list_all_drafts_eq (w : World) :
  list_all_drafts None w
  = (map _row_to_dict (order_by_created_at_desc (table w)), w).
Proof. reflexivity. Qed.

Lemma confirm_metadata_table (clock : nat -> string) (sid : string) (w : World) :
  table (snd (confirm_metadata clock sid w))
  = match select_latest sid (table w) with
    | Some row => update_confirmed (clock (ticks w)) (row_id row) (table w)
    | None => table w
    end.
Proof.
  unfold confirm_metadata, bind, now, get_table, put_table, ret. cbn.
  by destruct (select_latest sid (table w)).
Qed.


(** *** Unknown field names *)

(** C3, as amended.  For every session and every field name that is
    neither one of the nine section names nor [validation_results], and is
    not one of these ten names with the suffix [_json] either,
    [update_draft_metadata] returns the error outcome and leaves the
    database as it was: no column is written, [updated_at] is not bumped,
    the clock is not even read. *)
Theorem update_unknown_field_rejected (clock : nat -> string)
    (sid field : string) (value : json) (w : World) :
  ~ In field SECTION_NAMES ->
  field <> "validation_results" ->
  ~ In field METADATA_FIELDS ->
  field <> "validation_results_json" ->
  update_draft_metadata clock sid field value w
  = (UnknownField ("Unknown metadata field: " +:+ field), w).
Proof.
  intros Hname Hval Hcol Hvalcol.
  apply update_unknown; unfold col; destruct (endswith field "_json").
  - by apply mem_str_false.
  - apply mem_str_false. intros H.
    by apply suffixed_in_METADATA_FIELDS in H.
  - done.
  - intros H.
    change "validation_results_json" with ("validation_results" +:+ "_json") in H.
    by apply app_inj_r in H.
Qed.

Lemma update_unknown_field_rejected_witness :
  ~ In "nonexistent_field" SECTION_NAMES
  /\ "nonexistent_field" <> "validation_results"
  /\ ~ In "nonexistent_field" METADATA_FIELDS
  /\ "nonexistent_field" <> "validation_results_json"
  /\ update_draft_metadata Examples.clock "s" "nonexistent_field"
       (JDict [("foo", JStr "bar")]) Examples.one_draft
     = (UnknownField "Unknown metadata field: nonexistent_field",
        Examples.one_draft).
Proof.
  assert (H1 : ~ In "nonexistent_field" SECTION_NAMES)
    by (vm_compute; intuition discriminate).
  assert (H2 : "nonexistent_field" <> "validation_results") by discriminate.
  assert (H3 : ~ In "nonexistent_field" METADATA_FIELDS)
    by (vm_compute; intuition discriminate).
  assert (H4 : "nonexistent_field" <> "validation_results_json") by discriminate.
  split; [exact H1|]. split; [exact H2|]. split; [exact H3|]. split; [exact H4|].
  exact (update_unknown_field_rejected Examples.clock "s" "nonexistent_field"
           (JDict [("foo", JStr "bar")]) Examples.one_draft H1 H2 H3 H4).
Defined.

(** C3, as stated, fails on a column name: [subject_json] is neither one of
    the nine section names nor [validation_results], yet the update is
    carried out and the [subject] column of the draft is rewritten. *)
Lemma update_unknown_field_counterexample :
  ~ In "subject_json" SECTION_NAMES
  /\ "subject_json" <> "validation_results"
  /\ (forall e,
         fst (update_draft_metadata Examples.clock "s" "subject_json"
                (JDict [("subject_id", JStr "222")]) Examples.one_draft)
         <> UnknownField e)
  /\ stored_text "s" "subject_json" Examples.one_draft
     = Some (Codec.dumps (JDict [("subject_id", JStr "111")]))
  /\ stored_text "s" "subject_json"
       (snd (update_draft_metadata Examples.clock "s" "subject_json"
               (JDict [("subject_id", JStr "222")]) Examples.one_draft))
     = Some (Codec.dumps (JDict [("subject_id", JStr "222")])).
Proof.
  split; [vm_compute; intuition discriminate|].
  split; [discriminate|].
  split; [intros e H; vm_compute in H; discriminate|].
  split; reflexivity.
Qed.

(** *** Reading a draft *)



(** *** Creating a draft *)

Lemma fold_save_lookup (md : Dict.t json) (fs : list string)
    (acc : gmap string string) (c : string) :
  NoDup fs ->
  fold_left
    (fun cols field =>
       match Dict.get (replace field "_json" EmptyString) md with
       | Some raw => <[field := serialized raw]> cols
       | None => cols
       end) fs acc !! c
  = if decide (c ∈ fs)
    then match Dict.get (replace c "_json" EmptyString) md with
         | Some raw => Some (serialized raw)
         | None => acc !! c
         end
    else acc !! c.
Proof.
  revert acc. induction fs as [|f fs IH]; intros acc Hnd; cbn [fold_left].
  - rewrite decide_False; [done | apply not_elem_of_nil].
  - apply NoDup_cons in Hnd as [Hf Hnd]. rewrite (IH _ Hnd).
    destruct (decide (c = f)) as [-> | Hne].
    + rewrite (decide_False (P := f ∈ fs)) by done.
      rewrite decide_True by (apply elem_of_cons; auto).
      destruct (Dict.get _ md); [by rewrite lookup_insert_eq | done].
    + assert (Hacc : (match Dict.get (replace f "_json" EmptyString) md with
                      | Some raw => <[f := serialized raw]> acc
                      | None => acc
                      end) !! c = acc !! c).
      { destruct (Dict.get (replace f _ _) md); [|done].
        by rewrite lookup_insert_ne. }
      rewrite Hacc.
      destruct (decide (c ∈ fs)) as [Hin | Hnin].
      * by rewrite decide_True by (apply elem_of_cons; auto).
      * rewrite decide_False; [done|].
        intros [?|?]%elem_of_cons; auto.
Qed.

Lemma save_columns_lookup (md : Dict.t json) (c : string) :
  save_columns md !! c
  = if decide (c ∈ METADATA_FIELDS)
    then serialized <$> Dict.get (replace c "_json" EmptyString) md
    else None.
Proof.
  unfold save_columns.
  rewrite (fold_save_lookup md _ _ _ NoDup_METADATA_FIELDS).
  destruct (decide _); [|done].
  by destruct (Dict.get _ md).
Qed.

(** C10.  [save_draft_metadata] looks up the nine section names only: two
    inputs that agree on them have the same outcome, so any other key is
    neither stored nor reported.  The call appends one row, which has
    status [draft], [created_at] equal to [updated_at], and no column
    outside the nine section columns; and it returns a row, not an
    error. *)
Theorem save_ignores_other_keys (clock : nat -> string) (sid : string)
    (metadata_json : Dict.t json) (w : World) :
  (forall other : Dict.t json,
      (forall k, In k SECTION_NAMES ->
                 Dict.get k other = Dict.get k metadata_json) ->
      save_draft_metadata clock sid other w
      = save_draft_metadata clock sid metadata_json w)
  /\ (exists new : Row,
         table (snd (save_draft_metadata clock sid metadata_json w))
         = table w ++ [new]
         /\ row_session_id new = sid
         /\ row_status new = "draft"
         /\ row_created_at new = row_updated_at new
         /\ (forall c text, row_json new !! c = Some text ->
               In c METADATA_FIELDS
               /\ exists raw,
                    Dict.get (replace c "_json" EmptyString) metadata_json
                    = Some raw
                    /\ text = serialized raw))
  /\ (exists d : Draft,
         fst (save_draft_metadata clock sid metadata_json w) = Some d).
Proof.
  split; [|split].
  - intros other Hagree. rewrite !save_draft_metadata_eq.
    assert (Hcols : save_columns other = save_columns metadata_json).
    { apply map_eq. intros c. rewrite !save_columns_lookup.
      destruct (decide (c ∈ METADATA_FIELDS)) as [Hc|]; [|done].
      rewrite Hagree; [done|].
      unfold SECTION_NAMES.
      apply (in_map (fun field => replace field "_json" EmptyString)).
      by apply list_elem_of_In. }
    by rewrite Hcols.
  - rewrite save_draft_metadata_eq. cbv zeta. cbn [snd table].
    eexists. split; [reflexivity|].
    cbn [row_session_id row_status row_created_at row_updated_at row_json].
    split; [done|]. split; [done|]. split; [done|].
    intros c text H. rewrite save_columns_lookup in H.
    destruct (decide _) as [Hc|]; [|done].
    split; [by apply list_elem_of_In|].
    destruct (Dict.get _ metadata_json) as [raw|]; [|done].
    exists raw. split; [done|]. cbn in H. congruence.
  - rewrite save_draft_metadata_eq. cbv zeta. cbn [fst].
    destruct (select_latest_is_Some sid
                (table w ++ [{| row_id := fresh_id (table w);
                                row_session_id := sid;
                                row_status := "draft";
                                row_json := save_columns metadata_json;
                                row_created_at := clock (ticks w);
                                row_updated_at := clock (ticks w) |}])
                {| row_id := fresh_id (table w);
                   row_session_id := sid;
                   row_status := "draft";
                   row_json := save_columns metadata_json;
                   row_created_at := clock (ticks w);
                   row_updated_at := clock (ticks w) |}) as [r Hr].
    + apply in_or_app. right. by left.
    + done.
    + rewrite Hr. by eexists.
Qed.

Lemma save_ignores_other_keys_witness :
  (forall k, In k SECTION_NAMES ->
     Dict.get k [("subject", JDict [("subject_id", JStr "111")]);
                 ("favourite_colour", JStr "blue")]
     = Dict.get k [("subject", JDict [("subject_id", JStr "111")])])
  /\ save_draft_metadata Examples.clock "s"
       [("subject", JDict [("subject_id", JStr "111")]);
        ("favourite_colour", JStr "blue")] Examples.empty
     = save_draft_metadata Examples.clock "s"
         [("subject", JDict [("subject_id", JStr "111")])] Examples.empty.
Proof.
  assert (H : forall k, In k SECTION_NAMES ->
                Dict.get k [("subject", JDict [("subject_id", JStr "111")]);
                            ("favourite_colour", JStr "blue")]
                = Dict.get k [("subject", JDict [("subject_id", JStr "111")])]).
  { intros k Hk. vm_compute in Hk.
    repeat (destruct Hk as [<- | Hk]; [reflexivity|]). destruct Hk. }
  split; [exact H|].
  exact (proj1 (save_ignores_other_keys Examples.clock "s"
                  [("subject", JDict [("subject_id", JStr "111")])]
                  Examples.empty) _ H).
Defined.

(** *** Listing and confirming *)

Lemma update_confirmed_ids (t : string) (i : nat) (rows : list Row) :
  map row_id (update_confirmed t i rows) = map row_id rows
  /\ map row_created_at (update_confirmed t i rows) = map row_created_at rows.
Proof.
  unfold update_confirmed. rewrite !map_map. split;
    apply map_ext; intros r; by destruct (Nat.eqb _ _).
Qed.

(** C8, as amended.  [list_all_drafts] returns every row of the table,
    decoded (each session's current draft, and any older row of the
    session as well), newest-created first; and confirming a draft, which
    sets the status of the session's current row to [confirmed] and its
    [updated_at] to the time of the call, changes no record's rank in the
    listing. *)
Theorem list_newest_first_stable_under_confirm (clock : nat -> string)
    (sid : string) (w : World) :
  (exists rows : list Row,
      fst (list_all_drafts None w) = map _row_to_dict rows
      /\ Permutation rows (table w)
      /\ StronglySorted newer_or_equal rows)
  /\ (let before := fst (list_all_drafts None w) in
      let after := fst (list_all_drafts None (snd (confirm_metadata clock sid w))) in
      map d_id after = map d_id before
      /\ map d_created_at after = map d_created_at before)
  /\ (forall r, select_latest sid (table w) = Some r ->
        forall r', In r' (table (snd (confirm_metadata clock sid w))) ->
                   row_id r' = row_id r ->
                   row_status r' = "confirmed"
                   /\ row_updated_at r' = clock (ticks w)).
Proof.
  split; [|split].
  - exists (order_by_created_at_desc (table w)).
    split; [done|]. split; [apply order_perm | apply order_sorted].
  - cbv zeta. rewrite !list_all_drafts_eq. cbn [fst].
    rewrite confirm_metadata_table.
    destruct (select_latest sid (table w)) as [row|]; [|done].
    unfold update_confirmed.
    rewrite (order_map _ _ (update_confirmed_keeps _ _)).
    fold (update_confirmed (clock (ticks w)) (row_id row)
            (order_by_created_at_desc (table w))).
    rewrite !map_map.
    change (fun x => d_id (_row_to_dict x)) with row_id.
    change (fun x => d_created_at (_row_to_dict x)) with row_created_at.
    apply update_confirmed_ids.
  - intros r Hr r' Hin Hid. rewrite confirm_metadata_table, Hr in Hin.
    unfold update_confirmed in Hin. apply in_map_iff in Hin as (x & <- & Hx).
    destruct (Nat.eqb (row_id x) (row_id r)) eqn:E; [done|].
    apply Nat.eqb_neq in E. done.
Qed.

Lemma list_newest_first_stable_under_confirm_witness :
  map d_id (fst (list_all_drafts None
                   (snd (confirm_metadata Examples.clock "s"
                           Examples.two_drafts))))
  = map d_id (fst (list_all_drafts None Examples.two_drafts))
  /\ map d_created_at
       (fst (list_all_drafts None
               (snd (confirm_metadata Examples.clock "s" Examples.two_drafts))))
     = map d_created_at (fst (list_all_drafts None Examples.two_drafts)).
Proof.
  exact (proj1 (proj2 (list_newest_first_stable_under_confirm Examples.clock
                         "s" Examples.two_drafts))).
Defined.

(** C8, as stated, fails on a session with history: after two
    [save_draft_metadata] for session [s] the listing holds both rows,
    while the current draft of [s] is the row created last. *)
Lemma list_counterexample :
  map d_id (fst (list_all_drafts None Examples.two_drafts)) = [2; 1]
  /\ map d_session_id (fst (list_all_drafts None Examples.two_drafts))
     = ["s"; "s"]
  /\ d_id <$> fst (get_draft_metadata "s" Examples.two_drafts) = Some 2.
Proof. repeat split; reflexivity. Qed.

(** *** The serialization guard *)

Lemma serialized_fresh (value : json) :
  decodable_str value = false -> serialized value = Codec.dumps value.
Proof.
  destruct value as [| | | s | |]; try done.
  unfold decodable_str, serialized. by destruct (Codec.loads s).
Qed.

Lemma read_back_serialized (value : json) :
  wf value = true -> decodable_str value = false ->
  read_back (serialized value) = value.
Proof.
  intros Hwf Hd. rewrite serialized_fresh by done.
  unfold read_back. by rewrite CodecFacts.loads_dumps.
Qed.




End StoreFacts.

(** ** The validation engine *)

Module ValidationFacts.

Import Validation.

(** The field that each rule reports on. *)
Lemma subject_id_issues_field (n : nat) (snapshot : Dict.t json) :
  Forall (fun i => field i = "subject.subject_id" /\ severity i = warning)
    (subject_id_issues n snapshot).
Proof.
  unfold subject_id_issues.
  destruct (lookup_path _ _) as [[| | | s | |]|]; try by constructor.
  destruct (_ <? _)%nat; repeat constructor.
Qed.

Lemma sex_issues_field (snapshot : Dict.t json) :
  Forall (fun i => field i = "subject.sex" /\ severity i = error)
    (sex_issues snapshot).
Proof.
  unfold sex_issues. destruct (lookup_path _ _); [|by constructor].
  destruct (is_one_of _ _); repeat constructor.
Qed.

Lemma modality_issues_field (snapshot : Dict.t json) :
  Forall (fun i => field i = "data_description.modality" /\ severity i = error)
    (modality_issues snapshot).
Proof.
  unfold modality_issues.
  induction (modality_abbreviations snapshot) as [|a l IH]; cbn [flat_map];
    [by constructor|].
  apply Forall_app. split; [|exact IH].
  destruct (is_one_of _ _); repeat constructor.
Qed.

Lemma species_issues_field (snapshot : Dict.t json) :
  Forall (fun i => field i = "subject.species.name" /\ severity i = warning)
    (species_issues snapshot).
Proof.
  unfold species_issues.
  destruct (lookup_path _ _) as [[| | | | | sp]|]; try by constructor.
  destruct (Dict.get _ _); [|by constructor].
  destruct (is_one_of _ _); repeat constructor.
Qed.

Lemma thickness_issues_field (snapshot : Dict.t json) :
  Forall (fun i => field i = "procedures.section_thickness_um"
                   /\ severity i = error)
    (thickness_issues snapshot).
Proof.
  unfold thickness_issues.
  destruct (lookup_path _ _) as [[| | z | | |]|]; try by constructor.
  destruct (_ <=? _)%Z; repeat constructor.
Qed.

Lemma session_issues_field (phys : list string) (snapshot : Dict.t json) :
  Forall (fun i => field i = "session" /\ severity i = warning)
    (session_issues phys snapshot).
Proof.
  unfold session_issues. destruct (Dict.get _ _); [by constructor|].
  destruct (has_physiology_modality _ _); repeat constructor.
Qed.

Lemma filter_other_field (f g : string) (sev : Severity) (l : list Issue) :
  String.eqb g f = false ->
  Forall (fun i => field i = g /\ severity i = sev) l ->
  List.filter
    (fun i => String.eqb (field i) f && Severity_eqb (severity i) warning) l
  = [].
Proof.
  intros Hne. induction 1 as [|i l [Hf _] _ IH]; cbn [List.filter]; [done|].
  by rewrite Hf, Hne.
Qed.

(** The warnings on [session] are those of the cross-field rule. *)
Lemma session_warnings_eq (n : nat) (phys : list string) (ok : json -> bool)
    (snapshot : Dict.t json) :
  session_warnings (validate_metadata n phys ok snapshot)
  = session_issues phys snapshot.
Proof.
  unfold session_warnings, validate_metadata, all_issues. cbn [issues].
  rewrite !List.filter_app.
  rewrite (filter_other_field "session" "subject.subject_id" warning _ eq_refl
             (subject_id_issues_field n snapshot)).
  rewrite (filter_other_field "session" "subject.sex" error _ eq_refl
             (sex_issues_field snapshot)).
  rewrite (filter_other_field "session" "data_description.modality" error _ eq_refl
             (modality_issues_field snapshot)).
  rewrite (filter_other_field "session" "subject.species.name" warning _ eq_refl
             (species_issues_field snapshot)).
  rewrite (filter_other_field "session" "procedures.section_thickness_um" error _ eq_refl
             (thickness_issues_field snapshot)).
  cbn [app].
  pose proof (session_issues_field phys snapshot) as H.
  induction H as [|i l [Hf Hs] _ IH]; cbn [List.filter]; [done|].
  by rewrite Hf, Hs, IH.
Qed.

(** C5.  On the empty snapshot the completeness score is 0, the three
    required paths are all reported missing, and no issue is produced, so
    the status is [valid]: a missing required field shows in
    [missing_required] and in the score, not in the status. *)
Theorem validate_empty_snapshot (n : nat) (phys : list string)
    (ok : json -> bool) :
  let r := validate_metadata n phys ok [] in
  completeness_score r == 0
  /\ missing_required r
     = ["subject.subject_id"; "data_description.modality";
        "data_description.project_name"]
  /\ issues r = []
  /\ status r = valid.
Proof. repeat split. Qed.

Lemma existsb_is_error (l : list Issue) :
  existsb is_error l = true <-> exists i, In i l /\ severity i = error.
Proof.
  rewrite existsb_exists. split; intros (i & Hi & H); exists i; split; try done.
  - unfold is_error in H. by destruct (severity i).
  - unfold is_error. by rewrite H.
Qed.

(** C6.  The status is [errors] exactly when some issue has severity
    [error]; issues of severity [warning] leave it [valid]; and a snapshot
    that has the three required paths and produces warnings only is
    [valid] with completeness score 1. *)
Theorem status_errors_iff_error_issue (n : nat) (phys : list string)
    (ok : json -> bool) (snapshot : Dict.t json) :
  let r := validate_metadata n phys ok snapshot in
  (status r = errors <-> exists i, In i (issues r) /\ severity i = error)
  /\ ((forall i, In i (issues r) -> severity i = warning) -> status r = valid)
  /\ ((forall p, In p REQUIRED_FIELDS -> present snapshot p = true) ->
      (forall i, In i (issues r) -> severity i = warning) ->
      status r = valid /\ completeness_score r == 1 /\ missing_required r = []).
Proof.
  cbv zeta.
  assert (Hst : status (validate_metadata n phys ok snapshot) = errors
                <-> exists i, In i (issues (validate_metadata n phys ok snapshot))
                              /\ severity i = error).
  { cbn [validate_metadata status issues]. rewrite <- existsb_is_error.
    by destruct (existsb _ _). }
  assert (Hw : (forall i, In i (issues (validate_metadata n phys ok snapshot)) ->
                          severity i = warning) ->
               status (validate_metadata n phys ok snapshot) = valid).
  { intros Hall. clear Hst. cbn [validate_metadata status issues] in *.
    destruct (existsb is_error (all_issues n phys snapshot)) eqn:E; [|done].
    apply existsb_is_error in E as (i & Hi & He).
    rewrite (Hall i Hi) in He. discriminate. }
  split; [exact Hst|]. split; [exact Hw|].
  intros Hreq Hall. split; [by apply Hw|].
  cbn [validate_metadata completeness_score missing_required].
  unfold REQUIRED_FIELDS in *. cbn [List.filter].
  rewrite !Hreq by (cbn; tauto). cbn. done.
Qed.

(** C7.  When some entry of [data_description.modality] has a
    physiology-style abbreviation and the snapshot has no [session]
    section, exactly one warning is keyed on [session]; when no entry has
    a physiology-style abbreviation, none is. *)
Theorem physiology_without_session_warns (n : nat) (phys : list string)
    (ok : json -> bool) (snapshot : Dict.t json) :
  let r := validate_metadata n phys ok snapshot in
  ((exists a, In (JStr a) (modality_abbreviations snapshot) /\ In a phys) ->
   Dict.get "session" snapshot = None ->
   exists i, session_warnings r = [i]
             /\ field i = "session" /\ severity i = warning)
  /\ ((forall a, In a (modality_abbreviations snapshot) ->
                 is_one_of a phys = false) ->
      session_warnings r = []).
Proof.
  cbv zeta. rewrite session_warnings_eq. unfold session_issues. split.
  - intros (a & Ha & Hp) ->.
    assert (H : has_physiology_modality phys snapshot = true).
    { unfold has_physiology_modality. apply existsb_exists.
      exists (JStr a). split; [done|]. by apply StoreFacts.mem_str_In. }
    rewrite H. by eexists.
  - intros Hall.
    assert (H : has_physiology_modality phys snapshot = false).
    { unfold has_physiology_modality.
      destruct (existsb _ _) eqn:E; [|done].
      apply existsb_exists in E as (a & Ha & Hp).
      by rewrite (Hall a Ha) in Hp. }
    rewrite H. by destruct (Dict.get _ _).
Qed.

Lemma status_errors_iff_error_issue_witness :
  let snapshot :=
    [("subject", JDict [("subject_id", JStr "12")]);
     ("data_description",
      JDict [("modality", JList [JDict [("abbreviation", JStr "SPIM")]]);
             ("project_name", JStr "BrainMap")])] in
  let r := validate_metadata 4 ["ecephys"; "pophys"] is_dict snapshot in
  (forall p, In p REQUIRED_FIELDS -> present snapshot p = true)
  /\ (forall i, In i (issues r) -> severity i = warning)
  /\ List.length (issues r) = 1
  /\ status r = valid /\ completeness_score r == 1 /\ missing_required r = [].
Proof.
  cbv zeta.
  assert (H1 : forall p, In p REQUIRED_FIELDS ->
                 present
                   [("subject", JDict [("subject_id", JStr "12")]);
                    ("data_description",
                     JDict [("modality",
                             JList [JDict [("abbreviation", JStr "SPIM")]]);
                            ("project_name", JStr "BrainMap")])] p = true).
  { intros p Hp. vm_compute in Hp.
    repeat (destruct Hp as [<- | Hp]; [reflexivity|]). destruct Hp. }
  assert (H2 : forall i,
             In i (issues
                     (validate_metadata 4 ["ecephys"; "pophys"] is_dict
                        [("subject", JDict [("subject_id", JStr "12")]);
                         ("data_description",
                          JDict [("modality",
                                  JList [JDict [("abbreviation", JStr "SPIM")]]);
                                 ("project_name", JStr "BrainMap")])])) ->
             severity i = warning).
  { intros i Hi. vm_compute in Hi.
    repeat (destruct Hi as [<- | Hi]; [reflexivity|]). destruct Hi. }
  split; [exact H1|]. split; [exact H2|]. split; [reflexivity|].
  exact (proj2 (proj2 (status_errors_iff_error_issue 4 ["ecephys"; "pophys"]
                         is_dict _)) H1 H2).
Defined.

Lemma physiology_without_session_warns_witness :
  let ecephys :=
    [("data_description",
      JDict [("modality", JList [JDict [("abbreviation", JStr "ecephys")]])])] in
  let spim :=
    [("data_description",
      JDict [("modality", JList [JDict [("abbreviation", JStr "SPIM")]])])] in
  (exists a, In (JStr a) (modality_abbreviations ecephys)
             /\ In a ["ecephys"; "pophys"])
  /\ Dict.get "session" ecephys = None
  /\ (exists i,
         session_warnings
           (validate_metadata 4 ["ecephys"; "pophys"] is_dict ecephys) = [i]
         /\ field i = "session" /\ severity i = warning)
  /\ (forall a, In a (modality_abbreviations spim) ->
                is_one_of a ["ecephys"; "pophys"] = false)
  /\ session_warnings
       (validate_metadata 4 ["ecephys"; "pophys"] is_dict spim) = [].
Proof.
  cbv zeta.
  assert (H1 : exists a,
             In (JStr a)
               (modality_abbreviations
                  [("data_description",
                    JDict [("modality",
                            JList [JDict [("abbreviation", JStr "ecephys")]])])])
             /\ In a ["ecephys"; "pophys"]).
  { exists "ecephys". split; vm_compute; tauto. }
  assert (H2 : forall a,
             In a (modality_abbreviations
                     [("data_description",
                       JDict [("modality",
                               JList [JDict [("abbreviation", JStr "SPIM")]])])]) ->
             is_one_of a ["ecephys"; "pophys"] = false).
  { intros a Ha. vm_compute in Ha.
    repeat (destruct Ha as [<- | Ha]; [reflexivity|]). destruct Ha. }
  split; [exact H1|]. split; [reflexivity|].
  split.
  { exact (proj1 (physiology_without_session_warns 4 ["ecephys"; "pophys"]
                    is_dict _) H1 eq_refl). }
  split; [exact H2|].
  exact (proj2 (physiology_without_session_warns 4 ["ecephys"; "pophys"]
                  is_dict _) H2).
Defined.

End ValidationFacts.

(** ** The capture orchestrator *)

Module CaptureFacts.

Import Store Capture StoreFacts.

(** *** Dicts *)

Lemma get_set_eq {A} (k : string) (v : A) (d : Dict.t A) :
  Dict.get k (Dict.set k v d) = Some v.
Proof.
  induction d as [|[k' v'] d IH]; cbn [Dict.set Dict.get].
  - by rewrite String.eqb_refl.
  - destruct (String.eqb k k') eqn:E; cbn [Dict.get]; by rewrite E.
Qed.

Lemma get_set_ne {A} (k k' : string) (v : A) (d : Dict.t A) :
  k <> k' -> Dict.get k' (Dict.set k v d) = Dict.get k' d.
Proof.
  intros Hne. induction d as [|[k0 v0] d IH]; cbn [Dict.set Dict.get].
  - apply not_eq_sym, String.eqb_neq in Hne. by rewrite Hne.
  - destruct (String.eqb k k0) eqn:E; cbn [Dict.get].
    + apply String.eqb_eq in E as <-.
      apply not_eq_sym, String.eqb_neq in Hne. by rewrite Hne.
    + by rewrite IH.
Qed.

Lemma get_None_keys {A} (k : string) (d : Dict.t A) :
  existsb (String.eqb k) (map fst d) = false -> Dict.get k d = None.
Proof.
  induction d as [|[k' v'] d IH]; cbn [map fst existsb Dict.get]; [done|].
  intros H. apply orb_false_iff in H as [-> H]. by apply IH.
Qed.

(** *** The fields that a call supplies *)

Lemma metadata_fields_SECTION_NAMES (f : string) :
  In f metadata_fields <-> In f SECTION_NAMES.
Proof. rewrite SECTION_NAMES_eq. unfold metadata_fields. cbn [In]. tauto. Qed.

Lemma NoDup_metadata_fields : NoDup metadata_fields.
Proof. apply (bool_decide_unpack _). by vm_compute. Qed.

Lemma collect_step_eq (args metadata : Dict.t json) (field : string) :
  match Dict.get field args with
  | None | Some JNull => metadata
  | Some (JStr s) =>
      match Codec.loads s with
      | Some v => Dict.set field v metadata
      | None => Dict.set field (JStr s) metadata
      end
  | Some value => Dict.set field value metadata
  end
  = match effective (Dict.get field args) with
    | Some v => Dict.set field v metadata
    | None => metadata
    end.
Proof.
  destruct (Dict.get field args) as [[| | | s | |]|]; cbn [effective]; try done.
  unfold read_back. by destruct (Codec.loads s).
Qed.

Lemma fold_collect_get (args : Dict.t json) (fs : list string)
    (acc : Dict.t json) (f : string) :
  NoDup fs ->
  Dict.get f
    (fold_left
       (fun metadata field =>
          match effective (Dict.get field args) with
          | Some v => Dict.set field v metadata
          | None => metadata
          end) fs acc)
  = if decide (f ∈ fs)
    then match effective (Dict.get f args) with
         | Some v => Some v
         | None => Dict.get f acc
         end
    else Dict.get f acc.
Proof.
  revert acc. induction fs as [|x fs IH]; intros acc Hnd; cbn [fold_left].
  - rewrite decide_False; [done | apply not_elem_of_nil].
  - apply NoDup_cons in Hnd as [Hx Hnd]. rewrite (IH _ Hnd).
    destruct (decide (f = x)) as [-> | Hne].
    + rewrite (decide_False (P := x ∈ fs)) by done.
      rewrite decide_True by (apply elem_of_cons; auto).
      destruct (effective (Dict.get x args)); [apply get_set_eq | done].
    + assert (Hacc : Dict.get f
                       (match effective (Dict.get x args) with
                        | Some v => Dict.set x v acc
                        | None => acc
                        end) = Dict.get f acc).
      { destruct (effective (Dict.get x args)); [|done].
        apply get_set_ne. congruence. }
      rewrite Hacc.
      destruct (decide (f ∈ fs)) as [Hin | Hnin].
      * by rewrite decide_True by (apply elem_of_cons; auto).
      * rewrite decide_False; [done|].
        intros [?|?]%elem_of_cons; auto.
Qed.

Lemma collect_eq (args : Dict.t json) :
  collect args
  = fold_left
      (fun metadata field =>
         match effective (Dict.get field args) with
         | Some v => Dict.set field v metadata
         | None => metadata
         end) metadata_fields [].
Proof.
  unfold collect. generalize (@nil (string * json)).
  induction metadata_fields as [|x fs IH]; intros acc; cbn [fold_left]; [done|].
  by rewrite collect_step_eq, IH.
Qed.

(** What [collect] holds for a section name. *)
Lemma collect_get (args : Dict.t json) (f : string) :
  In f metadata_fields ->
  Dict.get f (collect args) = effective (Dict.get f args).
Proof.
  intros Hf. rewrite collect_eq, (fold_collect_get _ _ _ _ NoDup_metadata_fields).
  rewrite decide_True by (by apply list_elem_of_In).
  by destruct (effective _).
Qed.

Lemma fold_collect_keys (args : Dict.t json) (fs : list string)
    (acc : Dict.t json) :
  Forall (fun k => In k metadata_fields) fs ->
  Forall (fun k => In k metadata_fields) (map fst acc) ->
  distinct (map fst acc) = true ->
  let md := fold_left
              (fun metadata field =>
                 match effective (Dict.get field args) with
                 | Some v => Dict.set field v metadata
                 | None => metadata
                 end) fs acc in
  Forall (fun k => In k metadata_fields) (map fst md)
  /\ distinct (map fst md) = true.
Proof.
  cbv zeta. revert acc.
  induction fs as [|x fs IH]; intros acc Hfs Hacc Hd; cbn [fold_left]; [done|].
  apply Forall_cons in Hfs as [Hx Hfs].
  apply IH; [done | |]; destruct (effective (Dict.get x args)); try done.
  - rewrite CodecFacts.set_keys. destruct (existsb _ _); [done|].
    apply Forall_app. split; [done | by constructor].
  - by apply CodecFacts.set_distinct.
Qed.

Lemma collect_keys (args : Dict.t json) :
  Forall (fun k => In k SECTION_NAMES) (map fst (collect args))
  /\ distinct (map fst (collect args)) = true.
Proof.
  rewrite collect_eq.
  destruct (fold_collect_keys args metadata_fields []) as [H1 H2].
  - apply List.Forall_forall. auto.
  - constructor.
  - done.
  - split; [|done]. eapply Forall_impl; [exact H1|].
    intros k. apply metadata_fields_SECTION_NAMES.
Qed.

(** *** The loop that merges the fields *)

Lemma col_inj (f g : string) :
  In f SECTION_NAMES -> In g SECTION_NAMES -> col f = col g -> f = g.
Proof.
  intros Hf Hg.
  destruct (col_section f Hf) as (-> & _), (col_section g Hg) as (-> & _).
  apply app_inj_r.
Qed.

Lemma merged_columns_lookup (draft : Draft) (md : Dict.t json)
    (cols : gmap string string) (field : string) :
  In field SECTION_NAMES ->
  Forall (fun k => In k SECTION_NAMES) (map fst md) ->
  distinct (map fst md) = true ->
  merged_columns draft md cols !! col field
  = match Dict.get field md with
    | Some v =>
        Some (serialized (merge_value (d_json draft !! col field) v))
    | None => cols !! col field
    end.
Proof.
  intros Hfield. revert cols.
  induction md as [|[k v] md IH]; intros cols Hks Hd; [done|].
  cbn [map fst] in Hks, Hd. apply Forall_cons in Hks as [Hk Hks].
  cbn [distinct] in Hd. apply andb_true_iff in Hd as [Hkd Hd].
  apply negb_true_iff in Hkd.
  unfold merged_columns in *. cbn [fold_left fst snd Dict.get].
  rewrite (IH _ Hks Hd).
  destruct (String.eqb_spec field k) as [<- | Hne].
  - rewrite (get_None_keys field md Hkd), lookup_insert_eq.
    by rewrite (proj1 (col_section field Hfield)).
  - destruct (Dict.get field md); [done|].
    rewrite lookup_insert_ne; [done|].
    intros E. apply Hne. symmetry. by apply col_inj.
Qed.

Lemma merge_field_eq (clock : nat -> string) (sid : string) (draft : Draft)
    (field : string) (value : json) :
  merge_field clock sid draft field value
  = update_draft_metadata clock sid field
      (merge_value (d_json draft !! (field +:+ "_json")) value).
Proof.
  unfold merge_field, merge_value.
  destruct (d_json draft !! _) as [[| | | | |e]|]; try done.
  by destruct value.
Qed.

Lemma merge_fields_current (clock : nat -> string) (sid : string)
    (draft : Draft) (md : Dict.t json) (w : World) (row : Row) :
  Forall (fun k => In k SECTION_NAMES) (map fst md) ->
  select_latest sid (table w) = Some row ->
  exists row',
    select_latest sid (table (snd (merge_fields clock sid draft md w)))
    = Some row'
    /\ row_json row' = merged_columns draft md (row_json row).
Proof.
  revert w row. induction md as [|[k v] md IH]; intros w row Hks Hsel.
  - exists row. by split.
  - cbn [map fst] in Hks. apply Forall_cons in Hks as [Hk Hks].
    cbn [merge_fields]. unfold bind.
    destruct (merge_field clock sid draft k v w) as [u w1] eqn:E.
    assert (Hw1 : w1 = snd (merge_field clock sid draft k v w)) by by rewrite E.
    rewrite merge_field_eq in Hw1.
    pose proof (update_current clock sid k
                  (merge_value (d_json draft !! (k +:+ "_json")) v) w row
                  (col_section_valid k Hk) Hsel) as Hcur.
    rewrite <- Hw1 in Hcur.
    destruct (IH w1 _ Hks Hcur) as (row' & Hsel' & Hjson).
    exists row'. split; [exact Hsel'|].
    rewrite Hjson. reflexivity.
Qed.

(** *** One call of the handler *)

Section OneCall.

Variable clock : nat -> string.
Variable MIN_SUBJECT_ID_LENGTH : nat.
Variable PHYSIOLOGY_MODALITIES : list string.
Variable coordinates_well_formed : json -> bool.
Variable to_dict : Validation.ValidationResult -> json.

Local Abbreviation handler :=
  (capture_metadata_handler clock MIN_SUBJECT_ID_LENGTH PHYSIOLOGY_MODALITIES
     coordinates_well_formed to_dict).

Local Abbreviation validation_of u :=
  (to_dict
     (Validation.validate_metadata MIN_SUBJECT_ID_LENGTH PHYSIOLOGY_MODALITIES
        coordinates_well_formed (bare_metadata (_row_to_dict u)))).

Lemma handler_no_session (args : Args) (w : World) :
  session_id args = None \/ session_id args = Some EmptyString ->
  handler args w = (text_content "Error: session_id is required", w).
Proof.
  unfold capture_metadata_handler. by intros [-> | ->].
Qed.

Lemma handler_no_fields (args : Args) (sid : string) (w : World) :
  session_id args = Some sid -> sid <> EmptyString ->
  collect (fields args) = [] ->
  handler args w = (text_content NO_FIELDS_MESSAGE, w).
Proof.
  intros Hs Hne Hmd. unfold capture_metadata_handler.
  rewrite Hs, Hmd. apply String.eqb_neq in Hne. by rewrite Hne.
Qed.

(** The database after a call that is not rejected. *)
Lemma handler_snd (args : Args) (sid : string) (w : World) :
  session_id args = Some sid -> sid <> EmptyString ->
  collect (fields args) <> [] ->
  snd (handler args w)
  = let w1 :=
      match select_latest sid (table w) with
      | None => snd (save_draft_metadata clock sid (collect (fields args)) w)
      | Some row =>
          snd (merge_fields clock sid (_row_to_dict row)
                 (collect (fields args)) w)
      end in
    match select_latest sid (table w1) with
    | Some u =>
        snd (update_draft_metadata clock sid "validation_results"
               (validation_of u) w1)
    | None => w1
    end.
Proof.
  intros Hs Hne Hmd. unfold capture_metadata_handler.
  rewrite Hs. apply String.eqb_neq in Hne. rewrite Hne.
  destruct (collect (fields args)) as [|kv md] eqn:E; [done|].
  unfold bind at 1. rewrite get_draft_metadata_eq.
  destruct (select_latest sid (table w)) as [row|]; cbn [fmap option_fmap option_map].
  - unfold bind at 1.
    destruct (merge_fields clock sid (_row_to_dict row) (kv :: md) w)
      as [u w1] eqn:E1.
    cbn [snd]. unfold bind at 1. rewrite get_draft_metadata_eq.
    destruct (select_latest sid (table w1)) as [u1|];
      cbn [fmap option_fmap option_map]; unfold bind, ret.
    + by destruct (update_draft_metadata _ _ _ _ _).
    + done.
  - unfold bind at 1. unfold bind at 1.
    destruct (save_draft_metadata clock sid (kv :: md) w) as [u w1] eqn:E1.
    cbn [snd]. unfold ret at 1. unfold bind at 1.
    rewrite get_draft_metadata_eq.
    destruct (select_latest sid (table w1)) as [u1|];
      cbn [fmap option_fmap option_map]; unfold bind, ret.
    + by destruct (update_draft_metadata _ _ _ _ _).
    + done.
Qed.

Lemma select_latest_append (sid : string) (rows : list Row) (new : Row) :
  select_latest sid rows = None -> row_session_id new = sid ->
  select_latest sid (rows ++ [new]) = Some new.
Proof.
  intros Hnone Hs. apply select_latest_None in Hnone.
  unfold select_latest. rewrite List.filter_app, Hnone. cbn [List.filter app].
  apply String.eqb_eq in Hs. by rewrite Hs.
Qed.

Lemma stored_section_eq (sid field : string) (w : World) :
  In field SECTION_NAMES ->
  stored_section sid field w
  = select_latest sid (table w) ≫= fun r => read_back <$> row_json r !! col field.
Proof.
  intros Hf. unfold stored_section. rewrite get_draft_metadata_eq. cbn [fst].
  destruct (select_latest sid (table w)) as [r|]; [|reflexivity].
  cbn [fmap option_fmap option_map mbind option_bind].
  apply row_to_dict_lookup. left.
  apply list_elem_of_In. by destruct (col_section field Hf) as (_ & H & _).
Qed.

Lemma col_validation_results :
  col "validation_results" = "validation_results_json"
  /\ negb (mem_str (col "validation_results") METADATA_FIELDS)
     && negb (String.eqb (col "validation_results") "validation_results_json")
     = false.
Proof. by vm_compute. Qed.

Lemma col_section_not_validation (field : string) :
  In field SECTION_NAMES -> "validation_results_json" <> col field.
Proof.
  intros Hf E. destruct (col_section field Hf) as (_ & Hin & _).
  rewrite <- E in Hin. vm_compute in Hin. intuition discriminate.
Qed.

(** The validation step leaves the section columns as they are. *)
Lemma validation_step_section (sid field : string) (value : json)
    (w1 : World) (u : Row) :
  In field SECTION_NAMES ->
  select_latest sid (table w1) = Some u ->
  stored_section sid field
    (snd (update_draft_metadata clock sid "validation_results" value w1))
  = read_back <$> row_json u !! col field.
Proof.
  intros Hf Hu. rewrite stored_section_eq by done.
  rewrite (update_current clock sid "validation_results" value w1 u
             (proj2 col_validation_results) Hu).
  cbn [mbind option_bind with_column row_json].
  rewrite (proj1 col_validation_results).
  by rewrite lookup_insert_ne by (by apply col_section_not_validation).
Qed.

(** The effect of one call on a section of the session's draft. *)
Lemma handler_section (args : Args) (sid field : string) (w : World) :
  session_id args = Some sid -> sid <> EmptyString ->
  In field SECTION_NAMES ->
  stored_section sid field (snd (handler args w))
  = match Dict.get field (collect (fields args)) with
    | Some v =>
        Some (read_back
                (serialized (merge_value (stored_section sid field w) v)))
    | None => stored_section sid field w
    end.
Proof.
  intros Hs Hne Hf.
  destruct (collect (fields args)) as [|kv0 md0] eqn:Emd.
  { by rewrite (handler_no_fields args sid w Hs Hne Emd). }
  rewrite <- Emd in *.
  assert (Hmd : collect (fields args) <> []) by (rewrite Emd; done).
  clear Emd kv0 md0.
  destruct (collect_keys (fields args)) as [Hks Hd].
  destruct (col_section field Hf) as (Hcol & Hin & Hrep).
  rewrite (handler_snd args sid w Hs Hne Hmd). cbv zeta.
  rewrite (stored_section_eq sid field w Hf).
  destruct (select_latest sid (table w)) as [row|] eqn:Hsel.
  - destruct (merge_fields_current clock sid (_row_to_dict row)
                (collect (fields args)) w row Hks Hsel)
      as (row' & Hsel' & Hjson).
    rewrite Hsel'. rewrite (validation_step_section sid field _ _ row' Hf Hsel').
    rewrite Hjson, (merged_columns_lookup _ _ _ field Hf Hks Hd).
    cbn [mbind option_bind].
    assert (Hdraft : d_json (_row_to_dict row) !! col field
                     = read_back <$> row_json row !! col field).
    { apply row_to_dict_lookup. left. by apply list_elem_of_In. }
    rewrite Hdraft.
    by destruct (Dict.get field (collect (fields args))).
  - rewrite save_draft_metadata_eq. cbv zeta. cbn [snd table].
    set (new := {| row_id := fresh_id (table w);
                   row_session_id := sid;
                   row_status := "draft";
                   row_json := save_columns (collect (fields args));
                   row_created_at := clock (ticks w);
                   row_updated_at := clock (ticks w) |}).
    assert (Hnew : select_latest sid (table w ++ [new]) = Some new)
      by (by apply select_latest_append).
    rewrite Hnew.
    rewrite (validation_step_section sid field _
               {| table := table w ++ [new]; ticks := S (ticks w) |} new Hf Hnew).
    subst new. cbn [row_json mbind option_bind].
    rewrite save_columns_lookup, decide_True by (by apply list_elem_of_In).
    rewrite Hrep.
    by destruct (Dict.get field (collect (fields args))).
Qed.

End OneCall.

(** *** Shallow union *)

Lemma get_update (k : string) (e acc : Dict.t json) :
  distinct (map fst e) = true ->
  Dict.get k (Dict.update acc e)
  = match Dict.get k e with
    | Some v => Some v
    | None => Dict.get k acc
    end.
Proof.
  revert acc. induction e as [|[k' v'] e IH]; intros acc Hd; [done|].
  cbn [map fst distinct] in Hd. apply andb_true_iff in Hd as [Hk Hd].
  apply negb_true_iff in Hk.
  unfold Dict.update in *. cbn [fold_left fst snd Dict.get].
  rewrite (IH _ Hd).
  destruct (String.eqb_spec k k') as [-> | Hne].
  - by rewrite (get_None_keys k' e Hk), get_set_eq.
  - destruct (Dict.get k e); [done|]. apply get_set_ne. congruence.
Qed.





Lemma stored_section_wf (sid field : string) (w : World) (v : json) :
  In field SECTION_NAMES ->
  stored_section sid field w = Some v -> wf v = true.
Proof.
  intros Hf. rewrite stored_section_eq by done.
  destruct (select_latest sid (table w)) as [r|]; [|done]. cbn.
  destruct (row_json r !! col field) as [text|]; [|done]. cbn.
  intros [= <-]. unfold read_back.
  destruct (Codec.loads text) eqn:E; [|done].
  by apply (CodecFacts.loads_wf text).
Qed.

Lemma merge_value_wf (cur : option json) (d : Dict.t json) :
  (forall v, cur = Some v -> wf v = true) -> wf (JDict d) = true ->
  wf (merge_value cur (JDict d)) = true
  /\ decodable_str (merge_value cur (JDict d)) = false.
Proof.
  intros Hcur Hd. unfold merge_value.
  destruct cur as [[| | | | |e]|]; try done.
  split; [|done]. apply CodecFacts.merge_wf; [|done]. by apply Hcur.
Qed.

Section Runs.

Variable clock : nat -> string.
Variable MIN_SUBJECT_ID_LENGTH : nat.
Variable PHYSIOLOGY_MODALITIES : list string.
Variable coordinates_well_formed : json -> bool.
Variable to_dict : Validation.ValidationResult -> json.

Local Abbreviation handler :=
  (capture_metadata_handler clock MIN_SUBJECT_ID_LENGTH PHYSIOLOGY_MODALITIES
     coordinates_well_formed to_dict).

Local Abbreviation run_calls :=
  (run clock MIN_SUBJECT_ID_LENGTH PHYSIOLOGY_MODALITIES
     coordinates_well_formed to_dict).

Lemma run_section (sid field : string) (calls : list Args) (w : World) :
  sid <> EmptyString -> In field metadata_fields ->
  Forall (supplies_mapping sid field) calls ->
  stored_section sid field (run_calls calls w)
  = fold_left merge_into (mappings field calls) (stored_section sid field w).
Proof.
  intros Hne Hfield Hcalls. revert w.
  assert (Hf : In field SECTION_NAMES) by by apply metadata_fields_SECTION_NAMES.
  induction Hcalls as [|a calls [Hs Ha] _ IH]; intros w; [done|].
  cbn [run mappings flat_map]. rewrite IH.
  rewrite (handler_section clock _ _ _ _ a sid field w Hs Hne Hf).
  rewrite (collect_get _ _ Hfield).
  destruct Ha as [-> | (d & -> & Hd)]; cbn [effective app]; [done|].
  cbn [fold_left]. f_equal.
  destruct (merge_value_wf (stored_section sid field w) d) as [Hwf Hdec];
    [ intros v; by apply stored_section_wf | done |].
  by rewrite read_back_serialized.
Qed.


End Runs.

(** The store after a run of calls, for one field of one session. *)
Section Claims.

Variable clock : nat -> string.
Variable MIN_SUBJECT_ID_LENGTH : nat.
Variable PHYSIOLOGY_MODALITIES : list string.
Variable coordinates_well_formed : json -> bool.
Variable to_dict : Validation.ValidationResult -> json.

Local Abbreviation handler :=
  (capture_metadata_handler clock MIN_SUBJECT_ID_LENGTH PHYSIOLOGY_MODALITIES
     coordinates_well_formed to_dict).

Local Abbreviation run_calls :=
  (run clock MIN_SUBJECT_ID_LENGTH PHYSIOLOGY_MODALITIES
     coordinates_well_formed to_dict).


(** C4, as amended.  A call whose [session_id] is missing or empty is
    answered with the [session_id is required] message; a call in which
    every section value is missing or null is answered with the
    [No metadata fields provided] message.  In both cases the handler
    returns with the database as it was. *)
Theorem capture_rejects_without_writing (args : Args) (w : World) :
  ((session_id args = None \/ session_id args = Some EmptyString) ->
   handler args w = (text_content "Error: session_id is required", w))
  /\ (forall sid,
        session_id args = Some sid -> sid <> EmptyString ->
        (forall f, In f metadata_fields ->
                   Dict.get f (fields args) = None
                   \/ Dict.get f (fields args) = Some JNull) ->
        handler args w = (text_content NO_FIELDS_MESSAGE, w)).
Proof.
  split; [apply handler_no_session|].
  intros sid Hs Hne Hall. apply (handler_no_fields _ _ _ _ _ args sid w Hs Hne).
  rewrite collect_eq. generalize (@nil (string * json)).
  induction metadata_fields as [|f fs IH]; intros acc; cbn [fold_left]; [done|].
  assert (Hf : effective (Dict.get f (fields args)) = None)
    by (destruct (Hall f (or_introl eq_refl)) as [-> | ->]; done).
  rewrite Hf. apply IH. intros g Hg. apply Hall. by right.
Qed.

End Claims.


Lemma capture_rejects_without_writing_witness :
  Capture.session_id {| Capture.session_id := Some "lonely-session";
                        Capture.fields := [("subject", JNull)] |}
  = Some "lonely-session"
  /\ "lonely-session" <> EmptyString
  /\ Examples.capture {| Capture.session_id := Some "lonely-session";
                         Capture.fields := [("subject", JNull)] |}
       Examples.one_draft
     = (text_content NO_FIELDS_MESSAGE, Examples.one_draft).
Proof.
  assert (H2 : "lonely-session" <> EmptyString) by discriminate.
  split; [reflexivity|]. split; [exact H2|].
  apply (proj2 (capture_rejects_without_writing Examples.clock
                  Examples.MIN_SUBJECT_ID_LENGTH Examples.PHYSIOLOGY_MODALITIES
                  Examples.coordinates_well_formed Examples.to_dict
                  {| Capture.session_id := Some "lonely-session";
                     Capture.fields := [("subject", JNull)] |}
                  Examples.one_draft) "lonely-session" eq_refl H2).
  intros f Hf. vm_compute in Hf.
  repeat (destruct Hf as [<- | Hf]; [vm_compute; tauto|]). destruct Hf.
Defined.

(** C4, as stated, fails on an empty value that is not null: the only
    section value of the call is the empty mapping, and the call is not
    rejected: it answers [saved] and creates the draft. *)
Lemma capture_empty_mapping_counterexample :
  (forall f, In f metadata_fields ->
     match Dict.get f (Capture.fields Examples.empty_subject) with
     | Some v => truthy v = false
     | None => True
     end)
  /\ fst (Examples.capture Examples.empty_subject Examples.empty)
     = saved_response "s" [("subject", JDict [])]
  /\ fst (Examples.capture Examples.empty_subject Examples.empty)
     <> text_content NO_FIELDS_MESSAGE
  /\ table Examples.empty = []
  /\ stored_text "s" "subject"
       (snd (Examples.capture Examples.empty_subject Examples.empty))
     = Some (Codec.dumps (JDict [])).
Proof.
  split.
  { intros f Hf. vm_compute in Hf.
    repeat (destruct Hf as [<- | Hf]; [by vm_compute|]). destruct Hf. }
  split; [reflexivity|]. split; [|split; reflexivity].
  intros H. vm_compute in H. discriminate H.
Qed.

End CaptureFacts.

(** * Further properties of the store *)

Module StoreLaws.

Import Store StoreFacts.

Lemma leb_refl (s : string) : String.leb s s = true.
Proof. by destruct (String.leb_total s s). Qed.

(** The row that [select_latest] returns is a newest row of the session. *)
Lemma select_latest_newest (sid : string) (rows : list Row) (r : Row) :
  select_latest sid rows = Some r ->
  forall r', In r' rows -> row_session_id r' = sid -> newer_or_equal r r'.
Proof.
  unfold select_latest. intros H r' Hin Hs.
  set (l := List.filter _ rows) in *.
  assert (Hin' : In r' (order_by_created_at_desc l)).
  { apply (Permutation_in _ (Permutation_sym (order_perm l))).
    apply filter_In. split; [exact Hin|]. by apply String.eqb_eq. }
  pose proof (order_sorted l) as Hsort.
  destruct (order_by_created_at_desc l) as [|x xs]; [discriminate|].
  injection H as ->.
  destruct Hin' as [<- | Hin']; [apply leb_refl|].
  apply StronglySorted_inv in Hsort as [_ Hall].
  rewrite List.Forall_forall in Hall. by apply Hall.
Qed.


(** Rows with distinct identifiers: the primary key of the table. *)
Lemma unique_id (rows : list Row) (r r' : Row) :
  NoDup (map row_id rows) -> In r rows -> In r' rows ->
  row_id r = row_id r' -> r = r'.
Proof.
  induction rows as [|x xs IH]; [done|].
  cbn [map]. intros Hnd Hr Hr' Hid.
  apply NoDup_cons in Hnd as [Hx Hnd].
  destruct Hr as [<- | Hr], Hr' as [<- | Hr']; [done| | |by apply IH].
  - exfalso. apply Hx. rewrite Hid. apply list_elem_of_In. by apply in_map.
  - exfalso. apply Hx. rewrite <- Hid. apply list_elem_of_In. by apply in_map.
Qed.

(** An update of the row [i] leaves the current draft of a session whose
    current draft is another row as it is. *)
Lemma select_latest_other (g : Row -> Row) (i : nat) (sid : string)
    (rows : list Row) :
  keeps_keys (fun r => if Nat.eqb (row_id r) i then g r else r) ->
  (forall r, select_latest sid rows = Some r -> row_id r <> i) ->
  select_latest sid (map (fun r => if Nat.eqb (row_id r) i then g r else r) rows)
  = select_latest sid rows.
Proof.
  intros Hk Hne. rewrite (select_latest_map _ _ _ Hk).
  destruct (select_latest sid rows) as [r|] eqn:E; [|done].
  cbn. destruct (Nat.eqb_spec (row_id r) i) as [Hi|]; [|done].
  by destruct (Hne r eq_refl).
Qed.

Lemma other_session_other_id (sid sid' : string) (rows : list Row)
    (row r : Row) :
  NoDup (map row_id rows) -> sid' <> sid ->
  select_latest sid rows = Some row ->
  select_latest sid' rows = Some r -> row_id r <> row_id row.
Proof.
  intros Hnd Hne H H' Hid.
  apply select_latest_In in H as [Hin <-].
  apply select_latest_In in H' as [Hin' <-].
  by rewrite (unique_id rows r row Hnd Hin' Hin Hid) in Hne.
Qed.

(** *** Reading the current draft *)

(** X1.  [get_draft_metadata] changes nothing.  It returns [None] exactly when
    no row belongs to the session, and otherwise a row of the session,
    decoded, than which no row of the session was created later. *)
Theorem get_draft_newest (sid : string) (w : World) :
  snd (get_draft_metadata sid w) = w
  /\ match fst (get_draft_metadata sid w) with
     | None => forall r, In r (table w) -> row_session_id r <> sid
     | Some d =>
         exists r, In r (table w) /\ row_session_id r = sid
                   /\ d = _row_to_dict r
                   /\ forall r', In r' (table w) -> row_session_id r' = sid ->
                        String.leb (row_created_at r') (row_created_at r)
                        = true
     end.
Proof.
  rewrite get_draft_metadata_eq. cbn [fst snd]. split; [done|].
  destruct (select_latest sid (table w)) as [r|] eqn:E; cbn.
  - exists r. destruct (select_latest_In _ _ _ E) as [Hin Hs].
    repeat split; try done.
    intros r' Hin' Hs'. exact (select_latest_newest _ _ _ E r' Hin' Hs').
  - intros r Hin Hs.
    destruct (select_latest_is_Some sid (table w) r Hin Hs) as [x Hx].
    congruence.
Qed.

(** *** Updating a column *)


Lemma update_column_ids (c text t : string) (i : nat) (rows : list Row) :
  map row_id (update_column c text t i rows) = map row_id rows.
Proof.
  unfold update_column. rewrite map_map. apply map_ext.
  intros r. by destruct (Nat.eqb (row_id r) i).
Qed.

Lemma update_column_other (c text t sid sid' : string) (row : Row)
    (rows : list Row) :
  NoDup (map row_id rows) -> sid' <> sid ->
  select_latest sid rows = Some row ->
  select_latest sid' (update_column c text t (row_id row) rows)
  = select_latest sid' rows.
Proof.
  intros Hnd Hne H.
  apply (select_latest_other (with_column c text t) (row_id row) sid' rows
           (with_column_keeps c text t (row_id row))).
  intros r Hr. exact (other_session_other_id sid sid' rows row r Hnd Hne H Hr).
Qed.

(** The table after [update_draft_metadata]: as it was, or with one column
    and [updated_at] of the session's current row rewritten. *)
Lemma update_table (clock : nat -> string) (sid field : string)
    (value : json) (w : World) :
  (table (snd (update_draft_metadata clock sid field value w)) = table w
   /\ ((forall e, fst (update_draft_metadata clock sid field value w)
                  <> UnknownField e) ->
       select_latest sid (table w) = None))
  \/ exists row,
       select_latest sid (table w) = Some row
       /\ table (snd (update_draft_metadata clock sid field value w))
          = update_column (col field) (serialized value) (clock (ticks w))
              (row_id row) (table w).
Proof.
  destruct (negb (mem_str (col field) METADATA_FIELDS)
            && negb (String.eqb (col field) "validation_results_json"))
    eqn:Hv.
  - left. unfold update_draft_metadata. rewrite Hv. cbn. split; [done|].
    intros H. by destruct (H _ eq_refl).
  - rewrite (update_draft_metadata_snd _ _ _ _ _ Hv). cbn [table].
    destruct (select_latest sid (table w)) as [row|]; [right|left].
    + by exists row.
    + done.
Qed.

Lemma update_ids (clock : nat -> string) (sid field : string) (value : json)
    (w : World) :
  map row_id (table (snd (update_draft_metadata clock sid field value w)))
  = map row_id (table w).
Proof.
  destruct (update_table clock sid field value w) as [[-> _] | (row & _ & ->)];
    [done | apply update_column_ids].
Qed.

Lemma update_other_session (clock : nat -> string) (sid sid' field : string)
    (value : json) (w : World) :
  NoDup (map row_id (table w)) -> sid' <> sid ->
  select_latest sid' (table (snd (update_draft_metadata clock sid field value w)))
  = select_latest sid' (table w).
Proof.
  intros Hnd Hne.
  destruct (update_table clock sid field value w) as [[-> _] | (row & H & ->)];
    [done | by apply (update_column_other _ _ _ sid)].
Qed.



(** X3.  An update is confined to one row.  [update_draft_metadata] neither
    adds nor removes a row, and keeps the identifiers distinct; what any
    other session reads as its draft is as before; and for a session
    without a draft it writes nothing and returns no row: it does not
    create the draft. *)
Theorem update_confined (clock : nat -> string) (sid field : string)
    (value : json) (w : World) :
  NoDup (map row_id (table w)) ->
  let w' := snd (update_draft_metadata clock sid field value w) in
  List.length (table w') = List.length (table w)
  /\ NoDup (map row_id (table w'))
  /\ (forall sid', sid' <> sid ->
        fst (get_draft_metadata sid' w') = fst (get_draft_metadata sid' w))
  /\ (select_latest sid (table w) = None ->
      table w' = table w
      /\ forall d, fst (update_draft_metadata clock sid field value w)
                   <> UpdatedRow d).
Proof.
  intros Hnd w'. subst w'. split; [|split; [|split]].
  - rewrite <- (length_map row_id), update_ids. apply length_map.
  - by rewrite update_ids.
  - intros sid' Hne. rewrite !get_draft_metadata_eq. cbn [fst].
    by rewrite (update_other_session _ _ _ _ _ _ Hnd Hne).
  - intros Hnone.
    destruct (update_table clock sid field value w) as [[Ht _] | (row & H & _)];
      [|congruence].
    split; [exact Ht|]. intros d.
    unfold update_draft_metadata.
    destruct (negb (mem_str (col field) METADATA_FIELDS)
              && negb (String.eqb (col field) "validation_results_json"));
      [done|].
    unfold bind, now, get_table, put_table, ret. cbn. by rewrite Hnone.
Qed.

(** *** Confirming a draft *)

Lemma update_confirmed_other (t sid sid' : string) (row : Row)
    (rows : list Row) :
  NoDup (map row_id rows) -> sid' <> sid ->
  select_latest sid rows = Some row ->
  select_latest sid' (update_confirmed t (row_id row) rows)
  = select_latest sid' rows.
Proof.
  intros Hnd Hne H.
  apply (select_latest_other _ (row_id row) sid' rows
           (update_confirmed_keeps t (row_id row))).
  intros r Hr. exact (other_session_other_id sid sid' rows row r Hnd Hne H Hr).
Qed.

(** X4.  [confirm_metadata] returns [None] and writes nothing for a session
    without a draft.  Otherwise it returns the session's draft as it is
    afterwards: the status is [confirmed], [updated_at] is the time of the
    call, and the identifier, [created_at] and all the JSON columns are as
    they were.  No row is added or removed, and what any other session
    reads as its draft is as before. *)
Theorem confirm_marks_current_draft (clock : nat -> string) (sid : string)
    (w : World) :
  NoDup (map row_id (table w)) ->
  let out := confirm_metadata clock sid w in
  match select_latest sid (table w) with
  | None => fst out = None /\ table (snd out) = table w
  | Some row =>
      exists d,
        fst out = Some d
        /\ fst (get_draft_metadata sid (snd out)) = Some d
        /\ d_status d = "confirmed"
        /\ d_updated_at d = clock (ticks w)
        /\ d_json d = d_json (_row_to_dict row)
        /\ d_id d = row_id row
        /\ d_session_id d = sid
        /\ d_created_at d = row_created_at row
  end
  /\ (forall sid', sid' <> sid ->
        fst (get_draft_metadata sid' (snd out))
        = fst (get_draft_metadata sid' w))
  /\ List.length (table (snd out)) = List.length (table w).
Proof.
  intros Hnd out. subst out.
  pose proof (confirm_metadata_table clock sid w) as Ht.
  destruct (select_latest sid (table w)) as [row|] eqn:E.
  - assert (Hcur : select_latest sid (update_confirmed (clock (ticks w))
                                        (row_id row) (table w))
                   = Some {| row_id := row_id row;
                             row_session_id := row_session_id row;
                             row_status := "confirmed";
                             row_json := row_json row;
                             row_created_at := row_created_at row;
                             row_updated_at := clock (ticks w) |}).
    { unfold update_confirmed.
      rewrite (select_latest_map _ _ _
                 (update_confirmed_keeps (clock (ticks w)) (row_id row))), E.
      cbn. by rewrite Nat.eqb_refl. }
    split; [|split].
    + eexists. split.
      { unfold confirm_metadata, bind, now, get_table, put_table, ret.
        cbn [table ticks fst snd]. rewrite E.
        unfold get_draft_metadata, bind, get_table, ret. cbn [table fst snd].
        rewrite Hcur. reflexivity. }
      split.
      { rewrite get_draft_metadata_eq, Ht. cbn [fst]. by rewrite Hcur. }
      cbn. repeat split. by destruct (select_latest_In _ _ _ E).
    + intros sid' Hne. rewrite !get_draft_metadata_eq, Ht. cbn [fst].
      by rewrite (update_confirmed_other _ sid sid' row _ Hnd Hne E).
    + rewrite Ht. unfold update_confirmed. apply length_map.
  - split; [|split].
    + split; [|exact Ht].
      unfold confirm_metadata, bind, now, get_table, put_table, ret.
      cbn [table ticks fst snd]. by rewrite E.
    + intros sid' Hne. by rewrite !get_draft_metadata_eq, Ht.
    + by rewrite Ht.
Qed.

(** *** Creating a draft *)



(** *** Listing by status *)

Lemma insert_desc_front (r : Row) (l : list Row) :
  (forall y, In y l -> newer_or_equal r y) -> insert_desc r l = r :: l.
Proof.
  destruct l as [|x xs]; [done|]. intros H. cbn [insert_desc].
  by rewrite (H x (or_introl eq_refl)).
Qed.

Lemma filter_insert_desc (p : Row -> bool) (r : Row) (l : list Row) :
  StronglySorted newer_or_equal l ->
  List.filter p (insert_desc r l)
  = if p r then insert_desc r (List.filter p l) else List.filter p l.
Proof.
  induction 1 as [|x xs Hs IH Hall]; cbn [insert_desc List.filter].
  { by destruct (p r). }
  rewrite List.Forall_forall in Hall.
  destruct (String.leb (row_created_at x) (row_created_at r)) eqn:E.
  - cbn [List.filter]. destruct (p r) eqn:Hr; [|done].
    rewrite insert_desc_front; [done|].
    intros y Hy. unfold newer_or_equal.
    assert (Hyx : String.leb (row_created_at y) (row_created_at x) = true).
    { destruct (p x).
      - destruct Hy as [<- | Hy]; [apply leb_refl|].
        apply filter_In in Hy as [Hy _]. by apply Hall.
      - apply filter_In in Hy as [Hy _]. by apply Hall. }
    exact (leb_trans _ _ _ Hyx E).
  - cbn [List.filter]. rewrite IH.
    destruct (p x), (p r); cbn [insert_desc]; by rewrite ?E.
Qed.

(** Selecting rows and ordering them commute. *)
Lemma order_filter (p : Row -> bool) (l : list Row) :
  order_by_created_at_desc (List.filter p l)
  = List.filter p (order_by_created_at_desc l).
Proof.
  induction l as [|a l IH]; [done|].
  cbn [List.filter order_by_created_at_desc fold_right].
  fold (order_by_created_at_desc l).
  rewrite (filter_insert_desc p a _ (order_sorted l)).
  destruct (p a); [|exact IH].
  cbn [order_by_created_at_desc fold_right].
  fold (order_by_created_at_desc (List.filter p l)). by rewrite IH.
Qed.

Lemma filter_row_to_dict (p : Draft -> bool) (l : list Row) :
  List.filter p (map _row_to_dict l)
  = map _row_to_dict (List.filter (fun r => p (_row_to_dict r)) l).
Proof.
  induction l as [|a l IH]; [done|]. cbn [map List.filter].
  destruct (p (_row_to_dict a)); cbn [map]; by rewrite IH.
Qed.

(** X6.  [list_all_drafts] changes nothing.  With a status, it returns the
    drafts of that status out of the full listing, in the order of the
    full listing; the empty string is no filter. *)
Theorem list_status_filter (st : string) (w : World) :
  snd (list_all_drafts (Some st) w) = w
  /\ fst (list_all_drafts (Some st) w)
     = if String.eqb st EmptyString
       then fst (list_all_drafts None w)
       else List.filter (fun d => String.eqb (d_status d) st)
              (fst (list_all_drafts None w)).
Proof.
  rewrite list_all_drafts_eq. unfold list_all_drafts, bind, get_table, ret.
  cbn [fst snd]. destruct (String.eqb st EmptyString); cbn [negb fst snd].
  - done.
  - split; [done|]. by rewrite order_filter, filter_row_to_dict.
Qed.

(** *** The properties at concrete inputs *)


Lemma update_confined_witness :
  NoDup (map row_id (table Examples.two_drafts))
  /\ List.length
       (table (snd (update_draft_metadata Examples.clock "t" "subject"
                      (JStr "x") Examples.two_drafts)))
     = List.length (table Examples.two_drafts)
  /\ (select_latest "t" (table Examples.two_drafts) = None ->
      table (snd (update_draft_metadata Examples.clock "t" "subject"
                    (JStr "x") Examples.two_drafts))
      = table Examples.two_drafts).
Proof.
  assert (H1 : NoDup (map row_id (table Examples.two_drafts)))
    by (apply (bool_decide_unpack _); by vm_compute).
  split; [exact H1|].
  destruct (update_confined Examples.clock "t" "subject" (JStr "x")
              Examples.two_drafts H1) as (Hl & _ & _ & Hn).
  split; [exact Hl|]. intros H. exact (proj1 (Hn H)).
Defined.

Lemma confirm_marks_current_draft_witness :
  NoDup (map row_id (table Examples.two_drafts))
  /\ forall sid', sid' <> "s" ->
       fst (get_draft_metadata sid'
              (snd (confirm_metadata Examples.clock "s" Examples.two_drafts)))
       = fst (get_draft_metadata sid' Examples.two_drafts).
Proof.
  assert (H1 : NoDup (map row_id (table Examples.two_drafts)))
    by (apply (bool_decide_unpack _); by vm_compute).
  split; [exact H1|].
  exact (proj1 (proj2 (confirm_marks_current_draft Examples.clock "s"
                         Examples.two_drafts H1))).
Defined.


End StoreLaws.

(** * Further properties of the capture orchestrator *)

Module CaptureLaws.

Import Store Capture StoreFacts StoreLaws CaptureFacts.

(** *** What a call collects *)





(** *** The rows that a call touches *)

Lemma fresh_id_above (rows : list Row) (r : Row) :
  In r rows -> row_id r < fresh_id rows.
Proof.
  unfold fresh_id. induction rows as [|x xs IH]; [done|].
  cbn [map fold_right]. intros [<- | H]; [lia|].
  specialize (IH H). lia.
Qed.

Lemma append_fresh_NoDup (rows : list Row) (new : Row) :
  row_id new = fresh_id rows ->
  NoDup (map row_id rows) -> NoDup (map row_id (rows ++ [new])).
Proof.
  intros Hid Hnd. rewrite map_app. cbn [map].
  apply NoDup_app. split; [exact Hnd|]. split.
  - intros i Hi [-> | []%elem_of_nil]%elem_of_cons.
    apply list_elem_of_In, in_map_iff in Hi as (r & Hr & Hin).
    pose proof (fresh_id_above rows r Hin). lia.
  - apply NoDup_singleton.
Qed.

Lemma select_latest_app_other (sid' : string) (rows : list Row) (new : Row) :
  row_session_id new <> sid' ->
  select_latest sid' (rows ++ [new]) = select_latest sid' rows.
Proof.
  intros Hne. unfold select_latest. rewrite List.filter_app.
  cbn [List.filter]. apply String.eqb_neq in Hne. rewrite Hne.
  by rewrite app_nil_r.
Qed.

Lemma update_column_sessions (c text t : string) (i : nat) (rows : list Row) :
  map row_session_id (update_column c text t i rows) = map row_session_id rows.
Proof.
  unfold update_column. rewrite map_map. apply map_ext.
  intros r. by destruct (Nat.eqb (row_id r) i).
Qed.

Lemma update_sessions (clock : nat -> string) (sid field : string)
    (value : json) (w : World) :
  map row_session_id
    (table (snd (update_draft_metadata clock sid field value w)))
  = map row_session_id (table w).
Proof.
  destruct (update_table clock sid field value w) as [[-> _] | (row & _ & ->)];
    [done | apply update_column_sessions].
Qed.

Lemma merge_fields_rows (clock : nat -> string) (sid : string) (draft : Draft)
    (md : Dict.t json) (w : World) :
  map row_id (table (snd (merge_fields clock sid draft md w)))
  = map row_id (table w)
  /\ map row_session_id (table (snd (merge_fields clock sid draft md w)))
     = map row_session_id (table w)
  /\ (NoDup (map row_id (table w)) ->
      forall sid', sid' <> sid ->
        select_latest sid' (table (snd (merge_fields clock sid draft md w)))
        = select_latest sid' (table w)).
Proof.
  revert w. induction md as [|[field value] md IH]; intros w; [done|].
  cbn [merge_fields]. unfold bind. rewrite merge_field_eq.
  set (v := merge_value _ value).
  pose proof (update_ids clock sid field v w) as Hids.
  pose proof (update_sessions clock sid field v w) as Hss.
  pose proof (update_other_session clock sid) as Hother.
  destruct (update_draft_metadata clock sid field v w) as [u w1] eqn:E.
  cbn [snd] in *. destruct (IH w1) as (IH1 & IH2 & IH3).
  split; [by rewrite IH1|]. split; [by rewrite IH2|].
  intros Hnd sid' Hne. rewrite IH3 by (by rewrite ?Hids).
  specialize (Hother sid' field v w Hnd Hne). by rewrite E in Hother.
Qed.

Section OneCallMore.

Variable clock : nat -> string.
Variable MIN_SUBJECT_ID_LENGTH : nat.
Variable PHYSIOLOGY_MODALITIES : list string.
Variable coordinates_well_formed : json -> bool.
Variable to_dict : Validation.ValidationResult -> json.

Local Abbreviation handler :=
  (capture_metadata_handler clock MIN_SUBJECT_ID_LENGTH PHYSIOLOGY_MODALITIES
     coordinates_well_formed to_dict).

Local Abbreviation validation_of d :=
  (to_dict
     (Validation.validate_metadata MIN_SUBJECT_ID_LENGTH PHYSIOLOGY_MODALITIES
        coordinates_well_formed (bare_metadata d))).

(** A call is rejected and changes nothing, or is accepted. *)
Lemma handler_cases (args : Args) (w : World) :
  snd (handler args w) = w
  \/ exists sid, session_id args = Some sid /\ sid <> EmptyString
                 /\ collect (fields args) <> [].
Proof.
  destruct (session_id args) as [sid|] eqn:Hs.
  - destruct (String.eqb_spec sid EmptyString) as [-> | Hne].
    + left. by rewrite handler_no_session by (by right).
    + destruct (collect (fields args)) as [|kv md] eqn:Hmd.
      * left. by rewrite (handler_no_fields _ _ _ _ _ args sid w Hs Hne Hmd).
      * right. by exists sid.
  - left. by rewrite handler_no_session by (by left).
Qed.

(** The table after the first step of an accepted call. *)
Lemma first_step_rows (sid : string) (md : Dict.t json) (w : World) :
  let w1 :=
    match select_latest sid (table w) with
    | None => snd (save_draft_metadata clock sid md w)
    | Some row => snd (merge_fields clock sid (_row_to_dict row) md w)
    end in
  (NoDup (map row_id (table w)) ->
   NoDup (map row_id (table w1))
   /\ forall sid', sid' <> sid ->
        select_latest sid' (table w1) = select_latest sid' (table w))
  /\ (NoDup (map row_session_id (table w)) ->
      NoDup (map row_session_id (table w1)))
  /\ List.length (table w1)
     = List.length (table w)
       + match select_latest sid (table w) with Some _ => 0 | None => 1 end.
Proof.
  destruct (select_latest sid (table w)) as [row|] eqn:E; cbn zeta.
  - destruct (merge_fields_rows clock sid (_row_to_dict row) md w)
      as (H1 & H2 & H3).
    split; [|split].
    + intros Hnd. rewrite H1. split; [exact Hnd | by apply H3].
    + by rewrite H2.
    + rewrite <- (length_map row_id), H1, length_map. lia.
  - rewrite save_draft_metadata_eq. cbn zeta. cbn [snd table].
    split; [|split].
    + intros Hnd. split; [by apply append_fresh_NoDup|].
      intros sid' Hne. apply select_latest_app_other. cbn. congruence.
    + intros Hnd. rewrite map_app. cbn [map row_session_id].
      apply NoDup_app. split; [exact Hnd|]. split; [|apply NoDup_singleton].
      intros s Hs [-> | []%elem_of_nil]%elem_of_cons.
      apply list_elem_of_In, in_map_iff in Hs as (r & Hr & Hin).
      destruct (select_latest_is_Some sid (table w) r Hin Hr) as [x Hx].
      congruence.
    + rewrite length_app. cbn. lia.
Qed.





(** *** A call is confined to its session *)

(** X7.  A capture call keeps the identifiers of the rows distinct, and what
    any session other than the one named in the call reads as its draft
    is as before. *)
Theorem capture_confined_to_session (args : Args) (w : World) :
  NoDup (map row_id (table w)) ->
  NoDup (map row_id (table (snd (handler args w))))
  /\ (forall sid', session_id args <> Some sid' ->
        fst (get_draft_metadata sid' (snd (handler args w)))
        = fst (get_draft_metadata sid' w)).
Proof.
  intros Hnd.
  destruct (handler_cases args w) as [-> | (sid & Hs & Hne & Hmd)]; [done|].
  rewrite (handler_snd _ _ _ _ _ args sid w Hs Hne Hmd). cbn zeta.
  destruct (first_step_rows sid (collect (fields args)) w) as (H1 & _ & _).
  destruct (H1 Hnd) as [Hnd1 Hother]. clear H1.
  set (w1 := match select_latest sid (table w) with
             | None => _ | Some row => _ end) in *.
  destruct (select_latest sid (table w1)) as [u|].
  - split; [by rewrite update_ids|].
    intros sid' Hne'. rewrite !get_draft_metadata_eq. cbn [fst].
    assert (Hd : sid' <> sid) by congruence.
    by rewrite (update_other_session _ _ _ _ _ _ Hnd1 Hd), (Hother _ Hd).
  - split; [exact Hnd1|].
    intros sid' Hne'. rewrite !get_draft_metadata_eq. cbn [fst].
    assert (Hd : sid' <> sid) by congruence.
    by rewrite (Hother _ Hd).
Qed.

(** X8.  A capture call adds a row only for a session that has none: a table
    with at most one row per session stays so, a call adds at most one
    row, and none when its session has a draft. *)
Theorem capture_one_row_per_session (args : Args) (w : World) :
  NoDup (map row_session_id (table w)) ->
  NoDup (map row_session_id (table (snd (handler args w))))
  /\ List.length (table (snd (handler args w))) <= S (List.length (table w))
  /\ (forall sid, session_id args = Some sid ->
        is_Some (select_latest sid (table w)) ->
        List.length (table (snd (handler args w))) = List.length (table w)).
Proof.
  intros Hnd.
  destruct (handler_cases args w) as [-> | (sid & Hs & Hne & Hmd)].
  { split; [exact Hnd|]. split; [lia | done]. }
  rewrite (handler_snd _ _ _ _ _ args sid w Hs Hne Hmd). cbn zeta.
  destruct (first_step_rows sid (collect (fields args)) w) as (_ & H2 & H3).
  specialize (H2 Hnd).
  set (w1 := match select_latest sid (table w) with
             | None => _ | Some row => _ end) in *.
  assert (Hfinal :
    forall w2,
      w2 = match select_latest sid (table w1) with
           | Some u =>
               snd (update_draft_metadata clock sid "validation_results"
                      (validation_of (_row_to_dict u)) w1)
           | None => w1
           end ->
      map row_session_id (table w2) = map row_session_id (table w1)
      /\ List.length (table w2) = List.length (table w1)).
  { intros w2 ->. destruct (select_latest sid (table w1)) as [u|]; [|done].
    split; [apply update_sessions|].
    rewrite <- (length_map row_id), update_ids. apply length_map. }
  destruct (Hfinal _ eq_refl) as [Hss Hlen]. rewrite Hss, Hlen, H3.
  split; [exact H2|]. split.
  - destruct (select_latest sid (table w)); lia.
  - intros sid0 Hs0 [r Hr]. assert (sid0 = sid) as -> by congruence.
    rewrite Hr. lia.
Qed.

(** *** Validation after every accepted call *)


(** *** Arguments that arrive as text *)


(** *** The answer of an accepted call *)


End OneCallMore.

(** *** The properties at concrete inputs *)

Lemma capture_confined_to_session_witness :
  NoDup (map row_id (table Examples.one_draft))
  /\ NoDup (map row_id
              (table (snd (Examples.capture Samples.subject_call
                             Examples.one_draft))))
  /\ fst (get_draft_metadata "t"
            (snd (Examples.capture Samples.subject_call Examples.one_draft)))
     = fst (get_draft_metadata "t" Examples.one_draft).
Proof.
  assert (H1 : NoDup (map row_id (table Examples.one_draft)))
    by (apply (bool_decide_unpack _); by vm_compute).
  split; [exact H1|].
  destruct (capture_confined_to_session Examples.clock
              Examples.MIN_SUBJECT_ID_LENGTH Examples.PHYSIOLOGY_MODALITIES
              Examples.coordinates_well_formed Examples.to_dict
              Samples.subject_call Examples.one_draft H1) as [Hnd Hother].
  split; [exact Hnd|]. apply Hother. discriminate.
Defined.

Lemma capture_one_row_per_session_witness :
  NoDup (map row_session_id (table Examples.one_draft))
  /\ NoDup (map row_session_id
              (table (snd (Examples.capture Samples.subject_call
                             Examples.one_draft))))
  /\ List.length
       (table (snd (Examples.capture Samples.subject_call Examples.one_draft)))
     <= S (List.length (table Examples.one_draft)).
Proof.
  assert (H1 : NoDup (map row_session_id (table Examples.one_draft)))
    by (apply (bool_decide_unpack _); by vm_compute).
  split; [exact H1|].
  destruct (capture_one_row_per_session Examples.clock
              Examples.MIN_SUBJECT_ID_LENGTH Examples.PHYSIOLOGY_MODALITIES
              Examples.coordinates_well_formed Examples.to_dict
              Samples.subject_call Examples.one_draft H1) as (Hnd & Hle & _).
  split; [exact Hnd | exact Hle].
Defined.




(** *** What a call never changes *)

Lemma update_column_fixed (c text t : string) (i : nat) (rows : list Row) :
  map (fun r => (row_id r, row_session_id r, row_status r, row_created_at r))
    (update_column c text t i rows)
  = map (fun r => (row_id r, row_session_id r, row_status r, row_created_at r))
      rows.
Proof.
  unfold update_column. rewrite map_map. apply map_ext.
  intros r. by destruct (Nat.eqb (row_id r) i).
Qed.

Lemma update_fixed (clock : nat -> string) (sid field : string) (value : json)
    (w : World) :
  map (fun r => (row_id r, row_session_id r, row_status r, row_created_at r))
    (table (snd (update_draft_metadata clock sid field value w)))
  = map (fun r => (row_id r, row_session_id r, row_status r, row_created_at r))
      (table w).
Proof.
  destruct (update_table clock sid field value w) as [[-> _] | (row & _ & ->)];
    [done | apply update_column_fixed].
Qed.

Lemma merge_fields_fixed (clock : nat -> string) (sid : string) (draft : Draft)
    (md : Dict.t json) (w : World) :
  map (fun r => (row_id r, row_session_id r, row_status r, row_created_at r))
    (table (snd (merge_fields clock sid draft md w)))
  = map (fun r => (row_id r, row_session_id r, row_status r, row_created_at r))
      (table w).
Proof.
  revert w. induction md as [|[field value] md IH]; intros w; [done|].
  cbn [merge_fields]. unfold bind. rewrite merge_field_eq.
  set (v := merge_value _ value).
  pose proof (update_fixed clock sid field v w) as Hu.
  destruct (update_draft_metadata clock sid field v w) as [u w1].
  cbn [snd] in *. by rewrite IH.
Qed.

Section WhatStays.

Variable clock : nat -> string.
Variable MIN_SUBJECT_ID_LENGTH : nat.
Variable PHYSIOLOGY_MODALITIES : list string.
Variable coordinates_well_formed : json -> bool.
Variable to_dict : Validation.ValidationResult -> json.

Local Abbreviation handler :=
  (capture_metadata_handler clock MIN_SUBJECT_ID_LENGTH PHYSIOLOGY_MODALITIES
     coordinates_well_formed to_dict).

(** X12.  A capture call rewrites JSON columns and [updated_at], and nothing
    else.  Every row keeps its place, its identifier, its session, its
    status and its [created_at]: no row is deleted, and a confirmed draft
    stays confirmed.  The only row that can be added is a first draft of
    the session of the call, with status [draft], created at the time of
    the call. *)
Theorem capture_rewrites_json_columns_only (args : Args) (w : World) :
  exists added,
    map (fun r => (row_id r, row_session_id r, row_status r, row_created_at r))
      (table (snd (handler args w)))
    = map (fun r => (row_id r, row_session_id r, row_status r,
                     row_created_at r))
        (table w) ++ added
    /\ (added = []
        \/ exists sid,
             session_id args = Some sid
             /\ fst (get_draft_metadata sid w) = None
             /\ added = [(fresh_id (table w), sid, "draft", clock (ticks w))]).
Proof.
  destruct (handler_cases clock MIN_SUBJECT_ID_LENGTH PHYSIOLOGY_MODALITIES
              coordinates_well_formed to_dict args w)
    as [-> | (sid & Hs & Hne & Hmd)].
  { exists []. split; [by rewrite app_nil_r | by left]. }
  rewrite (handler_snd _ _ _ _ _ args sid w Hs Hne Hmd). cbn zeta.
  set (w1 := match select_latest sid (table w) with
             | None => _ | Some row => _ end).
  assert (H1 : exists added,
             map (fun r => (row_id r, row_session_id r, row_status r,
                            row_created_at r)) (table w1)
             = map (fun r => (row_id r, row_session_id r, row_status r,
                              row_created_at r)) (table w) ++ added
             /\ (added = []
                 \/ select_latest sid (table w) = None
                    /\ added = [(fresh_id (table w), sid, "draft",
                                 clock (ticks w))])).
  { subst w1. destruct (select_latest sid (table w)) as [row|].
    - exists []. rewrite merge_fields_fixed, app_nil_r. split; [done | by left].
    - eexists. rewrite save_draft_metadata_eq. cbn zeta. cbn [snd table].
      rewrite map_app. split; [reflexivity|]. right. by split. }
  destruct H1 as (added & Hmap & Hadded). exists added. split.
  - destruct (select_latest sid (table w1)) as [u|]; [|exact Hmap].
    by rewrite update_fixed.
  - destruct Hadded as [-> | [Hnone ->]]; [by left | right].
    exists sid. split; [exact Hs|]. split; [|done].
    rewrite get_draft_metadata_eq. cbn [fst]. by rewrite Hnone.
Qed.

End WhatStays.

(** *** Repeating a call *)

Lemma set_same {A} (k : string) (v : A) (d : Dict.t A) :
  Dict.get k d = Some v -> Dict.set k v d = d.
Proof.
  induction d as [|[k' v'] d IH]; cbn [Dict.get Dict.set]; [done|].
  destruct (String.eqb k k'); [by intros [= ->] | intros H; by rewrite IH].
Qed.

Lemma update_same {A} (acc e : Dict.t A) :
  (forall k v, In (k, v) e -> Dict.get k acc = Some v) ->
  Dict.update acc e = acc.
Proof.
  unfold Dict.update. induction e as [|[k v] e IH]; intros H; [done|].
  cbn [fold_left fst snd]. rewrite set_same by (apply H; by left).
  apply IH. intros k' v' Hin. apply H. by right.
Qed.

Lemma get_In_distinct {A} (d : Dict.t A) (k : string) (v : A) :
  distinct (map fst d) = true -> In (k, v) d -> Dict.get k d = Some v.
Proof.
  induction d as [|[k' v'] d IH]; [done|].
  cbn [map fst distinct Dict.get]. intros [Hk Hd]%andb_true_iff [[= -> ->] | Hin].
  - by rewrite String.eqb_refl.
  - destruct (String.eqb_spec k k') as [-> | _]; [|by apply IH].
    apply negb_true_iff in Hk.
    assert (Hex : existsb (String.eqb k') (map fst d) = true).
    { apply existsb_exists. exists k'. split; [|apply String.eqb_refl].
      apply in_map_iff. by exists (k', v). }
    congruence.
Qed.

Lemma merge_again (acc e : Dict.t json) :
  distinct (map fst e) = true ->
  Dict.merge (Dict.merge acc e) e = Dict.merge acc e.
Proof.
  intros Hd. unfold Dict.merge. apply update_same. intros k v Hin.
  rewrite (get_update k e acc Hd). by rewrite (get_In_distinct e k v Hd Hin).
Qed.

Lemma merge_self (e : Dict.t json) :
  distinct (map fst e) = true -> Dict.merge e e = e.
Proof.
  intros Hd. unfold Dict.merge. apply update_same. intros k v Hin.
  by apply get_In_distinct.
Qed.

Lemma merge_value_again (cur : option json) (d : Dict.t json) :
  wf (JDict d) = true ->
  merge_value (Some (merge_value cur (JDict d))) (JDict d)
  = merge_value cur (JDict d).
Proof.
  intros Hwf. cbn [wf] in Hwf. apply andb_true_iff in Hwf as [Hd _].
  destruct cur as [[| | | | |e]|]; cbn [merge_value];
    by rewrite ?merge_again, ?merge_self.
Qed.

Section Repeating.

Variable clock : nat -> string.
Variable MIN_SUBJECT_ID_LENGTH : nat.
Variable PHYSIOLOGY_MODALITIES : list string.
Variable coordinates_well_formed : json -> bool.
Variable to_dict : Validation.ValidationResult -> json.

Local Abbreviation run_calls :=
  (run clock MIN_SUBJECT_ID_LENGTH PHYSIOLOGY_MODALITIES
     coordinates_well_formed to_dict).

(** X13.  Repeating a capture call changes no section: for a section that the
    call supplies as a mapping or not at all, the draft of the session
    holds after the call made twice what it holds after the call made
    once. *)
Theorem capture_repeat_keeps_sections (args : Args) (sid field : string)
    (w : World) :
  sid <> EmptyString ->
  In field metadata_fields ->
  supplies_mapping sid field args ->
  stored_section sid field (run_calls [args; args] w)
  = stored_section sid field (run_calls [args] w).
Proof.
  intros Hne Hf Ha.
  rewrite !(run_section clock MIN_SUBJECT_ID_LENGTH PHYSIOLOGY_MODALITIES
              coordinates_well_formed to_dict sid field _ w Hne Hf)
    by (repeat apply List.Forall_cons; try apply List.Forall_nil; exact Ha).
  unfold mappings. cbn [flat_map]. rewrite app_nil_r.
  destruct Ha as [_ [-> | (d & -> & Hwf)]]; [done|].
  cbn [app fold_left]. unfold merge_into. f_equal.
  by apply merge_value_again.
Qed.

End Repeating.

Lemma capture_rewrites_json_columns_only_witness :
  exists added,
    map (fun r => (row_id r, row_session_id r, row_status r, row_created_at r))
      (table (snd (Examples.capture Samples.subject_call Examples.empty)))
    = added
    /\ added = [(1, "s", "draft", Examples.clock 0)].
Proof.
  destruct (capture_rewrites_json_columns_only Examples.clock
              Examples.MIN_SUBJECT_ID_LENGTH Examples.PHYSIOLOGY_MODALITIES
              Examples.coordinates_well_formed Examples.to_dict
              Samples.subject_call Examples.empty) as (added & Hmap & Hadd).
  exists added. split; [exact Hmap|].
  destruct Hadd as [-> | (sid & Hs & _ & ->)].
  - apply (f_equal (@List.length _)) in Hmap. by vm_compute in Hmap.
  - by injection Hs as <-.
Defined.

Lemma capture_repeat_keeps_sections_witness :
  "s" <> EmptyString
  /\ In "subject" metadata_fields
  /\ supplies_mapping "s" "subject" Samples.subject_call
  /\ stored_section "s" "subject"
       (Examples.run [Samples.subject_call; Samples.subject_call]
          Examples.one_draft)
     = stored_section "s" "subject"
         (Examples.run [Samples.subject_call] Examples.one_draft).
Proof.
  assert (H1 : "s" <> EmptyString) by discriminate.
  assert (H2 : In "subject" metadata_fields) by (vm_compute; tauto).
  assert (H3 : supplies_mapping "s" "subject" Samples.subject_call).
  { split; [reflexivity|]. right. eexists. split; reflexivity. }
  split; [exact H1|]. split; [exact H2|]. split; [exact H3|].
  exact (capture_repeat_keeps_sections Examples.clock
           Examples.MIN_SUBJECT_ID_LENGTH Examples.PHYSIOLOGY_MODALITIES
           Examples.coordinates_well_formed Examples.to_dict
           Samples.subject_call "s" "subject" Examples.one_draft H1 H2 H3).
Defined.

End CaptureLaws.

(** * Conversations and whole sessions *)

Module SessionsFacts.

Import Store StoreFacts StoreLaws Sessions.

(** *** Ordering the turns *)

Lemma insert_asc_perm (t : Turn) (l : list Turn) :
  Permutation (insert_asc t l) (t :: l).
Proof.
  induction l as [|x xs IH]; cbn [insert_asc]; [done|].
  destruct (String.leb (turn_created_at t) (turn_created_at x)); [done|].
  rewrite IH. apply perm_swap.
Qed.

Lemma order_asc_perm (l : list Turn) :
  Permutation (order_by_created_at_asc l) l.
Proof.
  induction l as [|x xs IH]; [done|].
  cbn [order_by_created_at_asc fold_right].
  rewrite insert_asc_perm. by apply perm_skip.
Qed.

Lemma insert_asc_sorted (t : Turn) (l : list Turn) :
  StronglySorted turn_older_or_equal l ->
  StronglySorted turn_older_or_equal (insert_asc t l).
Proof.
  induction 1 as [|x xs Hs IH Hall]; cbn [insert_asc].
  { constructor; [constructor | apply List.Forall_nil]. }
  rewrite List.Forall_forall in Hall.
  destruct (String.leb (turn_created_at t) (turn_created_at x)) eqn:E.
  - constructor; [by constructor; [|apply List.Forall_forall]|].
    apply List.Forall_cons; [exact E|]. apply List.Forall_forall.
    intros y Hy. exact (leb_trans _ _ _ E (Hall y Hy)).
  - constructor; [exact IH|]. apply List.Forall_forall. intros y Hy.
    apply (Permutation_in _ (insert_asc_perm t xs)) in Hy as [<- | Hy].
    + unfold turn_older_or_equal.
      destruct (String.leb_total (turn_created_at x) (turn_created_at t));
        congruence.
    + by apply Hall.
Qed.

Lemma order_asc_sorted (l : list Turn) :
  StronglySorted turn_older_or_equal (order_by_created_at_asc l).
Proof.
  induction l as [|x xs IH]; [constructor|].
  cbn [order_by_created_at_asc fold_right]. by apply insert_asc_sorted.
Qed.

Lemma sorted_messages (l : list Turn) :
  StronglySorted turn_older_or_equal l ->
  StronglySorted older_or_equal (map to_message l).
Proof.
  induction 1 as [|x xs Hs IH Hall]; cbn [map]; constructor; [exact IH|].
  rewrite List.Forall_forall in *. intros m Hm.
  apply in_map_iff in Hm as (y & <- & Hy). exact (Hall y Hy).
Qed.

(** A turn that is later than all the others goes last. *)
Lemma insert_asc_front (t : Turn) (l : list Turn) :
  (forall y, In y l -> turn_older_or_equal t y) -> insert_asc t l = t :: l.
Proof.
  destruct l as [|x xs]; [done|]. intros H. cbn [insert_asc].
  by rewrite (H x (or_introl eq_refl)).
Qed.

Lemma insert_asc_last (t new : Turn) (l : list Turn) :
  String.leb (turn_created_at t) (turn_created_at new) = true ->
  insert_asc t (l ++ [new]) = insert_asc t l ++ [new].
Proof.
  intros Hle. induction l as [|x xs IH]; cbn [app insert_asc].
  - by rewrite Hle.
  - destruct (String.leb (turn_created_at t) (turn_created_at x)); [done|].
    by rewrite IH.
Qed.

Lemma order_asc_last (l : list Turn) (new : Turn) :
  (forall y, In y l ->
     String.leb (turn_created_at y) (turn_created_at new) = true) ->
  order_by_created_at_asc (l ++ [new]) = order_by_created_at_asc l ++ [new].
Proof.
  induction l as [|x xs IH]; intros H; [done|].
  cbn [app order_by_created_at_asc fold_right].
  fold (order_by_created_at_asc (xs ++ [new])).
  fold (order_by_created_at_asc xs).
  rewrite IH by (intros y Hy; apply H; by right).
  apply insert_asc_last. apply H. by left.
Qed.

(** *** Selecting by session *)

Lemma filter_filter_sub {A} (p q : A -> bool) (l : list A) :
  (forall x, p x = true -> q x = true) ->
  List.filter p (List.filter q l) = List.filter p l.
Proof.
  intros H. induction l as [|x xs IH]; [done|]. cbn [List.filter].
  destruct (q x) eqn:Hq; cbn [List.filter]; [by rewrite IH|].
  destruct (p x) eqn:Hp; [|exact IH].
  rewrite (H x Hp) in Hq. discriminate.
Qed.

Lemma filter_filter_none {A} (p q : A -> bool) (l : list A) :
  (forall x, q x = true -> p x = false) ->
  List.filter p (List.filter q l) = [].
Proof.
  intros H. induction l as [|x xs IH]; [done|]. cbn [List.filter].
  destruct (q x) eqn:Hq; cbn [List.filter]; [|exact IH].
  by rewrite (H x Hq).
Qed.

Lemma on_drafts_get (sid : string) (db : Db) :
  fst (on_drafts (get_draft_metadata sid) db)
  = _row_to_dict <$> select_latest sid (table (drafts db)).
Proof. unfold on_drafts. by rewrite get_draft_metadata_eq. Qed.

Lemma history_nil (sid : string) (db : Db) :
  fst (get_conversation_history sid db) = []
  <-> List.filter (of_session sid) (conversations db) = [].
Proof.
  cbn [get_conversation_history fst]. split.
  - intros H. apply map_eq_nil in H.
    apply Permutation_nil. rewrite <- H. apply order_asc_perm.
  - by intros ->.
Qed.

(** *** Reading a conversation *)

(** X14.  [get_conversation_history] changes nothing, and returns exactly the
    turns of the session, each once, oldest first. *)
Theorem history_of_session_in_order (sid : string) (db : Db) :
  snd (get_conversation_history sid db) = db
  /\ Permutation (fst (get_conversation_history sid db)) (messages_of sid db)
  /\ StronglySorted older_or_equal (fst (get_conversation_history sid db)).
Proof.
  cbn [get_conversation_history fst snd]. split; [done|]. split.
  - unfold messages_of. apply Permutation_map, order_asc_perm.
  - apply sorted_messages, order_asc_sorted.
Qed.

(** *** Saving a turn *)

(** X15.  [save_conversation_turn] with a role other than [user] and
    [assistant] raises and stores nothing.  With one of the two it stores
    one turn of the session, stamped by the clock of the database, and
    touches neither the drafts nor the conversation of any other session;
    when the clock reading is later than every turn of the session, the
    new turn is the last of the history that is read next. *)
Theorem save_turn_appends (db_clock : nat -> string)
    (sid role content : string) (db : Db) :
  let out := save_conversation_turn db_clock sid role content db in
  (role <> "user" -> role <> "assistant" -> out = (IntegrityError, db))
  /\ (forall r, role_of_string role = Some r ->
        let new := {| Sessions.role := r;
                      Sessions.content := content;
                      created_at := db_clock (db_ticks db) |} in
        fst out = Returned tt
        /\ drafts (snd out) = drafts db
        /\ messages_of sid (snd out) = messages_of sid db ++ [new]
        /\ (forall sid', sid' <> sid ->
              fst (get_conversation_history sid' (snd out))
              = fst (get_conversation_history sid' db))
        /\ ((forall m, In m (messages_of sid db) ->
               String.leb (db_clock (db_ticks db)) (created_at m) = false) ->
            fst (get_conversation_history sid (snd out))
            = fst (get_conversation_history sid db) ++ [new])).
Proof.
  intros out. subst out. unfold save_conversation_turn. split.
  - intros H1 H2. unfold role_of_string.
    apply String.eqb_neq in H1, H2. by rewrite H1, H2.
  - intros r ->. cbn [fst snd drafts].
    split; [done|]. split; [done|].
    assert (Hf : forall s,
               List.filter (of_session s)
                 (conversations db
                  ++ [{| turn_id := S (last_turn_id db);
                         turn_session_id := sid;
                         turn_role := r;
                         turn_content := content;
                         turn_created_at := db_clock (db_ticks db) |}])
               = List.filter (of_session s) (conversations db)
                 ++ (if String.eqb sid s
                     then [{| turn_id := S (last_turn_id db);
                              turn_session_id := sid;
                              turn_role := r;
                              turn_content := content;
                              turn_created_at := db_clock (db_ticks db) |}]
                     else [])).
    { intros s. rewrite List.filter_app. cbn [List.filter].
      unfold of_session at 2. cbn [turn_session_id].
      by destruct (String.eqb sid s). }
    split; [|split].
    + unfold messages_of. cbn [conversations]. rewrite Hf, String.eqb_refl.
      by rewrite map_app.
    + intros sid' Hne. cbn [get_conversation_history fst conversations].
      rewrite Hf. apply not_eq_sym, String.eqb_neq in Hne. rewrite Hne.
      by rewrite app_nil_r.
    + intros Hold. cbn [get_conversation_history fst conversations].
      rewrite Hf, String.eqb_refl. rewrite order_asc_last; [by rewrite map_app|].
      intros y Hy. cbn [turn_created_at].
      specialize (Hold (to_message y) (in_map to_message _ _ Hy)).
      cbn [to_message created_at] in Hold.
      destruct (String.leb_total (turn_created_at y) (db_clock (db_ticks db)));
        congruence.
Qed.

(** *** Deleting a session *)

(** X16.  After [delete_session] the session has no draft and no conversation,
    and no listed draft belongs to it.  The call returns [False] exactly
    when the session had neither a turn nor a draft; deleting once more
    returns [False] and changes nothing. *)
Theorem delete_session_removes_all (sid : string) (db : Db) :
  let out := delete_session sid db in
  fst (on_drafts (get_draft_metadata sid) (snd out)) = None
  /\ fst (get_conversation_history sid (snd out)) = []
  /\ (forall d, In d (fst (on_drafts (list_all_drafts None) (snd out))) ->
                d_session_id d <> sid)
  /\ (fst out = false
      <-> fst (get_conversation_history sid db) = []
          /\ fst (on_drafts (get_draft_metadata sid) db) = None)
  /\ delete_session sid (snd out) = (false, snd out).
Proof.
  intros out. subst out.
  assert (Hc : List.filter (of_session sid)
                 (List.filter (fun t => negb (of_session sid t))
                    (conversations db)) = [])
    by (apply filter_filter_none; intros x Hx; by destruct (of_session sid x)).
  assert (Hr : List.filter (row_of_session sid)
                 (List.filter (fun r => negb (row_of_session sid r))
                    (table (drafts db))) = [])
    by (apply filter_filter_none; intros x Hx;
        by destruct (row_of_session sid x)).
  split; [|split; [|split; [|split]]].
  - rewrite on_drafts_get. cbn [delete_session snd drafts table].
    apply fmap_None. by apply select_latest_None.
  - apply history_nil. exact Hc.
  - unfold on_drafts. rewrite list_all_drafts_eq.
    cbn [delete_session fst snd drafts table]. intros d Hd.
    apply in_map_iff in Hd as (r & <- & Hin).
    apply (Permutation_in _ (order_perm _)) in Hin.
    apply filter_In in Hin as [_ Hin]. cbn [_row_to_dict d_session_id].
    unfold row_of_session in Hin. intros E. apply String.eqb_eq in E.
    by rewrite E in Hin.
  - rewrite history_nil, on_drafts_get. cbn [delete_session fst].
    rewrite fmap_None, select_latest_None.
    fold (row_of_session sid). rewrite Nat.ltb_ge.
    destruct (List.filter (of_session sid) (conversations db)),
      (List.filter (row_of_session sid) (table (drafts db)));
      cbn [List.length]; split; try done; try lia.
    all: intros [? ?]; discriminate.
  - unfold delete_session at 1. cbn [delete_session snd drafts conversations
                                       table ticks last_turn_id db_ticks].
    rewrite Hc, Hr. cbn [List.length Nat.add Nat.ltb Nat.leb]. f_equal.
    rewrite !filter_filter_sub by done. reflexivity.
Qed.

(** X17.  [delete_session] leaves every other session as it was: its
    conversation, and what it reads as its draft. *)
Theorem delete_session_keeps_others (sid sid' : string) (db : Db) :
  sid' <> sid ->
  let db' := snd (delete_session sid db) in
  fst (get_conversation_history sid' db')
  = fst (get_conversation_history sid' db)
  /\ fst (on_drafts (get_draft_metadata sid') db')
     = fst (on_drafts (get_draft_metadata sid') db)
  /\ List.filter (row_of_session sid') (table (drafts db'))
     = List.filter (row_of_session sid') (table (drafts db)).
Proof.
  intros Hne db'. subst db'.
  assert (Hr : List.filter (row_of_session sid')
                 (List.filter (fun r => negb (row_of_session sid r))
                    (table (drafts db)))
               = List.filter (row_of_session sid') (table (drafts db))).
  { apply filter_filter_sub. intros r Hr. unfold row_of_session in *.
    apply String.eqb_eq in Hr. rewrite Hr.
    apply String.eqb_neq in Hne. by rewrite Hne. }
  split; [|split].
  - cbn [get_conversation_history delete_session fst snd conversations].
    rewrite filter_filter_sub; [done|]. intros t Ht. unfold of_session in *.
    apply String.eqb_eq in Ht. rewrite Ht.
    apply String.eqb_neq in Hne. by rewrite Hne.
  - rewrite !on_drafts_get. cbn [delete_session snd drafts table].
    unfold select_latest. fold (row_of_session sid'). by rewrite Hr.
  - exact Hr.
Qed.

(** *** The properties at concrete inputs *)

Lemma save_turn_appends_witness :
  role_of_string "user" = Some user
  /\ messages_of "s"
       (snd (save_conversation_turn Samples.db_clock "s" "user" "next"
               Samples.talk))
     = messages_of "s" Samples.talk
       ++ [{| role := user;
              content := "next";
              created_at := Samples.db_clock (db_ticks Samples.talk) |}].
Proof.
  assert (H1 : role_of_string "user" = Some user) by reflexivity.
  split; [exact H1|].
  destruct (proj2 (save_turn_appends Samples.db_clock "s" "user" "next"
                     Samples.talk) user H1) as (_ & _ & H & _).
  exact H.
Defined.

Lemma delete_session_keeps_others_witness :
  "t" <> "s"
  /\ fst (get_conversation_history "t" (snd (delete_session "s" Samples.talk)))
     = fst (get_conversation_history "t" Samples.talk).
Proof.
  assert (H1 : "t" <> "s") by discriminate.
  split; [exact H1|].
  exact (proj1 (delete_session_keeps_others "s" "t" Samples.talk H1)).
Defined.

End SessionsFacts.

(** * The service *)

Module ServiceFacts.

Import Store StoreFacts StoreLaws Sessions SessionsFacts Service.

(** *** The prompt *)

Lemma length_last_turns {A} (n : nat) (l : list A) :
  List.length (last_turns n l) = Nat.min n (List.length l).
Proof. unfold last_turns. rewrite length_skipn. lia. Qed.

Lemma last_turns_idem {A} (n : nat) (l : list A) :
  last_turns n (last_turns n l) = last_turns n l.
Proof.
  unfold last_turns at 1. rewrite length_last_turns.
  by replace (Nat.min n (List.length l) - n) with 0 by lia.
Qed.

Lemma join_lines_snoc (parts : list string) (p : string) :
  join_lines (parts ++ [p])
  = match parts with
    | [] => p
    | _ :: _ => join_lines parts +:+ String ch_newline p
    end.
Proof.
  induction parts as [|a parts IH]; [done|].
  cbn [app join_lines]. rewrite IH.
  destruct parts as [|b parts]; cbn [app]; [done|].
  by rewrite CodecFacts.app_assoc_s, CodecFacts.app_cons.
Qed.

(** X18.  The prompt is made of the last ten turns of the history at most:
    older turns have no influence on it.  It ends with the new message
    of the user, and is that message alone when there is no history. *)
Theorem context_keeps_last_ten (history : list Message)
    (user_message : string) :
  _format_conversation_context history user_message
  = _format_conversation_context (last_turns 10 history) user_message
  /\ List.length (context_parts history user_message) <= 13
  /\ (exists before,
        _format_conversation_context history user_message
        = before +:+ "USER: " +:+ user_message)
  /\ _format_conversation_context [] user_message = "USER: " +:+ user_message.
Proof.
  split; [|split; [|split]].
  - unfold _format_conversation_context, context_parts.
    rewrite last_turns_idem.
    pose proof (length_last_turns 10 history) as Hl.
    destruct history as [|m history]; [done|].
    destruct (last_turns 10 (m :: history)) as [|m' l'] eqn:E; [|done].
    cbn [List.length] in Hl. lia.
  - unfold context_parts. destruct history as [|m history]; [cbn; lia|].
    rewrite !length_app, length_map, length_last_turns. cbn [List.length]. lia.
  - unfold _format_conversation_context, context_parts.
    rewrite join_lines_snoc.
    destruct history as [|m history].
    + exists EmptyString. done.
    + cbn [app].
      exists (join_lines
                ("Previous conversation:"
                 :: map (fun turn => upper (role turn) +:+ ": " +:+ content turn)
                      (last_turns 10 (m :: history)) ++ [EmptyString])
              +:+ String ch_newline EmptyString).
      by rewrite CodecFacts.app_assoc_s.
  - done.
Qed.

(** *** The sessions *)

Lemma min_text_spec (a b : string) :
  (min_text a b = a \/ min_text a b = b)
  /\ String.leb (min_text a b) a = true
  /\ String.leb (min_text a b) b = true.
Proof.
  unfold min_text. destruct (String.leb a b) eqn:E.
  - split; [by left|]. split; [apply leb_refl | exact E].
  - split; [by right|]. split; [|apply leb_refl].
    destruct (String.leb_total a b); congruence.
Qed.

Lemma max_text_spec (a b : string) :
  (max_text a b = a \/ max_text a b = b)
  /\ String.leb a (max_text a b) = true
  /\ String.leb b (max_text a b) = true.
Proof.
  unfold max_text. destruct (String.leb a b) eqn:E.
  - split; [by right|]. split; [exact E | apply leb_refl].
  - split; [by left|]. split; [apply leb_refl|].
    destruct (String.leb_total a b); congruence.
Qed.

Lemma fold_min_spec (ts : list string) (t : string) :
  In (fold_left min_text ts t) (t :: ts)
  /\ forall x, In x (t :: ts) ->
               String.leb (fold_left min_text ts t) x = true.
Proof.
  revert t. induction ts as [|a ts IH]; intros t; cbn [fold_left].
  - split; [by left|]. intros x [<- | []]. apply leb_refl.
  - destruct (IH (min_text t a)) as [Hin Hle].
    destruct (min_text_spec t a) as (Hor & Ht & Ha). split.
    + destruct Hin as [Hin | Hin]; [|by right; right].
      rewrite <- Hin. destruct Hor as [-> | ->]; [by left | by right; left].
    + intros x [<- | [<- | Hx]].
      * exact (leb_trans _ _ _ (Hle _ (or_introl eq_refl)) Ht).
      * exact (leb_trans _ _ _ (Hle _ (or_introl eq_refl)) Ha).
      * apply Hle. by right.
Qed.

Lemma fold_max_spec (ts : list string) (t : string) :
  In (fold_left max_text ts t) (t :: ts)
  /\ forall x, In x (t :: ts) ->
               String.leb x (fold_left max_text ts t) = true.
Proof.
  revert t. induction ts as [|a ts IH]; intros t; cbn [fold_left].
  - split; [by left|]. intros x [<- | []]. apply leb_refl.
  - destruct (IH (max_text t a)) as [Hin Hle].
    destruct (max_text_spec t a) as (Hor & Ht & Ha). split.
    + destruct Hin as [Hin | Hin]; [|by right; right].
      rewrite <- Hin. destruct Hor as [-> | ->]; [by left | by right; left].
    + intros x [<- | [<- | Hx]].
      * exact (leb_trans _ _ _ Ht (Hle _ (or_introl eq_refl))).
      * exact (leb_trans _ _ _ Ha (Hle _ (or_introl eq_refl))).
      * apply Hle. by right.
Qed.

Lemma min_of_spec (texts : list string) :
  texts <> [] ->
  In (min_of texts) texts
  /\ forall x, In x texts -> String.leb (min_of texts) x = true.
Proof. destruct texts as [|t ts]; [done|]. intros _. apply fold_min_spec. Qed.

Lemma max_of_spec (texts : list string) :
  texts <> [] ->
  In (max_of texts) texts
  /\ forall x, In x texts -> String.leb x (max_of texts) = true.
Proof. destruct texts as [|t ts]; [done|]. intros _. apply fold_max_spec. Qed.

Lemma session_ids_In (turns : list Turn) (s : string) :
  In s (session_ids turns)
  <-> exists t, In t turns /\ turn_session_id t = s.
Proof.
  induction turns as [|t turns IH]; cbn [session_ids].
  { split; [done | by intros (t & [] & _)]. }
  split.
  - intros [<- | H]; [exists t; split; [by left | done]|].
    apply filter_In in H as [H _]. apply IH in H as (t' & Hin & Hs).
    exists t'. split; [by right | done].
  - intros (t' & [<- | Hin] & Hs); [by left|].
    destruct (String.eqb_spec s (turn_session_id t)) as [-> | Hne];
      [by left | right].
    apply filter_In. split; [apply IH; by exists t'|].
    apply String.eqb_neq in Hne. by rewrite Hne.
Qed.

Lemma session_ids_NoDup (turns : list Turn) : NoDup (session_ids turns).
Proof.
  induction turns as [|t turns IH]; cbn [session_ids]; [constructor|].
  apply NoDup_cons. split.
  - intros H%list_elem_of_In. apply filter_In in H as [_ H].
    by rewrite String.eqb_refl in H.
  - apply NoDup_ListNoDup, List.NoDup_filter. by apply NoDup_ListNoDup.
Qed.

Lemma insert_active_perm (r : SessionRow) (l : list SessionRow) :
  Permutation (insert_active r l) (r :: l).
Proof.
  induction l as [|x xs IH]; cbn [insert_active]; [done|].
  destruct (String.leb (s_last_active x) (s_last_active r)); [done|].
  rewrite IH. apply perm_swap.
Qed.

Lemma sort_active_perm (l : list SessionRow) :
  Permutation (fold_right insert_active [] l) l.
Proof.
  induction l as [|x xs IH]; [done|]. cbn [fold_right].
  rewrite insert_active_perm. by apply perm_skip.
Qed.

Lemma insert_active_sorted (r : SessionRow) (l : list SessionRow) :
  StronglySorted active_later_or_equal l ->
  StronglySorted active_later_or_equal (insert_active r l).
Proof.
  induction 1 as [|x xs Hs IH Hall]; cbn [insert_active].
  { constructor; [constructor | apply List.Forall_nil]. }
  rewrite List.Forall_forall in Hall.
  destruct (String.leb (s_last_active x) (s_last_active r)) eqn:E.
  - constructor; [by constructor; [|apply List.Forall_forall]|].
    apply List.Forall_cons; [exact E|]. apply List.Forall_forall.
    intros y Hy. exact (leb_trans _ _ _ (Hall y Hy) E).
  - constructor; [exact IH|]. apply List.Forall_forall. intros y Hy.
    apply (Permutation_in _ (insert_active_perm r xs)) in Hy as [<- | Hy].
    + unfold active_later_or_equal.
      destruct (String.leb_total (s_last_active x) (s_last_active r));
        congruence.
    + by apply Hall.
Qed.

Lemma sort_active_sorted (l : list SessionRow) :
  StronglySorted active_later_or_equal (fold_right insert_active [] l).
Proof.
  induction l as [|x xs IH]; [constructor|].
  cbn [fold_right]. by apply insert_active_sorted.
Qed.

(** The rows of [get_sessions]: the summaries of the sessions. *)
Lemma get_sessions_rows (db : Db) (row : SessionRow) :
  In row (fst (get_sessions db))
  <-> exists sid, In sid (session_ids (conversations db))
                  /\ row = summarise (conversations db) sid.
Proof.
  cbn [get_sessions fst]. split.
  - intros H. apply (Permutation_in _ (sort_active_perm _)) in H.
    apply in_map_iff in H as (sid & <- & Hin). by exists sid.
  - intros (sid & Hin & ->).
    apply (Permutation_in _ (Permutation_sym (sort_active_perm _))).
    by apply in_map.
Qed.

Lemma first_user_message_spec (sid : string) (turns : list Turn) :
  match first_user_message sid turns with
  | None =>
      forall t, In t turns -> turn_session_id t = sid -> turn_role t <> user
  | Some c =>
      exists t, In t turns /\ turn_session_id t = sid /\ turn_role t = user
                /\ turn_content t = c
                /\ forall t', In t' turns -> turn_session_id t' = sid ->
                              turn_role t' = user ->
                              String.leb (turn_created_at t)
                                (turn_created_at t') = true
  end.
Proof.
  unfold first_user_message.
  set (p := fun t => of_session sid t && Role_eqb (turn_role t) user).
  assert (Hp : forall t, p t = true
                         <-> turn_session_id t = sid /\ turn_role t = user).
  { intros t. unfold p, of_session. rewrite andb_true_iff, String.eqb_eq.
    destruct (turn_role t); cbn [Role_eqb]; intuition discriminate. }
  pose proof (order_asc_perm (List.filter p turns)) as Hperm.
  pose proof (order_asc_sorted (List.filter p turns)) as Hsort.
  destruct (order_by_created_at_asc (List.filter p turns)) as [|t l]; cbn.
  - intros t Hin Hs Hr. apply Permutation_nil in Hperm.
    assert (Hf : In t (List.filter p turns))
      by (apply filter_In; split; [done | by apply Hp]).
    by rewrite Hperm in Hf.
  - assert (Ht : In t (List.filter p turns))
      by (apply (Permutation_in _ Hperm); by left).
    apply filter_In in Ht as [Hin Hpt]. apply Hp in Hpt as [Hs Hr].
    exists t. repeat split; try done.
    intros t' Hin' Hs' Hr'.
    assert (Hf : In t' (t :: l)).
    { apply (Permutation_in _ (Permutation_sym Hperm)).
      apply filter_In. split; [done | by apply Hp]. }
    destruct Hf as [<- | Hf]; [apply leb_refl|].
    apply StronglySorted_inv in Hsort as [_ Hall].
    rewrite List.Forall_forall in Hall. by apply Hall.
Qed.

Lemma history_In (sid : string) (db : Db) (m : Message) :
  In m (fst (get_conversation_history sid db))
  <-> exists t, In t (conversations db) /\ turn_session_id t = sid
                /\ to_message t = m.
Proof.
  cbn [get_conversation_history fst]. rewrite in_map_iff. split.
  - intros (t & Hm & Hin). exists t.
    apply (Permutation_in _ (order_asc_perm _)) in Hin.
    apply filter_In in Hin as [Hin Hs]. by apply String.eqb_eq in Hs.
  - intros (t & Hin & Hs & Hm). exists t. split; [done|].
    apply (Permutation_in _ (Permutation_sym (order_asc_perm _))).
    apply filter_In. split; [done | by apply String.eqb_eq].
Qed.

Lemma history_stamps (sid : string) (db : Db) :
  Permutation
    (map created_at (fst (get_conversation_history sid db)))
    (map turn_created_at (List.filter (of_session sid) (conversations db))).
Proof.
  cbn [get_conversation_history fst]. rewrite map_map.
  change (fun x => created_at (to_message x)) with turn_created_at.
  apply Permutation_map, order_asc_perm.
Qed.

(** X19.  [get_sessions] changes nothing and lists every session that has a
    turn, once, the most recently active first.  The row of a session
    counts its turns, gives as [created_at] and [last_active] the
    [created_at] of its oldest and of its newest turn, and as
    [first_message] the content of an oldest turn of role [user], or
    nothing exactly when the session has no such turn. *)
Theorem get_sessions_summary (db : Db) :
  snd (get_sessions db) = db
  /\ NoDup (map s_session_id (fst (get_sessions db)))
  /\ (forall sid, In sid (map s_session_id (fst (get_sessions db)))
                  <-> fst (get_conversation_history sid db) <> [])
  /\ StronglySorted active_later_or_equal (fst (get_sessions db))
  /\ (forall row, In row (fst (get_sessions db)) ->
        let history := fst (get_conversation_history (s_session_id row) db) in
        s_message_count row = List.length history
        /\ In (s_created_at row) (map created_at history)
        /\ In (s_last_active row) (map created_at history)
        /\ (forall m, In m history ->
              String.leb (s_created_at row) (created_at m) = true
              /\ String.leb (created_at m) (s_last_active row) = true)
        /\ match s_first_message row with
           | None => forall m, In m history -> role m <> user
           | Some c =>
               exists m, In m history /\ role m = user /\ content m = c
                         /\ forall m', In m' history -> role m' = user ->
                              String.leb (created_at m) (created_at m') = true
           end).
Proof.
  assert (Hids : Permutation (map s_session_id (fst (get_sessions db)))
                   (session_ids (conversations db))).
  { cbn [get_sessions fst]. rewrite sort_active_perm, map_map.
    cbn [summarise s_session_id]. by rewrite map_id. }
  split; [done|]. split; [|split; [|split]].
  - rewrite Hids. apply session_ids_NoDup.
  - intros sid. split.
    + intros H. apply (Permutation_in _ Hids) in H.
      apply session_ids_In in H as (t & Hin & Hs). intros E.
      assert (Hm : In (to_message t) (fst (get_conversation_history sid db)))
        by (apply history_In; by exists t).
      by rewrite E in Hm.
    + intros H. apply (Permutation_in _ (Permutation_sym Hids)).
      destruct (fst (get_conversation_history sid db)) as [|m l] eqn:E;
        [done|].
      assert (Hm : In m (fst (get_conversation_history sid db)))
        by (rewrite E; by left).
      apply history_In in Hm as (t & Hin & Hs & _).
      apply session_ids_In. by exists t.
  - apply sort_active_sorted.
  - intros row Hrow. apply get_sessions_rows in Hrow as (sid & Hsid & ->).
    cbn [summarise s_session_id s_created_at s_last_active s_message_count
           s_first_message]. cbn zeta.
    apply session_ids_In in Hsid as (t0 & Hin0 & Hs0).
    set (group := List.filter (of_session sid) (conversations db)).
    assert (Hne : map turn_created_at group <> []).
    { assert (Hg : In t0 group)
        by (apply filter_In; split; [done | by apply String.eqb_eq]).
      intros E. apply map_eq_nil in E. by rewrite E in Hg. }
    pose proof (history_stamps sid db) as Hst. fold group in Hst.
    destruct (min_of_spec _ Hne) as [Hmin_in Hmin].
    destruct (max_of_spec _ Hne) as [Hmax_in Hmax].
    split; [|split; [|split; [|split]]].
    + cbn [get_conversation_history fst]. rewrite length_map.
      symmetry. apply Permutation_length, order_asc_perm.
    + by apply (Permutation_in _ (Permutation_sym Hst)).
    + by apply (Permutation_in _ (Permutation_sym Hst)).
    + intros m Hm.
      assert (Hc : In (created_at m) (map turn_created_at group))
        by (apply (Permutation_in _ Hst); by apply in_map).
      split; [by apply Hmin | by apply Hmax].
    + pose proof (first_user_message_spec sid (conversations db)) as Hf.
      destruct (first_user_message sid (conversations db)) as [c|].
      * destruct Hf as (t & Hin & Hs & Hr & Hc & Hold).
        exists (to_message t). split; [apply history_In; by exists t|].
        split; [exact Hr|]. split; [exact Hc|].
        intros m' Hm' Hr'. apply history_In in Hm' as (t' & Hin' & Hs' & <-).
        by apply Hold.
      * intros m Hm. apply history_In in Hm as (t & Hin & Hs & <-).
        by apply Hf.
Qed.

End ServiceFacts.
